(** * SQLiteDB: the sqlite3 TaskRecord backend of ipyparallel

    A shallow embedding of [ipyparallel/controller/sqlitedb.py]: the
    buffer-list and timestamp codecs, the schema check with its
    rename-retry loop, the filter translator [_render_expression] and the
    record operations, over a small model of the sqlite3 connection.

    Python values are an inductive type, dicts are association lists in
    insertion order, sets are [gset], the tables of a connection are a
    [gmap] from table name to table, exceptions are the error side of a
    result type, and the methods that talk to the connection live in a
    state-and-exception monad over the connection. *)

From Stdlib Require Import ZArith List Ascii String Lia.
From stdpp Require Import base option list gmap sets strings pretty sorting.

Local Open Scope string_scope.
Local Open Scope Z_scope.
Local Open Scope nat_scope.

(** ** Python values *)

Definition bytes := list Byte.byte.

(** A [datetime.datetime]: calendar fields, and [tzinfo] as the UTC offset
    in minutes ([None] for a naive datetime). *)
Record datetime := Datetime {
  year : Z; month : Z; day : Z;
  hour : Z; minute : Z; second : Z; microsecond : Z;
  tzinfo : option Z
}.

#[warnings="-register-all"]
Inductive pyval :=
| VNone
| VInt (z : Z)
| VStr (s : string)
| VBytes (b : bytes)
| VMemoryview (b : bytes)
| VDatetime (dt : datetime)
| VList (l : list pyval)
| VTuple (l : list pyval)
| VDict (d : list (string * pyval)).

(** A dict is an association list in insertion order, keys unique. *)
Definition pydict := list (string * pyval).

Definition is_None (v : pyval) : bool :=
  match v with VNone => true | _ => false end.

(** Truthiness, as [if v:] tests it. *)
Definition truthy (v : pyval) : bool :=
  match v with
  | VNone => false
  | VInt z => negb (Z.eqb z 0)
  | VStr s => negb (String.eqb s "")
  | VBytes b => match b with [] => false | _ => true end
  | VMemoryview b => match b with [] => false | _ => true end
  | VDatetime _ => true
  | VList l => match l with [] => false | _ => true end
  | VTuple l => match l with [] => false | _ => true end
  | VDict d => match d with [] => false | _ => true end
  end.

(** [d[key] = value]: replace in place when the key is there, else append. *)
Fixpoint dict_set (d : pydict) (key : string) (value : pyval) : pydict :=
  match d with
  | [] => [(key, value)]
  | (k, v) :: d' =>
      if String.eqb k key then (k, value) :: d'
      else (k, v) :: dict_set d' key value
  end.

Fixpoint dict_get (d : pydict) (key : string) : option pyval :=
  match d with
  | [] => None
  | (k, v) :: d' => if String.eqb k key then Some v else dict_get d' key
  end.

(** [d.update(rec)] *)
Definition dict_update (d rec : pydict) : pydict :=
  fold_left (fun acc kv => dict_set acc (fst kv) (snd kv)) rec d.

Definition dict_keys (d : pydict) : list string := map fst d.

(** [key in keys] for a list of strings. *)
Definition str_in (key : string) (keys : list string) : bool :=
  existsb (String.eqb key) keys.

(** [keys.remove(x)]: drops the first occurrence (the caller checks that
    there is one). *)
Fixpoint list_remove (x : string) (keys : list string) : list string :=
  match keys with
  | [] => []
  | k :: keys' => if String.eqb k x then keys' else k :: list_remove x keys'
  end.

(** [sep.join(l)] *)
Definition join (sep : string) (l : list string) : string := String.concat sep l.

(** ** Exceptions and results

    An engine error keeps the class of the exception and, in [what], the
    kind of failure; sqlite's own text may name the offending token,
    table or column as well. *)

Inductive exn :=
| KeyError_illegal_testing_keys (skeys : gset string)
| KeyError_unsupported_operator (test : string)
| KeyError_bad_record_keys (bad_keys : list string)
| KeyError (key : string)
| IndexError
| ValueError_null_values (test : string)
| UnboundLocalError (name : string)
| TypeError (what : string)
| OverflowError
| InterfaceError
| IntegrityError
| OperationalError (what : string)
| ProgrammingError
| ExternalError (what : string).

Inductive result (A : Type) :=
| Ok (a : A)
| Raise (e : exn).
Arguments Ok {A} a.
Arguments Raise {A} e.

Definition is_Raise {A} (r : result A) : Prop :=
  match r with Ok _ => False | Raise _ => True end.

Definition rbind {A B} (r : result A) (k : A -> result B) : result B :=
  match r with Ok a => k a | Raise e => Raise e end.

(** ** SQLite operators *)

(** A value of the [operators] dict: a string, or an (operator, join) tuple. *)
Inductive operator :=
| OpStr (op : string)
| OpTuple (op : string) (join : string).

Definition operators : list (string * operator) :=
  [ ("$lt", OpStr "<");
    ("$gt", OpStr ">");
    ("$eq", OpStr "=");
    ("$ne", OpStr "!=");
    ("$lte", OpStr "<=");
    ("$gte", OpStr ">=");
    ("$in", OpTuple "=" " OR ");
    ("$nin", OpTuple "!=" " AND ") ].

Definition null_operators : list (string * string) :=
  [ ("=", "IS NULL");
    ("!=", "IS NOT NULL") ].

Fixpoint lookup_str {A} (key : string) (d : list (string * A)) : option A :=
  match d with
  | [] => None
  | (k, v) :: d' => if String.eqb k key then Some v else lookup_str key d'
  end.

(** ** The column catalog *)

Definition _keys : list string :=
  [ "msg_id"; "header"; "metadata"; "content"; "buffers"; "submitted";
    "client_uuid"; "engine_uuid"; "started"; "completed"; "resubmitted";
    "received"; "result_header"; "result_metadata"; "result_content";
    "result_buffers"; "queue"; "execute_input"; "execute_result"; "error";
    "stdout"; "stderr" ].

Definition _types : list (string * string) :=
  [ ("msg_id", "text");
    ("header", "dict text");
    ("metadata", "dict text");
    ("content", "dict text");
    ("buffers", "bufs blob");
    ("submitted", "timestamp");
    ("client_uuid", "text");
    ("engine_uuid", "text");
    ("started", "timestamp");
    ("completed", "timestamp");
    ("resubmitted", "text");
    ("received", "timestamp");
    ("result_header", "dict text");
    ("result_metadata", "dict text");
    ("result_content", "dict text");
    ("result_buffers", "bufs blob");
    ("queue", "text");
    ("execute_input", "text");
    ("execute_result", "text");
    ("error", "text");
    ("stdout", "text");
    ("stderr", "text") ].

(** ** The filter translator *)

(** The locals of [_render_expression] that survive an iteration:
    [expressions], [args], and [join], which is unbound until a tuple
    operator has been seen. *)
Record render_state := RenderState {
  expressions : list string;
  args : list pyval;
  join_var : option string
}.

(** [isinstance(value, (tuple, list))] *)
Definition as_sequence (value : pyval) : option (list pyval) :=
  match value with
  | VList l => Some l
  | VTuple l => Some l
  | _ => None
  end.

Definition in_null_operators (op : string) : bool :=
  match lookup_str op null_operators with Some _ => true | None => false end.

(** One iteration of [for test, value in sub_check.items()]. *)
Definition render_test (name : string) (st : render_state)
    (test : string) (value : pyval) : result render_state :=
  match lookup_str test operators with
  | None => Raise (KeyError_unsupported_operator test)
  | Some o =>
      let '(op, jn) :=
        match o with
        | OpTuple op jn => (op, Some jn)
        | OpStr op => (op, join_var st)
        end in
      match (if is_None value then lookup_str op null_operators else None) with
      | Some null_op =>
          Ok (RenderState (expressions st ++ [name ++ " " ++ null_op])
                          (args st) jn)
      | None =>
          let expr := name ++ " " ++ op ++ " ?" in
          match as_sequence value with
          | Some vs =>
              if in_null_operators op && existsb is_None vs then
                Raise (ValueError_null_values test)
              else
                match jn with
                | None => Raise (UnboundLocalError "join")
                | Some j =>
                    Ok (RenderState
                          (expressions st
                             ++ ["( " ++ join j (repeat expr (length vs)) ++ " )"])
                          (args st ++ vs) jn)
                end
          | None =>
              Ok (RenderState (expressions st ++ [expr]) (args st ++ [value]) jn)
          end
      end
  end.

Fixpoint render_tests (name : string) (st : render_state)
    (sub_check : pydict) : result render_state :=
  match sub_check with
  | [] => Ok st
  | (test, value) :: rest =>
      rbind (render_test name st test value)
            (fun st' => render_tests name st' rest)
  end.

(** One iteration of [for name, sub_check in check.items()]. *)
Definition render_item (st : render_state) (name : string)
    (sub_check : pyval) : result render_state :=
  match sub_check with
  | VDict sub => render_tests name st sub
  | VNone =>
      Ok (RenderState (expressions st ++ [name ++ " IS NULL"]) (args st)
                      (join_var st))
  | _ =>
      Ok (RenderState (expressions st ++ [name ++ " = ?"])
                      (args st ++ [sub_check]) (join_var st))
  end.

Fixpoint render_items (st : render_state) (check : pydict) : result render_state :=
  match check with
  | [] => Ok st
  | (name, sub_check) :: rest =>
      rbind (render_item st name sub_check)
            (fun st' => render_items st' rest)
  end.

(** The keys of [check] left after the two [difference_update] calls. *)
Definition illegal_keys (check : pydict) : gset string :=
  (list_to_set (dict_keys check) ∖ list_to_set _keys)
    ∖ {[ "buffers"; "result_buffers" ]}.

Definition _render_expression (check : pydict) : result (string * list pyval) :=
  let skeys := illegal_keys check in
  if decide (skeys = ∅) then
    rbind (render_items (RenderState [] [] None) check)
          (fun st => Ok (join " AND " (expressions st), args st))
  else Raise (KeyError_illegal_testing_keys skeys).

(** ** External libraries

    [pickle], [json], [dateutil] and the SQL expression evaluator of sqlite
    are not part of this module; each is an interface. *)

(** [pickle.dumps(obj, -1)] and [pickle.loads]. *)
Class Pickle := {
  pickle_dumps : pyval -> bytes;
  pickle_loads : bytes -> result pyval
}.

(** pickle's contract on the objects this module pickles, lists of
    [bytes]: loading what was dumped gives the list back. *)
Class PickleRoundTrip `{Pickle} : Prop :=
  pickle_loads_dumps : forall bs : list bytes,
    pickle_loads (pickle_dumps (VList (map VBytes bs)))
    = Ok (VList (map VBytes bs)).

(** [json.dumps(d, default=json_default)] and
    [extract_dates(json.loads(s))]. *)
Class Json := {
  json_dumps : pydict -> result string;
  json_loads_dates : string -> result pyval
}.

(** [dateutil.parser.parse], and the UTC offset (minutes) of the local
    time zone at a naive datetime. *)
Class Dates := {
  dateutil_parse : string -> result datetime;
  local_utcoffset : datetime -> Z
}.

(** ** Codecs *)

Definition _adapt_dict `{Json} (d : pydict) : result string := json_dumps d.

(** [ds] arrives as [bytes]; strings are byte strings here, so
    [ds.decode('utf8')] is the identity. *)
Definition _convert_dict `{Json} (ds : option string) : result pyval :=
  match ds with
  | None => Ok VNone
  | Some s => json_loads_dates s
  end.

(** [bufs[0]] *)
Definition getitem0 (v : pyval) : result pyval :=
  match v with
  | VList (x :: _) | VTuple (x :: _) => Ok x
  | VStr (String c _) => Ok (VStr (String c ""))
  | VBytes (b :: _) | VMemoryview (b :: _) => Ok (VInt (Z.of_N (Byte.to_N b)))
  | VDict _ => Raise (ExternalError "KeyError: 0")
  | VList [] | VTuple [] | VStr "" | VBytes [] | VMemoryview [] =>
      Raise (ExternalError "IndexError")
  | VNone | VInt _ | VDatetime _ => Raise (TypeError "not subscriptable")
  end.

(** [isinstance(v, (bytes, memoryview))] *)
Definition is_bytes_like (v : pyval) : bool :=
  match v with VBytes _ | VMemoryview _ => true | _ => false end.

(** [memoryview(buf).tobytes()] *)
Definition tobytes (buf : pyval) : result bytes :=
  match buf with
  | VBytes b | VMemoryview b => Ok b
  | _ => Raise (TypeError "memoryview: a bytes-like object is required")
  end.

(** [[f(x) for x in l]] where [f] may raise. *)
Fixpoint map_result {A B} (f : A -> result B) (l : list A) : result (list B) :=
  match l with
  | [] => Ok []
  | x :: l' =>
      rbind (f x) (fun y => rbind (map_result f l') (fun ys => Ok (y :: ys)))
  end.

(** [for buf in bufs] *)
Definition iterate (v : pyval) : result (list pyval) :=
  match v with
  | VList l | VTuple l => Ok l
  | VStr s => Ok (map (fun c => VStr (String c "")) (list_ascii_of_string s))
  | VBytes b | VMemoryview b => Ok (map (fun x => VInt (Z.of_N (Byte.to_N x))) b)
  | VDict d => Ok (map VStr (dict_keys d))
  | VNone | VInt _ | VDatetime _ => Raise (TypeError "not iterable")
  end.

(** [sqlite3.Binary] is [memoryview]. *)
Definition _adapt_bufs `{Pickle} (bufs : pyval) : result pyval :=
  if truthy bufs then
    rbind (getitem0 bufs) (fun first =>
      if is_bytes_like first then
        rbind (iterate bufs) (fun items =>
        rbind (map_result tobytes items) (fun bs =>
          Ok (VMemoryview (pickle_dumps (VList (map VBytes bs))))))
      else Ok bufs)
  else Ok VNone.

(** [bytes(bs)] for the objects a converter can be handed. *)
Definition to_bytes (bs : pyval) : result bytes :=
  match bs with
  | VBytes b | VMemoryview b => Ok b
  | VInt z =>
      if Z.ltb z 0 then Raise (ExternalError "ValueError: negative count")
      else Ok (repeat Byte.x00 (Z.to_nat z))
  | _ => Raise (TypeError "cannot convert to bytes")
  end.

Definition _convert_bufs `{Pickle} (bs : pyval) : result pyval :=
  match bs with
  | VNone => Ok (VList [])
  | _ => rbind (to_bytes bs) pickle_loads
  end.

(** Modelled from the spec: [ensure_timezone] of [ipyparallel.util] is
    not in this file; the spec has encoding "first attach a default/local
    timezone" to a naive instant, and leaves an aware one as it is. *)
Definition ensure_timezone `{Dates} (dt : datetime) : datetime :=
  match tzinfo dt with
  | Some _ => dt
  | None =>
      Datetime (year dt) (month dt) (day dt) (hour dt) (minute dt)
               (second dt) (microsecond dt) (Some (local_utcoffset dt))
  end.

Definition digit (n : Z) : ascii := ascii_of_nat (48 + Z.to_nat (n mod 10)%Z).

Fixpoint zero_padded_go (width : nat) (n : Z) (acc : string) : string :=
  match width with
  | O => acc
  | S w => zero_padded_go w (n / 10)%Z (String (digit n) acc)
  end.

(** ["%0{width}d" % n] for [0 <= n < 10^width]. *)
Definition zero_padded (width : nat) (n : Z) : string := zero_padded_go width n "".

(** [datetime.isoformat()]: [YYYY-MM-DDTHH:MM:SS], then [.ffffff] when the
    microsecond is not zero, then [+HH:MM] or [-HH:MM] when aware. *)
Definition isoformat (dt : datetime) : string :=
  zero_padded 4 (year dt) ++ "-" ++ zero_padded 2 (month dt) ++ "-"
    ++ zero_padded 2 (day dt) ++ "T" ++ zero_padded 2 (hour dt) ++ ":"
    ++ zero_padded 2 (minute dt) ++ ":" ++ zero_padded 2 (second dt)
    ++ (if Z.eqb (microsecond dt) 0 then ""
        else "." ++ zero_padded 6 (microsecond dt))
    ++ match tzinfo dt with
       | None => ""
       | Some off =>
           (if Z.ltb off 0 then "-" else "+")
             ++ zero_padded 2 (Z.abs off / 60)%Z ++ ":"
             ++ zero_padded 2 (Z.abs off mod 60)%Z
       end.

Definition _adapt_timestamp `{Dates} (dt : datetime) : string :=
  isoformat (ensure_timezone dt).

Definition _convert_timestamp `{Dates} (s : string) : result datetime :=
  rbind (dateutil_parse s) (fun dt => Ok (ensure_timezone dt)).

(** The instant an aware datetime denotes, in microseconds since the
    epoch: the order Python compares aware datetimes by. *)
Definition days_from_civil (y m d : Z) : Z :=
  (let y' := if m <=? 2 then y - 1 else y in
   let era := y' / 400 in
   let yoe := y' - era * 400 in
   let doy := (153 * (if 2 <? m then m - 3 else m + 9) + 2) / 5 + d - 1 in
   let doe := yoe * 365 + yoe / 4 - yoe / 100 + doy in
   era * 146097 + doe - 719468)%Z.

Definition utc_microseconds (dt : datetime) : Z :=
  ((days_from_civil (year dt) (month dt) (day dt) * 86400
    + hour dt * 3600 + minute dt * 60 + second dt
    - default 0 (tzinfo dt) * 60) * 1000000 + microsecond dt)%Z.

(** ** The sqlite3 connection

    The storage engine is not part of this module.  What the module relies
    on is modelled here: a connection holds named tables; a table has its
    declared columns (name and declared type, as its [CREATE TABLE] has
    them), an optional primary-key column and its rows; values are stored
    in one of sqlite's storage classes.  The database holds tables only:
    no views and no indexes of its own.  [PRAGMA] and [CREATE TABLE]
    resolve names as sqlite does (see below); the statements on records
    name the table the store is bound to, and look it up as it was
    created.  Values are stored in the class they were bound with, and
    [=] compares values of one storage class.  Every call of [execute] is
    recorded. *)

Inductive sqlval :=
| SNull
| SInt (z : Z)
| SText (s : string)
| SBlob (b : bytes).

#[global] Instance byte_eq_dec : EqDecision Byte.byte := Byte.byte_eq_dec.
#[global] Instance sqlval_eq_dec : EqDecision sqlval.
Proof. solve_decision. Defined.

Record sql_table := Table {
  columns : list (string * string);
  primary_key : option string;
  rows : list (list sqlval)
}.

(** The statements this module sends. *)
Inductive statement :=
| PRAGMA_table_info (table : string)
| CREATE_TABLE_IF_NOT_EXISTS (table : string)
| INSERT_INTO (table : string) (nvalues : nat)
| UPDATE_SET (table : string) (keys : list string)
| DELETE_WHERE (table : string) (expr : string)
| SELECT_WHERE (req : option (list string)) (table : string) (expr : string)
| SELECT_msg_id_ORDER_BY_submitted (table : string).

Record connection := Connection {
  tables : gmap string sql_table;
  executed : list statement
}.

(** The text of each statement, as the module's f-strings build it. *)
Definition sql_text (s : statement) : string :=
  match s with
  | PRAGMA_table_info t => "PRAGMA table_info('" ++ t ++ "')"
  | CREATE_TABLE_IF_NOT_EXISTS t =>
      "CREATE TABLE IF NOT EXISTS '" ++ t ++ "' (msg_id text PRIMARY KEY, ...)"
  | INSERT_INTO t n =>
      "INSERT INTO '" ++ t ++ "' VALUES (" ++ join "," (repeat "?" n) ++ ")"
  | UPDATE_SET t keys =>
      "UPDATE '" ++ t ++ "' SET "
        ++ join ", " (map (fun key => key ++ " = ?") keys)
        ++ " WHERE msg_id == ?"
  | DELETE_WHERE t expr => "DELETE FROM '" ++ t ++ "' WHERE " ++ expr
  | SELECT_WHERE req t expr =>
      "SELECT " ++ match req with Some keys => join ", " keys | None => "*" end
        ++ " FROM '" ++ t ++ "' WHERE " ++ expr
  | SELECT_msg_id_ORDER_BY_submitted t =>
      "SELECT msg_id FROM '" ++ t ++ "' ORDER by submitted ASC"
  end.

(** The columns of the [CREATE TABLE] statement of [_init_db]. *)
Definition created_columns : list (string * string) :=
  [ ("msg_id", "text");
    ("header", "dict text");
    ("metadata", "dict text");
    ("content", "dict text");
    ("buffers", "bufs blob");
    ("submitted", "timestamp");
    ("client_uuid", "text");
    ("engine_uuid", "text");
    ("started", "timestamp");
    ("completed", "timestamp");
    ("resubmitted", "text");
    ("received", "timestamp");
    ("result_header", "dict text");
    ("result_metadata", "dict text");
    ("result_content", "dict text");
    ("result_buffers", "bufs blob");
    ("queue", "text");
    ("execute_input", "text");
    ("execute_result", "text");
    ("error", "text");
    ("stdout", "text");
    ("stderr", "text") ].

Definition created_table : sql_table := Table created_columns (Some "msg_id") [].

(** The row predicate of a [WHERE] expression, given the column names and
    the bound parameters; an error when sqlite rejects the expression. *)
Class SqlExpr := {
  sql_where : string -> list string -> list sqlval -> result (list sqlval -> bool)
}.

(** sqlite's own tables: what [PRAGMA table_info] reports for a name that
    no table of the database has.  These are the columns of
    [sqlite_schema] and of the eponymous virtual tables ([json_each],
    [pragma_table_info], ...), which depend on how the library was built;
    nothing for any other name. *)
Class SqlBuiltins := {
  builtin_columns : string -> list (string * string)
}.

(** *** The connection monad *)

Definition M (A : Type) : Type := connection -> result A * connection.

Definition ret {A} (a : A) : M A := fun c => (Ok a, c).
Definition raise {A} (e : exn) : M A := fun c => (Raise e, c).
Definition lift {A} (r : result A) : M A := fun c => (r, c).
Definition bind {A B} (m : M A) (k : A -> M B) : M B :=
  fun c => match m c with
           | (Ok a, c') => k a c'
           | (Raise e, c') => (Raise e, c')
           end.

Declare Scope db_scope.
Delimit Scope db_scope with db.
Notation "x <- m ;; k" := (bind m (fun x => k))
  (at level 100, m at next level, right associativity) : db_scope.
Notation "m ;;; k" := (bind m (fun _ => k))
  (at level 100, right associativity) : db_scope.

Definition record (s : statement) : M unit :=
  fun c => (Ok tt, Connection (tables c) (executed c ++ [s])).
Definition get_table (t : string) : M sql_table :=
  fun c => match tables c !! t with
           | Some tb => (Ok tb, c)
           | None => (Raise (OperationalError "no such table"), c)
           end.
Definition put_table (t : string) (tb : sql_table) : M unit :=
  fun c => (Ok tt, Connection (<[t := tb]> (tables c)) (executed c)).

(** [self._db.commit()]: durability is not modelled. *)
Definition commit : M unit := ret tt.

(** *** Binding parameters *)

Definition bind_param `{Pickle, Json, Dates} (v : pyval) : result sqlval :=
  match v with
  | VNone => Ok SNull
  | VInt z =>
      if ((- 2 ^ 63 <=? z) && (z <? 2 ^ 63))%Z then Ok (SInt z)
      else Raise OverflowError
  | VStr s => Ok (SText s)
  | VBytes b | VMemoryview b => Ok (SBlob b)
  | VDict d => rbind (_adapt_dict d) (fun s => Ok (SText s))
  | VList _ =>
      rbind (_adapt_bufs v) (fun a =>
        match a with
        | VNone => Ok SNull
        | VMemoryview b => Ok (SBlob b)
        | _ => Raise InterfaceError
        end)
  | VDatetime dt => Ok (SText (_adapt_timestamp dt))
  | VTuple _ => Raise InterfaceError
  end.

Definition bind_params `{Pickle, Json, Dates} (params : list pyval)
    : result (list sqlval) :=
  map_result bind_param params.

(** *** Converting columns (detect_types=PARSE_DECLTYPES) *)

Definition lower (c : ascii) : ascii :=
  let n := nat_of_ascii c in
  if (65 <=? n) && (n <=? 90) then ascii_of_nat (n + 32) else c.

(** The converter name: the first word of the declared type, lower-cased. *)
Fixpoint first_word (s : string) : string :=
  match s with
  | "" => ""
  | String c s' =>
      if Ascii.eqb c " " || Ascii.eqb c "(" then ""
      else String (lower c) (first_word s')
  end.

Definition column_bytes (v : sqlval) : bytes :=
  match v with
  | SNull => []
  | SInt z => list_byte_of_string (pretty z)
  | SText s => list_byte_of_string s
  | SBlob b => b
  end.

(** A NULL column is [None] and no converter is called.  (sqlite3 gives
    [None] as well for a zero-length value of a column that has a
    converter; none is stored by the adapters above, and the case is not
    set apart.) *)
Definition convert_column `{Pickle, Json, Dates} (decltype : string) (v : sqlval)
    : result pyval :=
  match v with
  | SNull => Ok VNone
  | _ =>
      let name := first_word decltype in
      if String.eqb name "dict" then
        _convert_dict (Some (string_of_list_byte (column_bytes v)))
      else if String.eqb name "bufs" then
        _convert_bufs (VBytes (column_bytes v))
      else if String.eqb name "timestamp" then
        rbind (_convert_timestamp (string_of_list_byte (column_bytes v)))
              (fun dt => Ok (VDatetime dt))
      else
        match v with
        | SNull => Ok VNone
        | SInt z => Ok (VInt z)
        | SText s => Ok (VStr s)
        | SBlob b => Ok (VBytes b)
        end
  end.

(** *** Names and declared types

    The module writes [self.table] between single quotes in every
    statement.  Between them sqlite reads a doubled quote as one quote and
    ends the name at a single one; what follows is then read as SQL, and
    refused here as a syntax error.  The sqlite3 module refuses a
    statement that holds a NUL character.  Names are compared without
    regard to the case of ASCII letters, the names that begin with
    [sqlite_] are kept for sqlite itself, and [PRAGMA table_info] reports
    the six standard type names in upper case, whatever their case in the
    declaration (sqlite 3.40). *)

Fixpoint string_map (f : ascii -> ascii) (s : string) : string :=
  match s with
  | "" => ""
  | String c s' => String (f c) (string_map f s')
  end.

Definition upper (c : ascii) : ascii :=
  let n := nat_of_ascii c in
  if (97 <=? n) && (n <=? 122) then ascii_of_nat (n - 32) else c.

Definition fold_name (s : string) : string := string_map lower s.

Definition same_name (a b : string) : bool :=
  String.eqb (fold_name a) (fold_name b).

Fixpoint has_char (c : ascii) (s : string) : bool :=
  match s with
  | "" => false
  | String a s' => Ascii.eqb a c || has_char c s'
  end.

(** The name written as [s] between single quotes; [None] when a single
    quote ends it early. *)
Fixpoint unquote (s : string) : option string :=
  match s with
  | "" => Some ""
  | String c s' =>
      if Ascii.eqb c "'" then
        match s' with
        | String c' s'' =>
            if Ascii.eqb c' "'" then option_map (String "'") (unquote s'')
            else None
        | "" => None
        end
      else option_map (String c) (unquote s')
  end.

Definition quoted_name (t : string) : result string :=
  if has_char Ascii.zero t then Raise ProgrammingError
  else
    match unquote t with
    | Some name => Ok name
    | None => Raise (OperationalError "syntax error")
    end.

Definition reserved_name (name : string) : bool :=
  String.prefix "sqlite_" (fold_name name).

Definition standard_types : list string :=
  ["ANY"; "BLOB"; "INT"; "INTEGER"; "REAL"; "TEXT"].

(** The type [PRAGMA table_info] reports for a declared type. *)
Definition reported_type (decl : string) : string :=
  let u := string_map upper decl in
  if str_in u standard_types then u else decl.

Definition reported_columns (tb : sql_table) : list (string * string) :=
  map (fun col => (fst col, reported_type (snd col))) (columns tb).

(** The table of the database a name designates, with the name it was
    created under. *)
Definition find_table (c : connection) (name : string)
    : option (string * sql_table) :=
  List.find (fun kt => same_name (fst kt) name) (map_to_list (tables c)).

(** *** Ordering and keys *)

Fixpoint index_of (name : string) (names : list string) : option nat :=
  match names with
  | [] => None
  | n :: names' =>
      if String.eqb n name then Some 0
      else option_map S (index_of name names')
  end.

Fixpoint bytes_compare (a b : bytes) : comparison :=
  match a, b with
  | [], [] => Eq
  | [], _ :: _ => Lt
  | _ :: _, [] => Gt
  | x :: a', y :: b' =>
      match N.compare (Byte.to_N x) (Byte.to_N y) with
      | Eq => bytes_compare a' b'
      | c => c
      end
  end.

(** sqlite's order of values: NULL, then numbers, then text (memcmp), then
    blobs. *)
Definition sqlval_compare (a b : sqlval) : comparison :=
  match a, b with
  | SNull, SNull => Eq
  | SNull, _ => Lt
  | _, SNull => Gt
  | SInt x, SInt y => Z.compare x y
  | SInt _, _ => Lt
  | _, SInt _ => Gt
  | SText x, SText y => String.compare x y
  | SText _, _ => Lt
  | _, SText _ => Gt
  | SBlob x, SBlob y => bytes_compare x y
  end.

Definition sqlval_leb (a b : sqlval) : bool :=
  match sqlval_compare a b with Gt => false | _ => true end.

Fixpoint insert_sorted {A} (leb : A -> A -> bool) (x : A) (l : list A) : list A :=
  match l with
  | [] => [x]
  | y :: l' => if leb x y then x :: l else y :: insert_sorted leb x l'
  end.

(** A stable sort. *)
Definition sorted {A} (leb : A -> A -> bool) (l : list A) : list A :=
  fold_right (insert_sorted leb) [] l.

Definition cell (i : nat) (row : list sqlval) : sqlval := default SNull (row !! i).

(** [a = b] in SQL: never true of NULL. *)
Definition sql_eq (a b : sqlval) : bool :=
  match a with
  | SNull => false
  | _ => bool_decide (a = b)
  end.

(** The index of the primary-key column, when the table has one. *)
Definition pk_index (tb : sql_table) : option nat :=
  match primary_key tb with
  | None => None
  | Some pk => index_of pk (map fst (columns tb))
  end.

(** Does [row] carry a non-NULL key that one of [others] has? *)
Definition pk_conflict (pki : option nat) (row : list sqlval)
    (others : list (list sqlval)) : bool :=
  match pki with
  | None => false
  | Some i => existsb (fun o => sql_eq (cell i row) (cell i o)) others
  end.

(** *** Executing statements *)

Section Engine.
Context `{Pickle, Json, Dates, SqlExpr, SqlBuiltins}.
Local Open Scope db_scope.

(** Columns 1 and 2 (name and type) of each line of [PRAGMA table_info]:
    the columns of the table the name designates, else those of sqlite's
    own table of that name, else no line. *)
Definition execute_PRAGMA_table_info (t : string) : M (list (string * string)) :=
  record (PRAGMA_table_info t) ;;;
  name <- lift (quoted_name t) ;;
  fun c => match find_table c name with
           | Some (_, tb) => (Ok (reported_columns tb), c)
           | None => (Ok (builtin_columns name), c)
           end.

(** Nothing happens when the name designates a table; a reserved name
    is refused. *)
Definition execute_CREATE_TABLE_IF_NOT_EXISTS (t : string) : M unit :=
  record (CREATE_TABLE_IF_NOT_EXISTS t) ;;;
  name <- lift (quoted_name t) ;;
  fun c => match find_table c name with
           | Some _ => (Ok tt, c)
           | None =>
               if reserved_name name then
                 (Raise (OperationalError
                          ("object name reserved for internal use: " ++ name)), c)
               else put_table name created_table c
           end.

Definition execute_INSERT_INTO (t : string) (line : list pyval) : M unit :=
  record (INSERT_INTO t (length line)) ;;;
  tb <- get_table t ;;
  if negb (length line =? length (columns tb)) then
    raise (OperationalError "wrong number of values")
  else
    row <- lift (bind_params line) ;;
    if pk_conflict (pk_index tb) row (rows tb) then raise IntegrityError
    else put_table t (Table (columns tb) (primary_key tb) (rows tb ++ [row])).

(** [SET key = ?, ...]: the assignments, left to right. *)
Definition assign (names : list string) (keys : list string)
    (vals : list sqlval) (row : list sqlval) : list sqlval :=
  fold_left
    (fun r kv => match index_of (fst kv) names with
                 | Some i => <[i := snd kv]> r
                 | None => r
                 end)
    (combine keys vals) row.

(** The rows of an [UPDATE], one at a time; a changed row whose key
    another row has aborts the statement. *)
Fixpoint update_rows (pki : option nat) (matches : list sqlval -> bool)
    (change : list sqlval -> list sqlval)
    (done rest : list (list sqlval)) : result (list (list sqlval)) :=
  match rest with
  | [] => Ok done
  | r :: rest' =>
      if matches r then
        if pk_conflict pki (change r) (done ++ rest') then Raise IntegrityError
        else update_rows pki matches change (done ++ [change r]) rest'
      else update_rows pki matches change (done ++ [r]) rest'
  end.

(** [UPDATE t SET k1 = ?, ... WHERE msg_id == ?]; [values] ends with the
    identifier. *)
Definition execute_UPDATE_SET (t : string) (keys : list string)
    (values : list pyval) : M unit :=
  record (UPDATE_SET t keys) ;;;
  tb <- get_table t ;;
  let names := map fst (columns tb) in
  match keys with
  | [] => raise (OperationalError "syntax error")
  | _ :: _ =>
      if negb (forallb (fun key => str_in key names) keys) then
        raise (OperationalError "no such column")
      else
        match index_of "msg_id" names with
        | None => raise (OperationalError "no such column")
        | Some idx =>
            if negb (length values =? S (length keys)) then raise ProgrammingError
            else
              bound <- lift (bind_params values) ;;
              let msg_id := List.last bound SNull in
              rows' <- lift (update_rows (pk_index tb)
                               (fun r => sql_eq (cell idx r) msg_id)
                               (assign names keys bound) [] (rows tb)) ;;
              put_table t (Table (columns tb) (primary_key tb) rows')
        end
  end.

Definition execute_DELETE_WHERE (t : string) (expr : string)
    (args : list pyval) : M unit :=
  record (DELETE_WHERE t expr) ;;;
  tb <- get_table t ;;
  bound <- lift (bind_params args) ;;
  p <- lift (sql_where expr (map fst (columns tb)) bound) ;;
  put_table t (Table (columns tb) (primary_key tb)
                     (List.filter (fun r => negb (p r)) (rows tb))).

(** The result columns of a [SELECT]: every column for [*], else the
    named ones, each with its index and declared type. *)
Definition result_columns (tb : sql_table) (req : option (list string))
    : result (list (nat * string)) :=
  match req with
  | None => Ok (imap (fun i col => (i, snd col)) (columns tb))
  | Some keys =>
      map_result
        (fun key =>
           match index_of key (map fst (columns tb)) with
           | Some i => Ok (i, default "" (snd <$> columns tb !! i))
           | None => Raise (OperationalError "no such column")
           end) keys
  end.

Definition fetch_row (cols : list (nat * string)) (row : list sqlval)
    : result (list pyval) :=
  map_result (fun col => convert_column (snd col) (cell (fst col) row)) cols.

Definition execute_SELECT_WHERE (req : option (list string)) (t : string)
    (expr : string) (args : list pyval) : M (list (list pyval)) :=
  record (SELECT_WHERE req t expr) ;;;
  tb <- get_table t ;;
  cols <- lift (result_columns tb req) ;;
  bound <- lift (bind_params args) ;;
  p <- lift (sql_where expr (map fst (columns tb)) bound) ;;
  lift (map_result (fetch_row cols) (List.filter p (rows tb))).

Definition execute_SELECT_msg_id_ORDER_BY_submitted (t : string)
    : M (list (list pyval)) :=
  record (SELECT_msg_id_ORDER_BY_submitted t) ;;;
  tb <- get_table t ;;
  let names := map fst (columns tb) in
  match index_of "submitted" names with
  | None => raise (OperationalError "no such column")
  | Some sub =>
      cols <- lift (result_columns tb (Some ["msg_id"])) ;;
      lift (map_result (fetch_row cols)
              (sorted (fun a b => sqlval_leb (cell sub a) (cell sub b)) (rows tb)))
  end.

End Engine.

(** ** SQLiteDB *)

Section SQLiteDB.
Context `{Pickle, Json, Dates, SqlExpr, SqlBuiltins}.
Local Open Scope db_scope.

(** [d[key]] *)
Definition getitem (d : pydict) (key : string) : result pyval :=
  match dict_get d key with
  | Some v => Ok v
  | None => Raise (KeyError key)
  end.

Definition _defaults (keys : option (list string)) : pydict :=
  let keys := match keys with None => _keys | Some keys => keys end in
  fold_left (fun d key => dict_set d key VNone) keys [].

(** *** Schema check *)

(** [types[key] != self._types[key]] for each key, stopping at the first
    mismatch. *)
Fixpoint check_types (types : gmap string string) (keys : list string)
    : result bool :=
  match keys with
  | [] => Ok true
  | key :: keys' =>
      match types !! key, lookup_str key _types with
      | Some ty, Some ty' =>
          if String.eqb ty ty' then check_types types keys' else Ok false
      | _, _ => Raise (KeyError key)
      end
  end.

Definition _check_table (table : string) : M bool :=
  lines <- execute_PRAGMA_table_info table ;;
  match lines with
  | [] => ret true
  | _ :: _ =>
      let keys := map fst lines in
      let types : gmap string string :=
        fold_left (fun types line => <[fst line := snd line]> types) lines ∅ in
      if bool_decide (_keys <> keys) then ret false
      else lift (check_types types _keys)
  end.

(** The table name tried at round [i]. *)
Definition candidate (first_table : string) (i : nat) : string :=
  match i with
  | O => first_table
  | S _ => first_table ++ "_" ++ pretty i
  end.

(** [while not self._check_table(): ...], at most [fuel] checks; [None]
    when the loop is still running after them. *)
Fixpoint init_loop (fuel : nat) (first_table table : string) (i : nat)
    : M (option string) :=
  match fuel with
  | O => ret None
  | S fuel' =>
      ok <- _check_table table ;;
      if ok then ret (Some table)
      else
        let i := i + 1 in
        init_loop fuel' first_table (first_table ++ "_" ++ pretty i) i
  end.

(** Returns the table the store is bound to ([self.table]). *)
Definition _init_db (fuel : nat) (table : string) : M (option string) :=
  bound <- init_loop fuel table table 0 ;;
  match bound with
  | None => ret None
  | Some table =>
      execute_CREATE_TABLE_IF_NOT_EXISTS table ;;;
      commit ;;;
      ret (Some table)
  end.

(** *** Records *)

Definition _dict_to_list (d : pydict) : result (list pyval) :=
  map_result (getitem d) _keys.

Definition _list_to_dict (line : list pyval) (keys : option (list string))
    : pydict :=
  let keys := match keys with None => _keys | Some keys => keys end in
  let d := _defaults (Some keys) in
  fold_left (fun d kv => dict_set d (fst kv) (snd kv)) (combine keys line) d.

Definition add_record (table : string) (msg_id : pyval) (rec : pydict) : M unit :=
  let d := _defaults None in
  let d := dict_update d rec in
  let d := dict_set d "msg_id" msg_id in
  line <- lift (_dict_to_list d) ;;
  execute_INSERT_INTO table line.

Definition update_record (table : string) (msg_id : pyval) (rec : pydict)
    : M unit :=
  let keys := sorted String.leb (dict_keys rec) in
  values <- lift (map_result (getitem rec) keys) ;;
  let values := (values ++ [msg_id])%list in
  execute_UPDATE_SET table keys values.

Definition drop_matching_records (table : string) (check : pydict) : M unit :=
  ea <- lift (_render_expression check) ;;
  execute_DELETE_WHERE table (fst ea) (snd ea).

(** [keys] is [None], or the caller's list; [if keys:] is false for both
    [None] and the empty list. *)
Definition keys_given (keys : option (list string)) : bool :=
  match keys with
  | Some (_ :: _) => true
  | _ => false
  end.

Definition find_records (table : string) (check : pydict)
    (keys : option (list string)) : M (list pydict) :=
  (if keys_given keys then
     let bad_keys :=
       List.filter (fun key => negb (str_in key _keys)) (default [] keys) in
     match bad_keys with
     | _ :: _ => raise (KeyError_bad_record_keys bad_keys)
     | [] => ret tt
     end
   else ret tt) ;;;
  let keys :=
    if keys_given keys then
      let ks := default [] keys in
      let ks := if str_in "msg_id" ks then list_remove "msg_id" ks else ks in
      Some ("msg_id" :: ks)
    else keys in
  let req := if keys_given keys then keys else None in
  ea <- lift (_render_expression check) ;;
  matches <- execute_SELECT_WHERE req table (fst ea) (snd ea) ;;
  ret (map (fun line => _list_to_dict line keys) matches).

Definition get_history (table : string) : M (list pyval) :=
  tups <- execute_SELECT_msg_id_ORDER_BY_submitted table ;;
  lift (map_result (fun tup => match tup with
                               | x :: _ => Ok x
                               | [] => Raise IndexError
                               end) tups).

End SQLiteDB.


(** ** Vocabulary of the properties *)

(** Literals: what a field is compared with for equality. *)
Definition is_literal (v : pyval) : bool :=
  match v with
  | VNone | VDict _ => false
  | _ => true
  end.

Definition names_buffer_field (check : pydict) : Prop :=
  exists f, f ∈ ["buffers"; "result_buffers"] /\ f ∈ dict_keys check.

(** A test of a nested mapping that the translator refuses: an operator
    outside [operators], or a list or tuple that holds [None] under one of
    the four operators of equality ([$eq], [$ne], [$in], [$nin]). *)
Definition bad_test (test : string) (value : pyval) : Prop :=
  lookup_str test operators = None
  \/ (test ∈ ["$eq"; "$ne"; "$in"; "$nin"]
      /\ exists vs, as_sequence value = Some vs /\ VNone ∈ vs).

(** The six operators that compare with one value. *)
Definition plain_operator (test : string) : Prop :=
  test ∈ ["$lt"; "$gt"; "$eq"; "$ne"; "$lte"; "$gte"].

(** A filter with a list or tuple under a comparison operator: there the
    translator reads [join], which only [$in] and [$nin] bind. *)
Definition list_comparison (check : pydict) : Prop :=
  exists name sub test value,
    (name, VDict sub) ∈ check /\ (test, value) ∈ sub
    /\ plain_operator test /\ is_Some (as_sequence value).

Definition unknown_field (check : pydict) : Prop :=
  exists k, k ∈ dict_keys check /\ k ∉ _keys.

Definition has_bad_test (check : pydict) : Prop :=
  exists name sub test value,
    (name, VDict sub) ∈ check /\ (test, value) ∈ sub /\ bad_test test value.

Definition unknown_projection (keys : option (list string)) : Prop :=
  exists ks k, keys = Some ks /\ k ∈ ks /\ k ∉ _keys.

(** The exceptions of validation: the [KeyError] and [ValueError] the
    translator and [find_records] raise themselves. *)
Definition raised_by_validation (e : exn) : Prop :=
  match e with
  | KeyError_illegal_testing_keys _
  | KeyError_unsupported_operator _
  | KeyError_bad_record_keys _
  | ValueError_null_values _ => True
  | _ => False
  end.

(** A value sqlite3 can bind, through the adapters where it needs one. *)
Definition bindable `{Pickle, Json, Dates} (v : pyval) : Prop :=
  exists s, bind_param v = Ok s.

(** The store's table, as [_init_db] creates it. *)
Definition store_table (c : connection) (table : string) (tb : sql_table)
    : Prop :=
  tables c !! table = Some tb
  /\ columns tb = created_columns
  /\ primary_key tb = Some "msg_id".

(** A record with identifier [id] is stored ([msg_id] is column 0). *)
Definition present (tb : sql_table) (id : string) : Prop :=
  exists row, row ∈ rows tb /\ cell 0 row = SText id.

(** A name sqlite reads as it is written: no quote and no NUL in it. *)
Definition verbatim (t : string) : bool :=
  negb (has_char "'" t) && negb (has_char Ascii.zero t).

(** A name free for a table of one's own: sqlite does not keep it for
    itself, and has no table of its own under it. *)
Definition ordinary_name `{SqlBuiltins} (t : string) : Prop :=
  reserved_name t = false /\ builtin_columns t = [].

Fixpoint all_chars (p : ascii -> bool) (s : string) : bool :=
  match s with
  | "" => true
  | String c s' => p c && all_chars p s'
  end.

Definition is_digit (c : ascii) : bool :=
  let n := nat_of_ascii c in (48 <=? n) && (n <=? 57).

(** What [PRAGMA table_info] reports for a name it reads as written. *)
Definition table_columns `{SqlBuiltins} (c : connection) (t : string)
    : list (string * string) :=
  match find_table c t with
  | Some (_, tb) => reported_columns tb
  | None => builtin_columns t
  end.

(** The expected shape: the columns of [_keys], each with its [_types]. *)
Definition expected_columns : list (string * string) :=
  map (fun key => (key, default "" (lookup_str key _types))) _keys.

(** A name the store can bind to: unused, or a table of exactly the
    expected shape. *)
Definition compatible `{SqlBuiltins} (c : connection) (t : string) : bool :=
  bool_decide (table_columns c t = [] \/ table_columns c t = expected_columns).

(** The connection after one more executed statement. *)
Definition logged (c : connection) (s : statement) : connection :=
  Connection (tables c) (executed c ++ [s]).

(** The claim of a cap: past [cap] incompatible candidates, [_init_db]
    raises, whatever tables of its own sqlite has. *)
Definition retry_bounded (cap : nat) : Prop :=
  forall (builtins : SqlBuiltins) (T : string) (c : connection),
    (forall i, i <= cap -> compatible c (candidate T i) = false) ->
    exists fuel e c', _init_db fuel T c = (Raise e, c').

(** A connection where ["t"], ["t_1"], ..., ["t_cap"] are tables of
    another shape. *)
Definition drifted_connection (cap : nat) : connection :=
  Connection
    (list_to_map
       ((fun i => (candidate "t" i, Table [("msg_id", "integer")] None []))
          <$> seq 0 (S cap)))
    [].

(** A column without converter, as [fetchall] returns it. *)
Definition plain (v : sqlval) : pyval :=
  match v with
  | SNull => VNone
  | SInt z => VInt z
  | SText s => VStr s
  | SBlob b => VBytes b
  end.

(** The order of [ORDER by submitted ASC] on rows ([submitted] is
    column 5). *)
Definition by_submitted (a b : list sqlval) : bool :=
  sqlval_leb (cell 5 a) (cell 5 b).

(** 10:00 at UTC+05:00, that is 05:00 UTC. *)
Definition submitted_a : datetime := Datetime 2024 1 1 10 0 0 0 (Some 300%Z).

(** 08:00 at UTC, three hours later. *)
Definition submitted_b : datetime := Datetime 2024 1 1 8 0 0 0 (Some 0%Z).

(** ** A runtime to run the model on

    Instances of the interfaces for evaluating the model on concrete
    inputs: a framing for [pickle] (each byte behind a 1, each block ended
    by a 0), a JSON and a date parser that refuse everything, a [WHERE]
    evaluator that accepts every non-empty expression and selects every
    row, and an sqlite whose own tables are the schema tables and
    [json_each]. *)

Module Run.

Fixpoint frame_block (b : bytes) : bytes :=
  match b with
  | [] => [Byte.x00]
  | x :: b' => Byte.x01 :: x :: frame_block b'
  end.

Definition dumps (v : pyval) : bytes :=
  match v with
  | VList l =>
      concat (map (fun x => match x with
                            | VBytes b => frame_block b
                            | _ => []
                            end) l)
  | _ => []
  end.

Fixpoint unframe (fuel : nat) (s : bytes) (cur : bytes) : option (list bytes) :=
  match fuel with
  | O => None
  | S fuel' =>
      match s with
      | [] => match cur with [] => Some [] | _ => None end
      | Byte.x00 :: s' =>
          option_map (cons (rev cur)) (unframe fuel' s' [])
      | Byte.x01 :: x :: s' => unframe fuel' s' (x :: cur)
      | _ => None
      end
  end.

Definition loads (s : bytes) : result pyval :=
  match unframe (S (length s)) s [] with
  | Some bs => Ok (VList (map VBytes bs))
  | None => Raise (ExternalError "UnpicklingError")
  end.

#[export] Instance pickle : Pickle :=
  {| pickle_dumps := dumps; pickle_loads := loads |}.

#[export] Instance json : Json :=
  {| json_dumps := fun _ => Raise (ExternalError "json.dumps");
     json_loads_dates := fun _ => Raise (ExternalError "json.loads") |}.

#[export] Instance dates : Dates :=
  {| dateutil_parse := fun _ => Raise (ExternalError "dateutil.parser.parse");
     local_utcoffset := fun _ => 0%Z |}.

#[export] Instance sql : SqlExpr :=
  {| sql_where := fun expr _ _ =>
       if String.eqb expr "" then Raise (OperationalError "syntax error")
       else Ok (fun _ => true) |}.

#[export] Instance builtins : SqlBuiltins :=
  {| builtin_columns := fun name =>
       let n := fold_name name in
       if str_in n ["sqlite_schema"; "sqlite_master";
                    "sqlite_temp_schema"; "sqlite_temp_master"] then
         [("type", "TEXT"); ("name", "TEXT"); ("tbl_name", "TEXT");
          ("rootpage", "INT"); ("sql", "TEXT")]
       else if String.eqb n "json_each" then
         [("key", ""); ("value", ""); ("type", ""); ("atom", ""); ("id", "");
          ("parent", ""); ("fullkey", ""); ("path", "")]
       else [] |}.

End Run.

(** ** A small store *)

Module Fixtures.

#[local] Existing Instance Run.pickle.
#[local] Existing Instance Run.json.
#[local] Existing Instance Run.dates.
#[local] Existing Instance Run.sql.
#[local] Existing Instance Run.builtins.

Definition empty_connection : connection := Connection ∅ [].

(** A fresh store on table ["tasks"], then one record ["m1"]. *)
Definition store0 : connection := snd (_init_db 1 "tasks" empty_connection).

Definition store1 : connection :=
  snd (add_record "tasks" (VStr "m1") [("queue", VStr "q")] store0).

Definition row_m1 : list sqlval :=
  SText "m1" :: repeat SNull 15 ++ [SText "q"] ++ repeat SNull 5.

Definition add_a : M unit :=
  add_record "tasks" (VStr "a") [("submitted", VDatetime submitted_a)].

Definition add_b : M unit :=
  add_record "tasks" (VStr "b") [("submitted", VDatetime submitted_b)].

(** Three records submitted at 08:00, half a second later and the next
    morning, all at UTC, added first, last and second. *)
Definition submitted_1 : datetime := Datetime 2024 1 1 8 0 0 0 (Some 0%Z).
Definition submitted_2 : datetime := Datetime 2024 1 1 8 0 0 500000 (Some 0%Z).
Definition submitted_3 : datetime := Datetime 2024 1 2 7 30 0 0 (Some 0%Z).

Definition store3 : connection :=
  let add id t := add_record "tasks" (VStr id) [("submitted", VDatetime t)] in
  snd (add "b" submitted_2 (snd (add "c" submitted_3 (snd (add "a" submitted_1 store0))))).

Definition row_of (id : string) (t : datetime) : list sqlval :=
  SText id :: repeat SNull 4 ++ [SText (isoformat t)] ++ repeat SNull 16.

Definition table3 : sql_table :=
  Table created_columns (Some "msg_id")
        [row_of "a" submitted_1; row_of "c" submitted_3; row_of "b" submitted_2].

End Fixtures.

(** ** SQLiteDB: the methods the claims leave out *)

(** [repr(msg_id)] for the identifiers the store is given.  A string is
    written between single quotes, or between double quotes when it holds
    a single quote and no double quote; backslash and the quote in use
    are escaped with a backslash, newline, carriage return and tab are
    written [\n], [\r] and [\t], and the other control characters as
    [\x] and two hexadecimal digits.  This is Python's [repr] on ASCII
    strings ([ascii_text]); beyond them Python escapes part of the
    characters, which is not followed here.  [None] and integers are
    written as Python writes them; other values print as [...]. *)
Definition hex_digit (n : nat) : ascii :=
  nth n (list_ascii_of_string "0123456789abcdef") "0"%char.

Definition repr_char (quote c : ascii) : string :=
  let n := nat_of_ascii c in
  let backslash := ascii_of_nat 92 in
  if Ascii.eqb c backslash then String backslash (String backslash "")
  else if Ascii.eqb c quote then String backslash (String quote "")
  else if n =? 10 then "\n"
  else if n =? 13 then "\r"
  else if n =? 9 then "\t"
  else if (n <? 32) || (n =? 127) then
    "\x" ++ String (hex_digit (n / 16)) (String (hex_digit (n mod 16)) "")
  else String c "".

Fixpoint repr_chars (quote : ascii) (s : string) : string :=
  match s with
  | "" => ""
  | String c s' => repr_char quote c ++ repr_chars quote s'
  end.

Definition repr_str (s : string) : string :=
  let double := ascii_of_nat 34 in
  let quote :=
    if has_char "'" s && negb (has_char double s) then double else "'"%char in
  String quote (repr_chars quote s ++ String quote "").

Definition repr (v : pyval) : string :=
  match v with
  | VStr s => repr_str s
  | VNone => "None"
  | VInt z => pretty z
  | _ => "..."
  end.

(** A string of ASCII characters. *)
Definition ascii_text (s : string) : bool :=
  all_chars (fun c => nat_of_ascii c <? 128) s.

Section Lookup.
Context `{Pickle, Json, Dates, SqlExpr}.
Local Open Scope db_scope.

(** [execute] of a [SELECT] then [cursor.fetchone()]: the first matching
    row, converted, or [None]; no other row is converted. *)
Definition execute_SELECT_WHERE_fetchone (req : option (list string))
    (t : string) (expr : string) (args : list pyval)
    : M (option (list pyval)) :=
  record (SELECT_WHERE req t expr) ;;;
  tb <- get_table t ;;
  cols <- lift (result_columns tb req) ;;
  bound <- lift (bind_params args) ;;
  p <- lift (sql_where expr (map fst (columns tb)) bound) ;;
  match List.filter p (rows tb) with
  | [] => ret None
  | row :: _ => line <- lift (fetch_row cols row) ;; ret (Some line)
  end.

Definition get_record (table : string) (msg_id : pyval) : M pydict :=
  line <- execute_SELECT_WHERE_fetchone None table "msg_id==?" [msg_id] ;;
  match line with
  | None => raise (KeyError ("No such msg: " ++ repr msg_id))
  | Some line => ret (_list_to_dict line None)
  end.

Definition drop_record (table : string) (msg_id : pyval) : M unit :=
  execute_DELETE_WHERE table "msg_id==?" [msg_id].

End Lookup.

(** [s.replace(old, new)] for single characters. *)
Fixpoint replace_char (old new : ascii) (s : string) : string :=
  match s with
  | "" => ""
  | String c s' =>
      String (if Ascii.eqb c old then new else c) (replace_char old new s')
  end.

(** The table [__init__] settles on before [_init_db]: the configured
    one, or, when that is empty, one named after the session. *)
Definition init_table (table session : string) : string :=
  if String.eqb table "" then "_" ++ replace_char "-" "_" session else table.

(** What sqlite makes of the one [WHERE] expression this module writes
    itself, [msg_id==?]: the rows whose identifier equals the parameter. *)
Class SqlById `{SqlExpr} : Prop :=
  sql_where_msg_id : forall (names : list string) (v : sqlval) (idx : nat),
    index_of "msg_id" names = Some idx ->
    sql_where "msg_id==?" names [v] = Ok (fun row => sql_eq (cell idx row) v).

(** ** Vocabulary of the further properties *)

(** The number of occurrences of a character. *)
Fixpoint count_char (c : ascii) (s : string) : nat :=
  match s with
  | "" => 0
  | String a s' => (if Ascii.eqb a c then 1 else 0) + count_char c s'
  end.

(** The occurrences of a character in a list of strings. *)
Definition count_all (c : ascii) (l : list string) : nat :=
  fold_right (fun s n => count_char c s + n) 0 l.

(** The predicate of one field compared with a literal or [None]. *)
Definition literal_expr (item : string * pyval) : string :=
  if is_None (snd item) then fst item ++ " IS NULL" else fst item ++ " = ?".

Definition is_dict (v : pyval) : bool :=
  match v with VDict _ => true | _ => false end.

(** The identifiers of the rows, in order ([msg_id] is column 0). *)
Definition row_ids (rws : list (list sqlval)) : list sqlval := map (cell 0) rws.

(** No two rows share a non-NULL identifier. *)
Definition unique_ids (tb : sql_table) : Prop :=
  NoDup (filter (fun v => v <> SNull) (row_ids (rows tb))).

(** What a value is when it is read back from the store: an empty list
    was stored as NULL and comes back as [None]. *)
Definition read_back (v : pyval) : pyval :=
  match v with
  | VList [] => VNone
  | _ => v
  end.

(** Values whose way through the store does not leave this module and
    [pickle]: [None] in any column, a string in a [text] column, a list of
    [bytes] in a [bufs blob] column. *)
Definition storable (k : string) (v : pyval) : Prop :=
  v = VNone
  \/ (exists s, v = VStr s /\ lookup_str k _types = Some "text")
  \/ (exists bs, v = VList (map VBytes bs)
                 /\ lookup_str k _types = Some "bufs blob").

(** The bytes of a bytes-like block. *)
Definition block_bytes (v : pyval) : bytes :=
  match v with
  | VBytes b | VMemoryview b => b
  | _ => []
  end.

(** The keys of the records [find_records] returns for a projection
    without repeated names. *)
Definition record_keys (keys : option (list string)) : list string :=
  match keys with
  | None => _keys
  | Some [] => []
  | Some ks =>
      "msg_id" :: List.filter (fun k => negb (String.eqb k "msg_id")) ks
  end.

(** The columns of [SELECT *] on the store's table. *)
Definition all_columns : list (nat * string) :=
  imap (fun i col => (i, snd col)) created_columns.

(** The translator's running state holds as many [?] as parameters, and
    a [join] without [?]. *)
Definition balanced (st : render_state) : Prop :=
  count_all "?" (expressions st) = length (args st)
  /\ forall j, join_var st = Some j -> count_char "?" j = 0.

(** Two runs of the translator over the same items, the second from a
    state that extends the first. *)
Definition extends (pre_e : list string) (pre_a : list pyval)
    (s t : render_state) : Prop :=
  expressions t = (pre_e ++ expressions s)%list
  /\ args t = (pre_a ++ args s)%list
  /\ forall j, join_var s = Some j -> join_var t = Some j.

(** An action that leaves every table as it found it. *)
Definition read_only {A} (m : M A) : Prop :=
  forall c, tables (snd (m c)) = tables c.

(** The dates and times a [datetime] can hold: the proleptic Gregorian
    calendar of years 1 to 9999. *)
Definition is_leap (y : Z) : bool :=
  ((y mod 4 =? 0) && (negb (y mod 100 =? 0) || (y mod 400 =? 0)))%Z.

Definition days_in_month (y m : Z) : Z :=
  (if m =? 2 then (if is_leap y then 29 else 28)
   else if (m =? 4) || (m =? 6) || (m =? 9) || (m =? 11) then 30
   else 31)%Z.

Definition valid_datetime (dt : datetime) : Prop :=
  (1 <= year dt <= 9999 /\ 1 <= month dt <= 12
   /\ 1 <= day dt <= days_in_month (year dt) (month dt)
   /\ 0 <= hour dt < 24 /\ 0 <= minute dt < 60 /\ 0 <= second dt < 60
   /\ 0 <= microsecond dt < 1000000)%Z.

(** The days before the March-based year [y] in [days_from_civil], and
    the days of a year before its month [m]. *)
Definition year_days (y : Z) : Z :=
  (let era := y / 400 in
   let yoe := y - era * 400 in
   era * 146097 + yoe * 365 + yoe / 4 - yoe / 100)%Z.

Definition days_before_month (y m : Z) : Z :=
  (nth (Z.to_nat (m - 1)) [0; 31; 59; 90; 120; 151; 181; 212; 243; 273; 304; 334] 0
   + (if (2 <? m) && is_leap y then 1 else 0))%Z.

(** The order of two datetimes field by field, the date first. *)
Definition then_compare (o o' : comparison) : comparison :=
  match o with Eq => o' | Lt => Lt | Gt => Gt end.

Definition calendar_compare (a b : datetime) : comparison :=
  then_compare (year a ?= year b)%Z
  (then_compare (month a ?= month b)%Z
  (then_compare (day a ?= day b)%Z
  (then_compare (hour a ?= hour b)%Z
  (then_compare (minute a ?= minute b)%Z
  (then_compare (second a ?= second b)%Z
                (microsecond a ?= microsecond b)%Z))))).

(** ** A runtime that evaluates [msg_id==?] *)

Module RunById.

#[export] Instance sql : SqlExpr :=
  {| sql_where := fun expr names bound =>
       if String.eqb expr "msg_id==?" then
         match index_of "msg_id" names, bound with
         | Some idx, [v] => Ok (fun row => sql_eq (cell idx row) v)
         | _, _ => Raise (OperationalError "no such column")
         end
       else if String.eqb expr "" then Raise (OperationalError "syntax error")
       else Ok (fun _ => true) |}.

End RunById.

(** * Properties *)

(** Membership of a literal in a literal list. *)
Ltac in_list :=
  apply list_elem_of_In; simpl; repeat ((left; reflexivity) || right).

(** ** Dicts, lists and the connection monad *)

Lemma str_in_elem (key : string) (keys : list string) :
  str_in key keys = true <-> key ∈ keys.
Proof.
  unfold str_in. rewrite existsb_exists, list_elem_of_In. split.
  - intros (k & Hin & Heq). apply String.eqb_eq in Heq. by subst.
  - intros Hin. exists key. split; [done | apply String.eqb_refl].
Qed.

Lemma existsb_is_None (vs : list pyval) : VNone ∈ vs -> existsb is_None vs = true.
Proof.
  intros Hin. apply existsb_exists. exists VNone.
  split; [by apply list_elem_of_In | reflexivity].
Qed.

Lemma dict_get_set_eq (d : pydict) (key : string) (value : pyval) :
  dict_get (dict_set d key value) key = Some value.
Proof.
  induction d as [|[k v] d IH]; simpl.
  - by rewrite String.eqb_refl.
  - destruct (String.eqb k key) eqn:Hk; simpl; by rewrite Hk.
Qed.

Lemma dict_get_set_ne (d : pydict) (key key' : string) (value : pyval) :
  key <> key' -> dict_get (dict_set d key value) key' = dict_get d key'.
Proof.
  intros Hne. induction d as [|[k v] d IH]; simpl.
  - by apply String.eqb_neq in Hne as ->.
  - destruct (String.eqb k key) eqn:Hk; simpl.
    + apply String.eqb_eq in Hk as ->.
      by apply String.eqb_neq in Hne as ->.
    + by rewrite IH.
Qed.

Lemma dict_get_set (d : pydict) (key key' : string) (value v : pyval) :
  dict_get (dict_set d key value) key' = Some v ->
  v = value \/ dict_get d key' = Some v.
Proof.
  destruct (decide (key = key')) as [<-|Hne].
  - rewrite dict_get_set_eq. intros [= <-]. by left.
  - rewrite dict_get_set_ne by done. by right.
Qed.

Lemma dict_get_elem (d : pydict) (key : string) (v : pyval) :
  dict_get d key = Some v -> (key, v) ∈ d.
Proof.
  induction d as [|[k w] d IH]; simpl; [discriminate|].
  destruct (String.eqb k key) eqn:Hk.
  - apply String.eqb_eq in Hk as ->. intros [= ->]. apply elem_of_cons. by left.
  - intros Hd. apply elem_of_cons. right. by apply IH.
Qed.

Lemma dict_get_keys (d : pydict) (key : string) :
  key ∈ dict_keys d -> is_Some (dict_get d key).
Proof.
  induction d as [|[k w] d IH]; simpl; [by intros ?%elem_of_nil|].
  intros Hin. destruct (String.eqb k key) eqn:Hk; [eauto|].
  apply elem_of_cons in Hin as [->|Hin]; [|by apply IH].
  by rewrite String.eqb_refl in Hk.
Qed.

(** After [d.update(rec)], a value is one of [rec] or the one [d] had, and
    no key of [d] is lost. *)
Lemma dict_get_update (rec : pydict) : forall (d : pydict) (key : string) (v : pyval),
  dict_get (dict_update d rec) key = Some v ->
  v ∈ map snd rec \/ dict_get d key = Some v.
Proof.
  unfold dict_update.
  induction rec as [|[k w] rec IH]; intros d key v; cbn [fold_left]; [by right|].
  intros Hget. apply IH in Hget as [Hin | Hget].
  - left. simpl. apply elem_of_cons. by right.
  - apply dict_get_set in Hget as [-> | Hget]; [|by right].
    left. simpl. apply elem_of_cons. by left.
Qed.

Lemma dict_update_keeps (rec : pydict) : forall (d : pydict) (key : string),
  is_Some (dict_get d key) -> is_Some (dict_get (dict_update d rec) key).
Proof.
  unfold dict_update.
  induction rec as [|[k w] rec IH]; intros d key Hd; cbn [fold_left]; [done|].
  apply IH. cbn [fst snd].
  destruct (decide (k = key)) as [->|Hne].
  - rewrite dict_get_set_eq. eauto.
  - by rewrite dict_get_set_ne.
Qed.

Lemma dict_set_head (k : string) (v : pyval) (d : pydict) (key : string)
    (value : pyval) :
  exists v' d', dict_set ((k, v) :: d) key value = (k, v') :: d'.
Proof. simpl. destruct (String.eqb k key); eauto. Qed.

Lemma dict_set_fold_head {A} (f : A -> string * pyval) (l : list A) :
  forall (k : string) (v : pyval) (d : pydict),
  exists v' d',
    fold_left (fun d x => dict_set d (fst (f x)) (snd (f x))) l ((k, v) :: d)
    = (k, v') :: d'.
Proof.
  induction l as [|x l IH]; intros k v d; cbn [fold_left]; [eauto|].
  destruct (dict_set_head k v d (fst (f x)) (snd (f x))) as (v' & d' & ->).
  apply IH.
Qed.

Lemma map_result_Forall {A B} (f : A -> result B) (P : B -> Prop) (l : list A) :
  (forall x, x ∈ l -> exists y, f x = Ok y /\ P y) ->
  exists l', map_result f l = Ok l' /\ Forall P l' /\ length l' = length l.
Proof.
  induction l as [|x l IH]; intros Hf; simpl.
  - exists []. by repeat split.
  - destruct (Hf x) as (y & -> & Hy); [apply elem_of_cons; by left|].
    destruct IH as (l' & -> & Hl' & Hlen).
    { intros z Hz. apply Hf, elem_of_cons. by right. }
    exists (y :: l'). simpl. repeat split; [by constructor | by rewrite Hlen].
Qed.

Lemma map_result_app {A B} (f : A -> result B) (l1 l2 : list A) (r1 r2 : list B) :
  map_result f l1 = Ok r1 -> map_result f l2 = Ok r2 ->
  map_result f (l1 ++ l2)%list = Ok (r1 ++ r2)%list.
Proof.
  revert r1. induction l1 as [|x l1 IH]; intros r1; simpl.
  - by intros [= <-].
  - destruct (f x) as [y|e]; [|discriminate]. simpl.
    destruct (map_result f l1) as [ys|e]; [|discriminate]. simpl.
    intros [= <-] H2. by rewrite (IH ys eq_refl H2).
Qed.

Lemma map_result_tobytes (b : list bytes) :
  map_result tobytes (map VBytes b) = Ok b.
Proof. induction b as [|x b IH]; simpl; [|rewrite IH]; reflexivity. Qed.

Lemma elem_of_insert_sorted {A} (leb : A -> A -> bool) (x y : A) (l : list A) :
  y ∈ insert_sorted leb x l <-> y = x \/ y ∈ l.
Proof.
  induction l as [|z l IH]; simpl.
  - rewrite list_elem_of_singleton, elem_of_nil. tauto.
  - destruct (leb x z); rewrite !elem_of_cons; [tauto|]. rewrite IH. tauto.
Qed.

Lemma elem_of_sorted {A} (leb : A -> A -> bool) (y : A) (l : list A) :
  y ∈ sorted leb l <-> y ∈ l.
Proof.
  unfold sorted. induction l as [|x l IH]; simpl; [done|].
  rewrite elem_of_insert_sorted, elem_of_cons, IH. tauto.
Qed.

Lemma length_insert_sorted {A} (leb : A -> A -> bool) (x : A) (l : list A) :
  length (insert_sorted leb x l) = S (length l).
Proof.
  induction l as [|z l IH]; simpl; [done|].
  destruct (leb x z); simpl; by rewrite ?IH.
Qed.

Lemma length_sorted {A} (leb : A -> A -> bool) (l : list A) :
  length (sorted leb l) = length l.
Proof.
  unfold sorted. induction l as [|x l IH]; simpl; [done|].
  by rewrite length_insert_sorted, IH.
Qed.

Lemma insert_sorted_perm {A} (leb : A -> A -> bool) (x : A) (l : list A) :
  insert_sorted leb x l ≡ₚ x :: l.
Proof.
  induction l as [|y l IH]; simpl; [done|].
  destruct (leb x y); [done|]. rewrite IH. apply Permutation_swap.
Qed.

(** [ORDER BY] keeps every row. *)
Lemma sorted_perm {A} (leb : A -> A -> bool) (l : list A) : sorted leb l ≡ₚ l.
Proof.
  unfold sorted. induction l as [|x l IH]; simpl; [done|].
  by rewrite insert_sorted_perm, IH.
Qed.

Lemma bind_Ok {A B} (m : M A) (k : A -> M B) (c c' : connection) (b : B) :
  bind m k c = (Ok b, c') ->
  exists a c1, m c = (Ok a, c1) /\ k a c1 = (Ok b, c').
Proof.
  unfold bind. destruct (m c) as [[a|e] c1]; [eauto | discriminate].
Qed.

(** ** The buffer-list codec *)

(** C7. Decoding the encoding of a sequence [b] of byte blocks gives back
    [b]: the same blocks, in the same order.  A null and an empty sequence
    both encode to [None] (absent), and decoding [None] gives the empty
    list, which is not [None]. *)
Theorem bufs_roundtrip `{Pickle, !PickleRoundTrip} (b : list bytes) :
  rbind (_adapt_bufs (VList (map VBytes b))) _convert_bufs
    = Ok (VList (map VBytes b))
  /\ _adapt_bufs VNone = Ok VNone
  /\ _adapt_bufs (VList []) = Ok VNone
  /\ _convert_bufs VNone = Ok (VList [])
  /\ VList [] <> VNone.
Proof.
  repeat split; try reflexivity; try discriminate.
  destruct b as [|x b]; [reflexivity|].
  unfold _adapt_bufs.
  change (truthy (VList (map VBytes (x :: b)))) with true.
  cbn [getitem0 map rbind is_bytes_like iterate].
  change (VBytes x :: map VBytes b) with (map VBytes (x :: b)).
  rewrite map_result_tobytes. cbn [rbind _convert_bufs to_bytes].
  apply pickle_loads_dumps.
Qed.

(** ** The filter translator *)

Lemma illegal_keys_elem (check : pydict) (k : string) :
  k ∈ illegal_keys check <-> k ∈ dict_keys check /\ k ∉ _keys.
Proof.
  unfold illegal_keys.
  assert ("buffers" ∈ _keys) by in_list.
  assert ("result_buffers" ∈ _keys) by in_list.
  rewrite !elem_of_difference, !elem_of_list_to_set.
  split; [tauto|]. intros [Hin Hnot]. repeat split; auto.
  intros [Hb|Hb]%elem_of_union; apply elem_of_singleton in Hb; by subst.
Qed.

Lemma illegal_keys_empty (check : pydict) :
  (forall k, k ∈ dict_keys check -> k ∈ _keys) -> illegal_keys check = ∅.
Proof.
  intros Hk. apply set_eq. intros k. rewrite illegal_keys_elem.
  split; [intros [Hin Hnot]; destruct Hnot; auto | intros []%not_elem_of_empty].
Qed.

Lemma illegal_keys_nonempty (check : pydict) (k : string) :
  k ∈ dict_keys check -> k ∉ _keys -> illegal_keys check <> ∅.
Proof.
  intros Hin Hnot Hempty.
  assert (k ∈ illegal_keys check) as Hk by (apply illegal_keys_elem; auto).
  rewrite Hempty in Hk. by apply not_elem_of_empty in Hk.
Qed.

Lemma render_expression_legal (check : pydict) :
  (forall k, k ∈ dict_keys check -> k ∈ _keys) ->
  _render_expression check
  = rbind (render_items (RenderState [] [] None) check)
          (fun st => Ok (join " AND " (expressions st), args st)).
Proof.
  intros Hk. unfold _render_expression.
  rewrite (illegal_keys_empty check Hk).
  destruct (decide (∅ = ∅)) as [_|Hne]; [reflexivity | by destruct Hne].
Qed.

Lemma render_expression_illegal (check : pydict) (k : string) :
  k ∈ dict_keys check -> k ∉ _keys ->
  _render_expression check
  = Raise (KeyError_illegal_testing_keys (illegal_keys check)).
Proof.
  intros Hin Hnot. unfold _render_expression.
  destruct (decide (illegal_keys check = ∅)) as [He|_]; [|reflexivity].
  by destruct (illegal_keys_nonempty check k Hin Hnot).
Qed.

(** C1, as stated, fails: the filter [{'buffers': b'a'}] names a
    buffer-list field as an equality target and is translated, not
    rejected. *)
Lemma buffer_field_not_rejected :
  names_buffer_field [("buffers", VBytes [Byte.x61])]
  /\ _render_expression [("buffers", VBytes [Byte.x61])]
     = Ok ("buffers = ?", [VBytes [Byte.x61]]).
Proof.
  split.
  - exists "buffers". split; in_list.
  - vm_compute. reflexivity.
Qed.

(** C1, amended. A buffer-list field is a field of the catalog: the key
    check never counts it as illegal, whatever else the filter names, and
    as an equality target with a non-null literal it is translated to
    [f = ?] with the literal as the one bound parameter. *)
Theorem buffer_field_filterable (f : string) :
  f ∈ ["buffers"; "result_buffers"] ->
  (forall check, f ∉ illegal_keys check)
  /\ (forall v, is_literal v = true ->
        _render_expression [(f, v)] = Ok (f ++ " = ?", [v])).
Proof.
  intros Hf.
  assert (f ∈ _keys) as Hkeys.
  { apply list_elem_of_In in Hf. destruct Hf as [<-|[<-|[]]]; in_list. }
  split.
  - intros check Hin. apply illegal_keys_elem in Hin. tauto.
  - intros v Hv. rewrite render_expression_legal.
    + destruct v; try discriminate Hv; reflexivity.
    + intros k Hk. unfold dict_keys in Hk. simpl in Hk.
      apply list_elem_of_singleton in Hk. by subst.
Qed.

(** The translations of the specification's examples. *)
Example render_literal :
  _render_expression [("queue", VInt 5)] = Ok ("queue = ?", [VInt 5]).
Proof. vm_compute. reflexivity. Qed.

Example render_null :
  _render_expression [("queue", VNone)] = Ok ("queue IS NULL", []).
Proof. vm_compute. reflexivity. Qed.

Example render_in :
  _render_expression [("queue", VDict [("$in", VList [VInt 1; VInt 2; VInt 3])])]
  = Ok ("( queue = ? OR queue = ? OR queue = ? )", [VInt 1; VInt 2; VInt 3]).
Proof. vm_compute. reflexivity. Qed.

Example render_in_null :
  _render_expression [("queue", VDict [("$in", VList [VInt 1; VNone])])]
  = Raise (ValueError_null_values "$in").
Proof. vm_compute. reflexivity. Qed.

Example render_two_fields :
  _render_expression
    [("queue", VDict [("$ne", VNone)]); ("started", VDict [("$gte", VInt 3)])]
  = Ok ("queue IS NOT NULL AND started >= ?", [VInt 3]).
Proof. vm_compute. reflexivity. Qed.

(** A bare [None] is not a list: under [$in] it is the null test of [=]. *)
Example render_in_bare_None :
  _render_expression [("queue", VDict [("$in", VNone)])]
  = Ok ("queue IS NULL", []).
Proof. vm_compute. reflexivity. Qed.

(** [join] is bound by the first tuple operator only: a list under a
    plain operator before any [$in]/[$nin] finds it unbound. *)
Example render_list_without_join :
  _render_expression [("queue", VDict [("$lt", VList [VInt 1; VInt 2])])]
  = Raise (UnboundLocalError "join").
Proof. vm_compute. reflexivity. Qed.

(** C4. For a field [f] of the catalog and a list [v] without [None],
    [{f: {'$in': v}}] is translated to [length v] copies of [f = ?] joined
    by [ OR ], and [{f: {'$nin': v}}] to [length v] copies of [f != ?]
    joined by [ AND ]; the bound parameters are [v] itself, in order. *)
Theorem render_membership (f : string) (v : list pyval) :
  f ∈ _keys ->
  existsb is_None v = false ->
  _render_expression [(f, VDict [("$in", VList v)])]
    = Ok ("( " ++ join " OR " (repeat (f ++ " = ?") (length v)) ++ " )", v)
  /\ _render_expression [(f, VDict [("$nin", VList v)])]
    = Ok ("( " ++ join " AND " (repeat (f ++ " != ?") (length v)) ++ " )", v).
Proof.
  intros Hf Hv.
  assert (forall sub, forall k, k ∈ dict_keys [(f, sub)] -> k ∈ _keys) as Hk.
  { intros sub k Hin. unfold dict_keys in Hin. simpl in Hin.
    apply list_elem_of_singleton in Hin. by subst. }
  split; rewrite render_expression_legal by apply Hk;
    cbn -[join repeat existsb]; rewrite Hv; reflexivity.
Qed.

(** ** Validation comes before the engine *)

Lemma render_test_bad (name : string) (st : render_state) (test : string)
    (value : pyval) :
  bad_test test value -> is_Raise (render_test name st test value).
Proof.
  intros [Hop | (Htest & vs & Hseq & Hnone)]; unfold render_test.
  - by rewrite Hop.
  - apply existsb_is_None in Hnone.
    assert (is_None value = false) as Hv by (by destruct value).
    apply list_elem_of_In in Htest.
    destruct Htest as [<-|[<-|[<-|[<-|[]]]]]; cbn -[existsb];
      rewrite Hv, Hseq, Hnone; exact I.
Qed.

Lemma render_tests_bad (name : string) (sub : pydict) : forall st test value,
  (test, value) ∈ sub -> bad_test test value ->
  is_Raise (render_tests name st sub).
Proof.
  induction sub as [|[t v] sub IH]; intros st test value Hin Hbad.
  - by apply elem_of_nil in Hin.
  - apply elem_of_cons in Hin. simpl.
    destruct Hin as [Heq | Hin].
    + injection Heq as <- <-.
      pose proof (render_test_bad name st test value Hbad) as Hr.
      by destruct (render_test name st test value).
    + destruct (render_test name st t v) as [st'|e]; simpl; [|exact I].
      by apply (IH st' test value).
Qed.

Lemma render_items_bad (check : pydict) : forall st,
  has_bad_test check -> is_Raise (render_items st check).
Proof.
  induction check as [|[n s] check IH];
    intros st (name & sub & test & value & Hin & Hsub & Hbad).
  - by apply elem_of_nil in Hin.
  - apply elem_of_cons in Hin. simpl.
    destruct Hin as [Heq | Hin].
    + injection Heq as <- <-. simpl.
      pose proof (render_tests_bad name sub st test value Hsub Hbad) as Hr.
      by destruct (render_tests name st sub).
    + destruct (render_item st n s) as [st'|e]; simpl; [|exact I].
      apply IH. by exists name, sub, test, value.
Qed.

Lemma render_expression_invalid (check : pydict) :
  unknown_field check \/ has_bad_test check ->
  is_Raise (_render_expression check).
Proof.
  intros Hbad. unfold _render_expression.
  destruct (decide (illegal_keys check = ∅)) as [Hlegal|_]; [|exact I].
  destruct Hbad as [(k & Hin & Hnot) | Hbad].
  - by destruct (illegal_keys_nonempty check k Hin Hnot).
  - pose proof (render_items_bad check (RenderState [] [] None) Hbad) as Hr.
    by destruct (render_items _ check).
Qed.

Lemma plain_operator_lookup (test op : string) :
  lookup_str test operators = Some (OpStr op) -> plain_operator test.
Proof.
  unfold operators, plain_operator. cbn [lookup_str].
  destruct (String.eqb_spec "$lt" test) as [<-|_]; [intros _; in_list|].
  destruct (String.eqb_spec "$gt" test) as [<-|_]; [intros _; in_list|].
  destruct (String.eqb_spec "$eq" test) as [<-|_]; [intros _; in_list|].
  destruct (String.eqb_spec "$ne" test) as [<-|_]; [intros _; in_list|].
  destruct (String.eqb_spec "$lte" test) as [<-|_]; [intros _; in_list|].
  destruct (String.eqb_spec "$gte" test) as [<-|_]; [intros _; in_list|].
  destruct (String.eqb_spec "$in" test) as [<-|_]; [discriminate|].
  destruct (String.eqb_spec "$nin" test) as [<-|_]; discriminate.
Qed.

(** What a test raises is an exception of validation, unless it is the
    unbound [join], read for a list or tuple under a comparison
    operator. *)
Lemma render_test_raises (name : string) (st : render_state) (test : string)
    (value : pyval) (e : exn) :
  render_test name st test value = Raise e ->
  raised_by_validation e
  \/ (plain_operator test /\ is_Some (as_sequence value)).
Proof.
  unfold render_test.
  destruct (lookup_str test operators) as [[op|op jn]|] eqn:Hop.
  - intros Hr. right. split; [by apply (plain_operator_lookup test op)|].
    destruct (as_sequence value); [eauto|]. exfalso. revert Hr.
    repeat case_match; discriminate.
  - intros Hr. left. revert Hr.
    repeat case_match; intros; simplify_eq; exact I.
  - intros [= <-]. left. exact I.
Qed.

Lemma render_tests_raises (name : string) (sub : pydict) : forall st e,
  render_tests name st sub = Raise e ->
  raised_by_validation e
  \/ exists test value,
       (test, value) ∈ sub /\ plain_operator test /\ is_Some (as_sequence value).
Proof.
  induction sub as [|[t v] sub IH]; intros st e; simpl; [discriminate|].
  destruct (render_test name st t v) as [st'|e'] eqn:Ht; simpl.
  - intros Hr. destruct (IH _ _ Hr) as [Hv|(test & value & Hin & Hp)]; [by left|].
    right. exists test, value. split; [by apply elem_of_cons; right | done].
  - intros [= <-]. destruct (render_test_raises _ _ _ _ _ Ht) as [Hv|Hp]; [by left|].
    right. exists t, v. split; [apply elem_of_cons; by left | done].
Qed.

Lemma render_items_raises (check : pydict) : forall st e,
  render_items st check = Raise e ->
  raised_by_validation e \/ list_comparison check.
Proof.
  induction check as [|[n s] check IH]; intros st e; simpl; [discriminate|].
  destruct (render_item st n s) as [st'|e'] eqn:Hi; simpl.
  - intros Hr. destruct (IH _ _ Hr) as [Hv|(name & sub & test & value & Hin & Hp)];
      [by left|].
    right. exists name, sub, test, value.
    split; [by apply elem_of_cons; right | done].
  - intros [= <-]. destruct s; try discriminate Hi.
    destruct (render_tests_raises _ _ _ _ Hi) as [Hv|(test & value & Hin & Hp)];
      [by left|].
    right. exists n, d, test, value. split; [apply elem_of_cons; by left | done].
Qed.

(** Whatever [_render_expression] raises is an exception of validation,
    unless the filter has a list or tuple under a comparison operator. *)
Lemma render_expression_raises (check : pydict) (e : exn) :
  _render_expression check = Raise e ->
  raised_by_validation e \/ list_comparison check.
Proof.
  unfold _render_expression.
  destruct (decide (illegal_keys check = ∅)) as [_|_];
    [|intros [= <-]; by left].
  destruct (render_items _ check) as [st|e'] eqn:Hr; simpl; [discriminate|].
  intros [= <-]. by apply render_items_raises in Hr.
Qed.

Lemma bad_keys_nonempty (ks : list string) (k : string) :
  k ∈ ks -> k ∉ _keys ->
  List.filter (fun key => negb (str_in key _keys)) ks <> [].
Proof.
  intros Hin Hnot Hnil.
  assert (In k (List.filter (fun key => negb (str_in key _keys)) ks)) as Hk.
  { apply filter_In. split; [by apply list_elem_of_In|].
    apply negb_true_iff, not_true_is_false. by rewrite str_in_elem. }
  by rewrite Hnil in Hk.
Qed.

Lemma bad_keys_empty (ks : list string) :
  (forall k, k ∈ ks -> k ∈ _keys) ->
  List.filter (fun key => negb (str_in key _keys)) ks = [].
Proof.
  intros Hks. induction ks as [|k ks IH]; [done|]. cbn [List.filter].
  assert (str_in k _keys = true) as ->
    by (apply str_in_elem, Hks, elem_of_cons; by left).
  cbn [negb]. apply IH. intros k' Hk'. apply Hks, elem_of_cons. by right.
Qed.

Section Validation.
Context `{Pickle, Json, Dates, SqlExpr}.

Lemma find_records_bad_keys (table : string) (check : pydict)
    (ks : list string) (k : string) (c : connection) :
  k ∈ ks -> k ∉ _keys ->
  find_records table check (Some ks) c
  = (Raise (KeyError_bad_record_keys
              (List.filter (fun key => negb (str_in key _keys)) ks)), c).
Proof.
  intros Hin Hnot.
  pose proof (bad_keys_nonempty ks k Hin Hnot) as Hbad.
  unfold find_records, bind. destruct ks as [|k0 ks]; [by apply elem_of_nil in Hin|].
  cbn [keys_given default from_option id] in *.
  destruct (List.filter _ (k0 :: ks)) as [|b bad]; [by destruct Hbad|].
  reflexivity.
Qed.

(** With a projection that passes, [find_records] raises what the
    translator raises, and has executed nothing. *)
Lemma find_records_invalid (table : string) (check : pydict)
    (keys : option (list string)) (e : exn) (c : connection) :
  ~ unknown_projection keys ->
  _render_expression check = Raise e ->
  find_records table check keys c = (Raise e, c).
Proof.
  intros Hproj He. unfold find_records, bind, lift. rewrite He.
  destruct (keys_given keys) eqn:Hgiven; [|reflexivity].
  rewrite bad_keys_empty; [reflexivity|].
  intros k Hk. destruct (decide (k ∈ _keys)) as [|Hnot]; [done|].
  destruct Hproj. destruct keys as [ks|]; [|discriminate Hgiven].
  by exists ks, k.
Qed.

(** C5, amended.  [find_records] and [drop_matching_records] raise before
    any statement is executed, and leave the connection as it was given,
    in each of these cases.  A projection with a name outside the catalog:
    [find_records] raises the [KeyError] of the bad record keys.  A filter
    with a key outside the catalog: both raise the [KeyError] of the
    illegal keys ([find_records] when its projection passes).  A filter
    with an operator outside [operators], or with [None] in a list or
    tuple under [$eq], [$ne], [$in] or [$nin]: both raise, and what they
    raise is a [KeyError] or the [ValueError] of validation unless the
    filter also has a list or tuple under one of the six comparison
    operators, where the translator may read its unbound [join]. *)
Theorem validation_before_engine (table : string) (check : pydict)
    (keys : option (list string)) (c : connection) :
  (unknown_projection keys ->
   exists bad,
     bad <> []
     /\ find_records table check keys c
        = (Raise (KeyError_bad_record_keys bad), c))
  /\ (unknown_field check ->
      drop_matching_records table check c
      = (Raise (KeyError_illegal_testing_keys (illegal_keys check)), c)
      /\ (~ unknown_projection keys ->
          find_records table check keys c
          = (Raise (KeyError_illegal_testing_keys (illegal_keys check)), c)))
  /\ (has_bad_test check ->
      exists e e',
        drop_matching_records table check c = (Raise e, c)
        /\ find_records table check keys c = (Raise e', c)
        /\ (~ list_comparison check ->
            raised_by_validation e /\ raised_by_validation e')).
Proof.
  split; [|split].
  - intros (ks & k & -> & Hin & Hnot). eexists. split.
    + by apply (bad_keys_nonempty ks k).
    + by apply (find_records_bad_keys table check ks k).
  - intros (k & Hin & Hnot).
    pose proof (render_expression_illegal check k Hin Hnot) as He.
    split.
    + unfold drop_matching_records, bind, lift. by rewrite He.
    + intros Hproj. by apply find_records_invalid.
  - intros Hbad.
    assert (is_Raise (_render_expression check)) as Hr
      by (apply render_expression_invalid; tauto).
    destruct (_render_expression check) as [ea|e] eqn:He; [destruct Hr|].
    exists e.
    assert (drop_matching_records table check c = (Raise e, c)) as Hdrop
      by (unfold drop_matching_records, bind, lift; by rewrite He).
    assert (~ list_comparison check -> raised_by_validation e) as Hvalid.
    { intros Hnot. by destruct (render_expression_raises check e He). }
    destruct keys as [ks|].
    2:{ exists e. split; [done|]. split; [|by auto].
        apply find_records_invalid; [|done]. by intros (ks & k & [=] & _). }
    destruct (List.filter (fun key => negb (str_in key _keys)) ks)
      as [|b bad] eqn:Hfilter.
    + exists e. split; [done|]. split; [|by auto].
      apply find_records_invalid; [|done].
      intros (ks' & k & [= <-] & Hin & Hnot).
      by destruct (bad_keys_nonempty ks k Hin Hnot).
    + exists (KeyError_bad_record_keys (b :: bad)). split; [done|]. split.
      * assert (exists k, k ∈ ks /\ k ∉ _keys) as (k & Hin & Hnot).
        { assert (In b (List.filter (fun key => negb (str_in key _keys)) ks))
            as Hb by (rewrite Hfilter; by left).
          apply filter_In in Hb as [Hin Hb]. exists b.
          split; [by apply list_elem_of_In|].
          apply negb_true_iff in Hb. intros Hk%str_in_elem. congruence. }
        rewrite <- Hfilter. by apply (find_records_bad_keys table check ks k).
      * intros Hnot. split; [by apply Hvalid | exact I].
Qed.

End Validation.

(** ** Projections *)

Section Projection.
Context `{Pickle, Json, Dates, SqlExpr}.

Lemma list_to_dict_head (line : list pyval) (k0 : string) (ks : list string) :
  exists v d, _list_to_dict line (Some (k0 :: ks)) = (k0, v) :: d.
Proof.
  unfold _list_to_dict, _defaults. cbn [fold_left dict_set].
  destruct (dict_set_fold_head (fun key => (key, VNone)) ks k0 VNone [])
    as (v & d & Hd).
  cbn [fst snd] in Hd. rewrite Hd.
  apply (dict_set_fold_head (fun kv => kv)).
Qed.

(** C9. With a non-empty projection [keys], every record [find_records]
    returns has [msg_id] as its first key, wherever [keys] had it or not;
    and when [keys] holds a name outside the catalog, [find_records]
    raises [KeyError] with the connection untouched: no statement was
    executed. *)
Theorem find_records_projection (table : string) (check : pydict)
    (keys : list string) (c : connection) :
  keys <> [] ->
  (forall recs c',
     find_records table check (Some keys) c = (Ok recs, c') ->
     Forall (fun rec => exists v rest, rec = ("msg_id", v) :: rest) recs)
  /\ ((exists k, k ∈ keys /\ k ∉ _keys) ->
      exists bad_keys,
        find_records table check (Some keys) c
        = (Raise (KeyError_bad_record_keys bad_keys), c)).
Proof.
  intros Hne. split.
  - intros recs c' Hfind. unfold find_records in Hfind.
    destruct keys as [|k0 ks]; [by destruct Hne|].
    cbn [keys_given] in Hfind.
    apply bind_Ok in Hfind as (_ & c1 & _ & Hfind).
    apply bind_Ok in Hfind as (ea & c2 & _ & Hfind).
    apply bind_Ok in Hfind as (matches & c3 & _ & Hfind).
    unfold ret in Hfind. injection Hfind as <- _.
    apply Forall_map, Forall_forall. intros line _.
    apply list_to_dict_head.
  - intros (k & Hin & Hnot). eexists.
    by apply (find_records_bad_keys table check keys k).
Qed.

End Projection.

(** ** Records in the store *)

Section Store.
Context `{Pickle, Json, Dates, SqlExpr}.

Lemma defaults_get (key : string) :
  key ∈ _keys -> dict_get (_defaults None) key = Some VNone.
Proof.
  intros Hin. apply list_elem_of_In in Hin. simpl in Hin.
  repeat (destruct Hin as [<-|Hin]; [reflexivity|]). destruct Hin.
Qed.

(** The line [add_record] inserts: the identifier, then for each other
    column the value [rec] gives it, or [None]. *)
Lemma add_record_line (msg_id : pyval) (rec : pydict) :
  exists line,
    _dict_to_list (dict_set (dict_update (_defaults None) rec) "msg_id" msg_id)
    = Ok (msg_id :: line)
    /\ Forall (fun v => v = VNone \/ v ∈ map snd rec) line
    /\ length line = 21.
Proof.
  unfold _dict_to_list.
  change _keys with ("msg_id" :: tl _keys). cbn [map_result].
  unfold getitem at 1. rewrite dict_get_set_eq. cbn [rbind].
  destruct (map_result_Forall
              (getitem (dict_set (dict_update (_defaults None) rec) "msg_id" msg_id))
              (fun v => v = VNone \/ v ∈ map snd rec) (tl _keys))
    as (line & -> & Hline & Hlen).
  - intros key Hkey.
    assert (key ∈ _keys) as Hin by (apply elem_of_cons; by right).
    assert ("msg_id" <> key) as Hne.
    { intros <-. apply list_elem_of_In in Hkey. simpl in Hkey.
      repeat (destruct Hkey as [Hkey|Hkey]; [discriminate Hkey|]). destruct Hkey. }
    unfold getitem. rewrite dict_get_set_ne by done.
    destruct (dict_update_keeps rec (_defaults None) key) as [v Hv].
    { rewrite defaults_get by done. eauto. }
    rewrite Hv. exists v. split; [done|].
    apply dict_get_update in Hv as [Hv|Hv]; [by right|].
    rewrite defaults_get in Hv by done. left. congruence.
  - exists line. by repeat split.
Qed.

Lemma bind_params_bindable (line : list pyval) :
  Forall bindable line -> exists row, bind_params line = Ok row.
Proof.
  intros Hline.
  destruct (map_result_Forall bind_param (fun _ => True) line) as (row & Hrow & _).
  - intros v Hv. rewrite Forall_forall in Hline.
    destruct (Hline v Hv) as [s Hs]. eauto.
  - eauto.
Qed.

(** C6. In a store whose table is the one [_init_db] creates, adding a
    record under an identifier that is already stored raises and leaves
    every table as it was: nothing is written.  When the values of [rec]
    can be bound at all, the exception is sqlite's [IntegrityError]. *)
Theorem add_record_duplicate (table id : string) (rec : pydict)
    (c : connection) (tb : sql_table) :
  store_table c table tb ->
  present tb id ->
  exists e c',
    add_record table (VStr id) rec c = (Raise e, c')
    /\ tables c' = tables c
    /\ (Forall (fun kv => bindable (snd kv)) rec -> e = IntegrityError).
Proof.
  intros (Htb & Hcols & Hpk) (row0 & Hrow0 & Hid).
  unfold add_record.
  destruct (add_record_line (VStr id) rec) as (line & Hline & Hvals & Hlen).
  unfold bind at 1, lift at 1. rewrite Hline.
  unfold execute_INSERT_INTO, bind, record, get_table, lift, raise.
  cbn [tables]. rewrite Htb, Hcols. cbn [length]. rewrite Hlen.
  cbn [Nat.eqb length created_columns negb].
  unfold bind_params. cbn [map_result bind_param rbind].
  destruct (map_result bind_param line) as [row|e] eqn:Hbind; cbn [rbind].
  - assert (pk_conflict (pk_index tb) (SText id :: row) (rows tb) = true) as ->.
    { unfold pk_index. rewrite Hpk, Hcols. cbn [pk_conflict].
      change (index_of "msg_id" (map fst created_columns)) with (Some 0).
      cbn iota beta. apply existsb_exists. exists row0.
      split; [by apply list_elem_of_In|].
      rewrite Hid. unfold cell. simpl. by apply bool_decide_eq_true. }
    eexists _, _. by repeat split.
  - eexists _, _. repeat split. intros Hrec. exfalso.
    destruct (bind_params_bindable line) as [row Hrow].
    + eapply Forall_impl; [exact Hvals|]. intros v [-> | Hv].
      * by exists SNull.
      * apply list_elem_of_fmap in Hv as ([k w] & -> & Hkw).
        rewrite Forall_forall in Hrec. by apply (Hrec (k, w)).
    + unfold bind_params in Hrow. congruence.
Qed.

Lemma update_rows_no_match (pki : option nat) (matches : list sqlval -> bool)
    (change : list sqlval -> list sqlval) (rest : list (list sqlval)) :
  forall done,
  (forall r, r ∈ rest -> matches r = false) ->
  update_rows pki matches change done rest = Ok (done ++ rest)%list.
Proof.
  induction rest as [|r rest IH]; intros done Hno; simpl.
  - by rewrite app_nil_r.
  - rewrite (Hno r) by (apply elem_of_cons; by left).
    rewrite IH; [by rewrite <- app_assoc|].
    intros r' Hr'. apply Hno, elem_of_cons. by right.
Qed.

Lemma sql_eq_false (a b : sqlval) : a <> b -> sql_eq a b = false.
Proof.
  intros Hne. unfold sql_eq. destruct a; [done| | |];
    by apply bool_decide_eq_false.
Qed.

(** C10, amended. In a store whose table has the catalog's columns,
    updating a record that is not stored, with a non-empty mapping whose
    keys are column names and whose values can be bound, raises nothing
    and leaves every table as it was. *)
Theorem update_record_absent (table id : string) (rec : pydict)
    (c : connection) (tb : sql_table) :
  tables c !! table = Some tb ->
  columns tb = created_columns ->
  (forall row, row ∈ rows tb -> cell 0 row <> SText id) ->
  rec <> [] ->
  (forall k, k ∈ dict_keys rec -> k ∈ _keys) ->
  Forall (fun kv => bindable (snd kv)) rec ->
  exists c',
    update_record table (VStr id) rec c = (Ok tt, c')
    /\ tables c' = tables c.
Proof.
  intros Htb Hcols Habsent Hne Hkeys Hvals.
  unfold update_record.
  set (keys := sorted String.leb (dict_keys rec)).
  assert (forall k, k ∈ keys -> k ∈ dict_keys rec) as Hsub
    by (intros k; apply elem_of_sorted).
  destruct (map_result_Forall (getitem rec) bindable keys)
    as (values & Hvalues & Hbindable & Hlen).
  { intros key Hkey. apply Hsub in Hkey.
    destruct (dict_get_keys rec key Hkey) as [v Hv].
    unfold getitem. rewrite Hv. exists v. split; [done|].
    rewrite Forall_forall in Hvals.
    by apply (Hvals (key, v)), dict_get_elem. }
  destruct (bind_params_bindable values Hbindable) as [bound Hbound].
  assert (bind_params (values ++ [VStr id])%list = Ok (bound ++ [SText id])%list)
    as Hparams by (by apply map_result_app).
  unfold bind at 1, lift at 1. rewrite Hvalues.
  unfold execute_UPDATE_SET, bind, record, get_table, lift, raise, put_table.
  cbn [tables]. rewrite Htb, Hcols.
  destruct keys as [|k0 ks] eqn:Hk.
  { destruct rec; [by destruct Hne|].
    assert (length keys = length (dict_keys (p :: rec))) as Hl
      by apply length_sorted.
    by rewrite Hk in Hl. }
  assert (forallb (fun key => str_in key (map fst created_columns)) (k0 :: ks)
          = true) as ->.
  { apply forallb_forall. intros key Hkey. apply list_elem_of_In in Hkey.
    apply str_in_elem. by apply Hkeys, Hsub. }
  change (index_of "msg_id" (map fst created_columns)) with (Some 0).
  cbn [negb]. rewrite length_app, Hlen. cbn [length].
  rewrite Nat.add_1_r, Nat.eqb_refl. cbn [negb].
  rewrite Hparams. rewrite last_last.
  rewrite update_rows_no_match.
  - cbn [app]. eexists. split; [reflexivity|]. cbn [tables].
    apply insert_id. rewrite Htb, <- Hcols. by destruct tb.
  - intros r Hr. by apply sql_eq_false, Habsent.
Qed.

End Store.

(** ** The schema check and the rename loop *)

Lemma created_columns_expected : created_columns = expected_columns.
Proof. reflexivity. Qed.

Lemma NoDup_keys : NoDup _keys.
Proof. apply (bool_decide_unpack _). vm_compute. exact I. Qed.

Lemma types_fold_notin (lines : list (string * string)) :
  forall (m : gmap string string) (k : string),
  k ∉ map fst lines ->
  fold_left (fun types line => <[fst line := snd line]> types) lines m !! k
  = m !! k.
Proof.
  induction lines as [|[k0 t0] lines IH]; intros m k Hk; cbn [fold_left]; [done|].
  simpl in Hk. apply not_elem_of_cons in Hk as [Hne Hk].
  rewrite IH by done. cbn [fst snd]. by rewrite lookup_insert_ne.
Qed.

(** With distinct column names, [types] maps each name to its own type. *)
Lemma types_fold_lookup (lines : list (string * string)) :
  forall (m : gmap string string) (k t : string),
  NoDup (map fst lines) -> (k, t) ∈ lines ->
  fold_left (fun types line => <[fst line := snd line]> types) lines m !! k
  = Some t.
Proof.
  induction lines as [|[k0 t0] lines IH]; intros m k t Hnd Hin.
  - by apply elem_of_nil in Hin.
  - simpl in Hnd. apply NoDup_cons in Hnd as [Hk0 Hnd].
    cbn [fold_left fst snd]. apply elem_of_cons in Hin as [[= -> ->] | Hin].
    + rewrite types_fold_notin by done. apply lookup_insert_eq.
    + by apply IH.
Qed.

Lemma check_types_decides (types : gmap string string) :
  forall lines expected : list (string * string),
  map fst lines = map fst expected ->
  (forall k t, (k, t) ∈ lines -> types !! k = Some t) ->
  (forall k t, (k, t) ∈ expected -> lookup_str k _types = Some t) ->
  check_types types (map fst expected) = Ok (bool_decide (lines = expected)).
Proof.
  induction lines as [|[k t] lines IH]; intros [|[k' t'] expected] Hfst Hty Hexp;
    try discriminate Hfst.
  - reflexivity.
  - injection Hfst as -> Hfst. cbn [map fst check_types].
    rewrite (Hty k' t) by (apply elem_of_cons; by left).
    rewrite (Hexp k' t') by (apply elem_of_cons; by left).
    destruct (String.eqb_spec t t') as [->|Hne].
    + rewrite (IH expected Hfst).
      * apply f_equal. apply bool_decide_ext. split; [by intros -> | by intros [= ->]].
      * intros k0 t0 Hin. apply Hty, elem_of_cons. by right.
      * intros k0 t0 Hin. apply Hexp, elem_of_cons. by right.
    + apply f_equal. symmetry. apply bool_decide_eq_false. by intros [= ->].
Qed.

Lemma expected_types (k t : string) :
  (k, t) ∈ expected_columns -> lookup_str k _types = Some t.
Proof.
  intros Hin. apply list_elem_of_In in Hin. simpl in Hin.
  repeat (destruct Hin as [[= <- <-]|Hin]; [reflexivity|]). destruct Hin.
Qed.

(** *** Names *)

Lemma has_char_append (c : ascii) (s t : string) :
  has_char c (s ++ t) = has_char c s || has_char c t.
Proof.
  induction s as [|a s IH]; [reflexivity|].
  change (has_char c (String a (s ++ t))
          = has_char c (String a s) || has_char c t).
  cbn [has_char]. rewrite IH. by rewrite orb_assoc.
Qed.

Lemma string_map_append (f : ascii -> ascii) (s t : string) :
  string_map f (s ++ t) = string_map f s ++ string_map f t.
Proof.
  induction s as [|a s IH]; [reflexivity|].
  change (String (f a) (string_map f (s ++ t))
          = String (f a) (string_map f s ++ string_map f t)).
  by rewrite IH.
Qed.

Lemma length_string_map (f : ascii -> ascii) (s : string) :
  String.length (string_map f s) = String.length s.
Proof. induction s as [|a s IH]; simpl; [done|]. by rewrite IH. Qed.

Lemma all_chars_append (p : ascii -> bool) (s t : string) :
  all_chars p (s ++ t) = all_chars p s && all_chars p t.
Proof.
  induction s as [|a s IH]; [reflexivity|].
  change (all_chars p (String a (s ++ t))
          = all_chars p (String a s) && all_chars p t).
  cbn [all_chars]. rewrite IH. by rewrite andb_assoc.
Qed.

(** [pretty] writes a number with decimal digits. *)
Lemma pretty_N_char_digit (x : N) : is_digit (pretty_N_char x) = true.
Proof. unfold pretty_N_char. repeat case_match; reflexivity. Qed.

Lemma pretty_N_go_digits (x : N) : forall s,
  all_chars is_digit s = true -> all_chars is_digit (pretty_N_go x s) = true.
Proof.
  induction (N.lt_wf_0 x) as [x _ IH]. intros s Hs.
  destruct (decide (x = 0)%N) as [->|Hx]; [by rewrite pretty_N_go_0|].
  rewrite pretty_N_go_step by lia. apply IH.
  - apply N.div_lt; lia.
  - cbn [all_chars]. by rewrite pretty_N_char_digit.
Qed.

Lemma pretty_nat_digits (i : nat) : all_chars is_digit (pretty i) = true.
Proof.
  unfold pretty, pretty_nat, pretty, pretty_N.
  destruct (decide (N.of_nat i = 0)%N); [reflexivity|].
  by apply pretty_N_go_digits.
Qed.

Lemma digits_has_char (c : ascii) (s : string) :
  is_digit c = false -> all_chars is_digit s = true -> has_char c s = false.
Proof.
  intros Hc. induction s as [|a s IH]; [done|]. cbn [all_chars has_char].
  intros [Ha Hs]%andb_true_iff. rewrite (IH Hs), orb_false_r.
  destruct (Ascii.eqb_spec a c); [congruence | done].
Qed.

Lemma lower_digit (c : ascii) : is_digit c = true -> lower c = c.
Proof.
  destruct c as [[] [] [] [] [] [] [] []]; try reflexivity; discriminate.
Qed.

Lemma digits_fold (s : string) :
  all_chars is_digit s = true -> fold_name s = s.
Proof.
  unfold fold_name. induction s as [|a s IH]; [done|]. cbn [all_chars string_map].
  intros [Ha Hs]%andb_true_iff. by rewrite (lower_digit a Ha), (IH Hs).
Qed.

Lemma unquote_verbatim (t : string) :
  has_char "'" t = false -> unquote t = Some t.
Proof.
  induction t as [|a t IH]; [done|]. cbn [has_char unquote].
  intros [Ha Ht]%orb_false_elim. rewrite Ha, (IH Ht). reflexivity.
Qed.

Lemma quoted_verbatim (t : string) : verbatim t = true -> quoted_name t = Ok t.
Proof.
  unfold verbatim, quoted_name.
  intros [Hq Hz]%andb_true_iff. apply negb_true_iff in Hq, Hz.
  by rewrite Hz, (unquote_verbatim t Hq).
Qed.

Lemma verbatim_candidate (T : string) (j : nat) :
  verbatim T = true -> verbatim (candidate T j) = true.
Proof.
  destruct j as [|j]; [done|]. unfold verbatim, candidate.
  intros [Hq Hz]%andb_true_iff. apply negb_true_iff in Hq, Hz.
  rewrite !has_char_append, Hq, Hz.
  by rewrite !(digits_has_char _ (pretty (S j))) by (done || apply pretty_nat_digits).
Qed.

Lemma append_inj (s s1 s2 : string) : s ++ s1 = s ++ s2 -> s1 = s2.
Proof. induction s as [|a s IH]; simpl; [done|]. intros [= Heq]. auto. Qed.

Lemma length_append (s1 s2 : string) :
  String.length (s1 ++ s2) = String.length s1 + String.length s2.
Proof. induction s1 as [|a s1 IH]; simpl; [done|]. by rewrite IH. Qed.

#[global] Instance candidate_inj (first_table : string) :
  Inj (=) (=) (candidate first_table).
Proof.
  intros [|i] [|j] Heq; unfold candidate in Heq.
  - done.
  - apply (f_equal String.length) in Heq. rewrite length_append in Heq.
    simpl in Heq. lia.
  - apply (f_equal String.length) in Heq. rewrite length_append in Heq.
    simpl in Heq. lia.
  - apply append_inj in Heq. injection Heq as Heq.
    by apply pretty_nat_inj in Heq.
Qed.

Lemma fold_candidate (T : string) (j : nat) :
  fold_name (candidate T (S j)) = fold_name T ++ "_" ++ pretty (S j).
Proof.
  unfold candidate, fold_name. rewrite !string_map_append.
  fold (fold_name (pretty (S j))).
  by rewrite (digits_fold (pretty (S j)) (pretty_nat_digits (S j))).
Qed.

(** The candidates are distinct names, also for sqlite. *)
Lemma same_name_candidate (T : string) (i j : nat) :
  same_name (candidate T i) (candidate T j) = true -> i = j.
Proof.
  unfold same_name. intros Heq%String.eqb_eq.
  destruct i as [|i], j as [|j]; [done| | |].
  - rewrite fold_candidate in Heq. apply (f_equal String.length) in Heq.
    rewrite length_append in Heq. cbn [candidate] in Heq. simpl in Heq.
    unfold fold_name in Heq. lia.
  - rewrite fold_candidate in Heq. apply (f_equal String.length) in Heq.
    rewrite length_append in Heq. cbn [candidate] in Heq. simpl in Heq.
    unfold fold_name in Heq. lia.
  - rewrite !fold_candidate in Heq. apply append_inj in Heq.
    injection Heq as Heq. by apply pretty_nat_inj in Heq.
Qed.

Lemma same_name_refl (t : string) : same_name t t = true.
Proof. apply String.eqb_refl. Qed.

Lemma same_name_trans (a b c : string) :
  same_name a b = true -> same_name b c = true -> same_name a c = true.
Proof.
  unfold same_name. intros ->%String.eqb_eq ->%String.eqb_eq.
  apply String.eqb_refl.
Qed.

Lemma same_name_sym (a b : string) : same_name a b = same_name b a.
Proof. apply String.eqb_sym. Qed.

(** *** Looking a table up *)

Lemma find_table_Some (c : connection) (name key : string) (tb : sql_table) :
  find_table c name = Some (key, tb) ->
  tables c !! key = Some tb /\ same_name key name = true.
Proof.
  unfold find_table. intros [Hin Hsame]%find_some.
  split; [|done]. by apply elem_of_map_to_list, list_elem_of_In.
Qed.

Lemma find_table_None (c : connection) (name key : string) (tb : sql_table) :
  find_table c name = None -> tables c !! key = Some tb ->
  same_name key name = false.
Proof.
  unfold find_table. intros Hnone Hkey.
  apply (find_none _ _ Hnone (key, tb)).
  by apply list_elem_of_In, elem_of_map_to_list.
Qed.

Lemma find_table_is_Some (c : connection) (name key : string) (tb : sql_table) :
  tables c !! key = Some tb -> same_name key name = true ->
  is_Some (find_table c name).
Proof.
  intros Hkey Hsame. destruct (find_table c name) eqn:Hfind; [eauto|].
  by rewrite (find_table_None c name key tb Hfind Hkey) in Hsame.
Qed.

Lemma find_table_absent (c : connection) (name : string) :
  find_table c name = None -> tables c !! name = None.
Proof.
  intros Hnone. destruct (tables c !! name) as [tb|] eqn:Hlook; [|done].
  pose proof (find_table_None c name name tb Hnone Hlook) as Hsame.
  by rewrite same_name_refl in Hsame.
Qed.

(** *** Reported types *)

Lemma reported_type_not_text (decl : string) : reported_type decl <> "text".
Proof.
  unfold reported_type.
  destruct (str_in (string_map upper decl) standard_types) eqn:Hstd.
  - apply str_in_elem, list_elem_of_In in Hstd. simpl in Hstd.
    intros Heq. rewrite Heq in Hstd.
    repeat (destruct Hstd as [Hstd|Hstd]; [discriminate Hstd|]). destruct Hstd.
  - intros ->. discriminate Hstd.
Qed.

(** No table reports the expected columns: [msg_id] is declared [text],
    and sqlite reports [TEXT]. *)
Lemma reported_not_expected (tb : sql_table) :
  reported_columns tb <> expected_columns.
Proof.
  rewrite <- created_columns_expected. unfold reported_columns, created_columns.
  destruct (columns tb) as [|[n ty] cols]; [discriminate|].
  cbn [map fst snd]. intros [= _ Hty _]. by apply reported_type_not_text in Hty.
Qed.

Section Schema.
Context `{SqlBuiltins}.

(** *** The schema check *)

(** On a name sqlite reads, [_check_table] does not raise; it answers
    [compatible], and only adds its [PRAGMA] to the executed statements. *)
Lemma check_table_named (t name : string) (c : connection) :
  quoted_name t = Ok name ->
  _check_table t c = (Ok (compatible c name), logged c (PRAGMA_table_info t)).
Proof.
  intros Hname.
  unfold _check_table, execute_PRAGMA_table_info, bind, record, lift,
    compatible, logged.
  rewrite Hname. cbn [tables].
  change (find_table {| tables := tables c;
                        executed := executed c ++ [PRAGMA_table_info t] |} name)
    with (find_table c name).
  unfold table_columns.
  set (cols := match find_table c name with
               | Some (_, tb) => reported_columns tb
               | None => builtin_columns name
               end).
  assert (match find_table c name with
          | Some (_, tb) =>
              (Ok (reported_columns tb),
               {| tables := tables c;
                  executed := executed c ++ [PRAGMA_table_info t] |})
          | None =>
              (Ok (builtin_columns name),
               {| tables := tables c;
                  executed := executed c ++ [PRAGMA_table_info t] |})
          end
          = (Ok cols, {| tables := tables c;
                         executed := executed c ++ [PRAGMA_table_info t] |}))
    as ->.
  { subst cols. by destruct (find_table c name) as [[k tb]|]. }
  clearbody cols.
  destruct cols as [|line lines]; [reflexivity|].
  cbn iota beta. set (cols := line :: lines).
  assert (cols <> []) as Hne by done. clearbody cols. clear line lines.
  destruct (decide (_keys = map fst cols)) as [Hkeys|Hkeys].
  - rewrite bool_decide_eq_false_2 by (by intros []).
    unfold lift. f_equal.
    change _keys with (map fst expected_columns) in Hkeys |- *.
    rewrite (check_types_decides _ cols expected_columns);
      [|done| |apply expected_types].
    + apply f_equal, bool_decide_ext. split; [by right|].
      intros [Hnil|Heq]; [by destruct Hne | done].
    + intros k ty Hin. apply types_fold_lookup; [|done].
      rewrite <- Hkeys. apply NoDup_keys.
  - rewrite bool_decide_eq_true_2 by done. unfold ret. do 2 f_equal.
    symmetry. apply bool_decide_eq_false. intros [Hnil|Heq]; [by destruct Hne|].
    rewrite Heq in Hkeys. by destruct Hkeys.
Qed.

Lemma check_table_compatible (t : string) (c : connection) :
  verbatim t = true ->
  _check_table t c = (Ok (compatible c t), logged c (PRAGMA_table_info t)).
Proof. intros Ht. by apply check_table_named, quoted_verbatim. Qed.

(** On a name sqlite refuses, [_check_table] raises what sqlite raised. *)
Lemma check_table_refused (t : string) (e : exn) (c : connection) :
  quoted_name t = Raise e ->
  _check_table t c = (Raise e, logged c (PRAGMA_table_info t)).
Proof.
  intros Hname.
  unfold _check_table, execute_PRAGMA_table_info, bind, record, lift, logged.
  by rewrite Hname.
Qed.

Lemma compatible_logged (c : connection) (s : statement) (t : string) :
  compatible (logged c s) t = compatible c t.
Proof. reflexivity. Qed.

Lemma compatible_true (c : connection) (t : string) :
  compatible c t = true
  <-> table_columns c t = [] \/ table_columns c t = expected_columns.
Proof. unfold compatible. by rewrite bool_decide_eq_true. Qed.

Lemma compatible_false (c : connection) (t : string) :
  compatible c t = false
  <-> table_columns c t <> [] /\ table_columns c t <> expected_columns.
Proof. unfold compatible. rewrite bool_decide_eq_false. tauto. Qed.

Lemma compatible_unused (c : connection) (t : string) :
  find_table c t = None -> builtin_columns t = [] -> compatible c t = true.
Proof.
  intros Hnone Hbuiltin. apply compatible_true. left.
  unfold table_columns. by rewrite Hnone.
Qed.

(** A table of the database, with a column, is never compatible. *)
Lemma compatible_found (c : connection) (t key : string) (tb : sql_table) :
  find_table c t = Some (key, tb) -> columns tb <> [] ->
  compatible c t = false.
Proof.
  intros Hfind Hcols. apply compatible_false. unfold table_columns.
  rewrite Hfind. split; [|apply reported_not_expected].
  unfold reported_columns. by destruct (columns tb).
Qed.

(** An incompatible candidate that is not one of sqlite's own tables is a
    table of the database. *)
Lemma incompatible_found (c : connection) (t : string) :
  compatible c t = false -> builtin_columns t = [] ->
  is_Some (find_table c t).
Proof.
  intros Hbad Hbuiltin. destruct (find_table c t) eqn:Hfind; [eauto|].
  by rewrite (compatible_unused c t Hfind Hbuiltin) in Hbad.
Qed.

(** *** The rename loop *)

(** The loop, started at round [i], binds the first compatible candidate
    it meets, [k] rounds later, given fuel for it; no table changes. *)
Lemma init_loop_finds (first_table : string) (k : nat) :
  verbatim first_table = true ->
  forall (fuel i : nat) (c : connection),
  (forall j, j < k -> compatible c (candidate first_table (i + j)) = false) ->
  compatible c (candidate first_table (i + k)) = true ->
  k < fuel ->
  exists c',
    init_loop fuel first_table (candidate first_table i) i c
    = (Ok (Some (candidate first_table (i + k))), c')
    /\ tables c' = tables c
    /\ executed c'
       = (executed c
          ++ map (fun j => PRAGMA_table_info (candidate first_table (i + j)))
                 (seq 0 (S k)))%list.
Proof.
  intros Hverb.
  induction k as [|k IH]; intros fuel i c Hbad Hgood Hfuel;
    (destruct fuel as [|fuel]; [lia|]); cbn [init_loop];
    unfold bind;
    rewrite (check_table_compatible _ c (verbatim_candidate _ i Hverb)).
  - rewrite Nat.add_0_r in Hgood. rewrite Hgood, Nat.add_0_r.
    eexists. split; [reflexivity|]. split; [reflexivity|].
    cbn [logged executed seq map]. by rewrite Nat.add_0_r.
  - pose proof (Hbad 0 ltac:(lia)) as Hfirst.
    rewrite Nat.add_0_r in Hfirst. rewrite Hfirst, Nat.add_1_r.
    change (first_table ++ "_" ++ pretty (S i)) with (candidate first_table (S i)).
    destruct (IH fuel (S i) (logged c (PRAGMA_table_info (candidate first_table i))))
      as (c' & Hloop & Htables & Hexec).
    + intros j Hj. rewrite compatible_logged.
      replace (S i + j) with (i + S j) by lia. apply Hbad. lia.
    + rewrite compatible_logged. by replace (S i + k) with (i + S k) by lia.
    + lia.
    + exists c'. split; [|split; [done|]].
      * rewrite Hloop. do 4 f_equal. lia.
      * rewrite Hexec. cbn [logged executed]. rewrite <- app_assoc.
        f_equal. change (seq 0 (S (S k))) with (0 :: seq 1 (S k)).
        cbn [map app]. rewrite Nat.add_0_r. f_equal.
        rewrite <- seq_shift, map_map. apply map_ext. intros j.
        by replace (S i + j) with (i + S j) by lia.
Qed.

(** While every candidate met is incompatible the loop goes on: it has no
    other way out, and it does not raise. *)
Lemma init_loop_runs (first_table : string) (fuel : nat) :
  verbatim first_table = true ->
  forall (i : nat) (c : connection),
  (forall j, j < fuel -> compatible c (candidate first_table (i + j)) = false) ->
  exists c',
    init_loop fuel first_table (candidate first_table i) i c = (Ok None, c')
    /\ tables c' = tables c.
Proof.
  intros Hverb.
  induction fuel as [|fuel IH]; intros i c Hbad; cbn [init_loop].
  - by exists c.
  - unfold bind.
    rewrite (check_table_compatible _ c (verbatim_candidate _ i Hverb)).
    pose proof (Hbad 0 ltac:(lia)) as Hfirst.
    rewrite Nat.add_0_r in Hfirst. rewrite Hfirst, Nat.add_1_r.
    change (first_table ++ "_" ++ pretty (S i)) with (candidate first_table (S i)).
    destruct (IH (S i) (logged c (PRAGMA_table_info (candidate first_table i))))
      as (c' & Hloop & Htables).
    + intros j Hj. rewrite compatible_logged.
      replace (S i + j) with (i + S j) by lia. apply Hbad. lia.
    + exists c'. by split.
Qed.

(** Up to [n], a predicate has a least witness or none. *)
Lemma least_true (p : nat -> bool) (n : nat) :
  (exists k, k <= n /\ p k = true /\ forall j, j < k -> p j = false)
  \/ (forall j, j <= n -> p j = false).
Proof.
  induction n as [|n [(k & Hk & Hpk & Hleast) | Hnone]].
  - destruct (p 0) eqn:Hp0.
    + left. exists 0. split; [lia|]. split; [done|]. intros j Hj. lia.
    + right. intros j Hj. by replace j with 0 by lia.
  - left. exists k. split; [lia|]. by split.
  - destruct (p (S n)) eqn:HpS.
    + left. exists (S n). split; [lia|]. split; [done|].
      intros j Hj. apply Hnone. lia.
    + right. intros j Hj. destruct (decide (j = S n)) as [->|Hne]; [done|].
      apply Hnone. lia.
Qed.

(** The tables of a database cannot use [size + 1] candidates in a row:
    the candidates are distinct names. *)
Lemma candidates_exhaust (first_table : string) (c : connection) (a : nat) :
  ~ forall j, a <= j <= a + size (tables c) ->
              is_Some (find_table c (candidate first_table j)).
Proof.
  intros Hall. set (n := size (tables c)).
  set (key := fun j =>
         default "" (fst <$> find_table c (candidate first_table j))).
  set (names := key <$> seq a (S n)).
  assert (forall j, a <= j <= a + n ->
            key j ∈ dom (tables c)
            /\ same_name (key j) (candidate first_table j) = true) as Hkey.
  { intros j Hj. destruct (Hall j Hj) as [[k tb] Hfind].
    unfold key. rewrite Hfind. cbn.
    apply find_table_Some in Hfind as [Hlook Hsame].
    split; [|done]. apply elem_of_dom. eauto. }
  assert (NoDup names) as Hnd.
  { apply NoDup_fmap_2_strong; [|apply NoDup_seq].
    intros i j Hi%elem_of_seq Hj%elem_of_seq Heq.
    destruct (Hkey i ltac:(lia)) as [_ Hsi], (Hkey j ltac:(lia)) as [_ Hsj].
    apply (same_name_candidate first_table).
    rewrite same_name_sym in Hsi. rewrite Heq in Hsi.
    by apply (same_name_trans _ (key j)). }
  assert (list_to_set names ⊆ dom (tables c)) as Hsub.
  { intros t Ht. apply elem_of_list_to_set, list_elem_of_fmap in Ht
      as (j & -> & Hj). apply elem_of_seq in Hj. apply Hkey. lia. }
  apply subseteq_size in Hsub.
  rewrite size_list_to_set, size_dom in Hsub by done.
  unfold names in Hsub. rewrite length_fmap, length_seq in Hsub.
  fold n in Hsub. lia.
Qed.

(** The first compatible candidate from round [a] on, when sqlite has no
    table of its own under those candidates. *)
Lemma first_compatible (first_table : string) (c : connection) (a : nat) :
  (forall j, a <= j -> builtin_columns (candidate first_table j) = []) ->
  exists k,
    a <= k <= a + size (tables c)
    /\ compatible c (candidate first_table k) = true
    /\ forall j, a <= j < k -> compatible c (candidate first_table j) = false.
Proof.
  intros Hbuiltin. set (n := size (tables c)).
  destruct (least_true
              (fun j => compatible c (candidate first_table (a + j))) n)
    as [(k & Hk & Hgood & Hbad) | Hall].
  - exists (a + k). split; [lia|]. split; [done|].
    intros j Hj. replace j with (a + (j - a)) by lia. apply Hbad. lia.
  - destruct (candidates_exhaust first_table c a). intros j Hj.
    apply incompatible_found; [|apply Hbuiltin; lia].
    replace j with (a + (j - a)) by lia. apply Hall. fold n in Hj. lia.
Qed.

(** What [_init_db] does once the loop has settled on round [k]. *)
Lemma init_db_resolves (first_table : string) (k fuel : nat) (c : connection) :
  verbatim first_table = true ->
  (forall j, j < k -> compatible c (candidate first_table j) = false) ->
  compatible c (candidate first_table k) = true ->
  reserved_name (candidate first_table k) = false ->
  k < fuel ->
  exists c',
    _init_db fuel first_table c = (Ok (Some (candidate first_table k)), c')
    /\ (forall t tb, tables c !! t = Some tb -> tables c' !! t = Some tb)
    /\ (forall t, t <> candidate first_table k -> tables c' !! t = tables c !! t)
    /\ (find_table c (candidate first_table k) = None ->
        tables c' = <[candidate first_table k := created_table]> (tables c))
    /\ executed c'
       = (executed c
          ++ map (fun j => PRAGMA_table_info (candidate first_table j))
                 (seq 0 (S k))
          ++ [CREATE_TABLE_IF_NOT_EXISTS (candidate first_table k)])%list.
Proof.
  intros Hverb Hbad Hgood Hfree Hfuel.
  destruct (init_loop_finds first_table k Hverb fuel 0 c)
    as (c1 & Hloop & Htables & Hexec); [done..|].
  unfold _init_db, bind. cbn [candidate] in Hloop. rewrite Hloop. cbn [Nat.add].
  unfold execute_CREATE_TABLE_IF_NOT_EXISTS, bind, record, lift, commit, ret,
    put_table.
  rewrite (quoted_verbatim _ (verbatim_candidate _ k Hverb)).
  cbn [tables executed].
  change (find_table {| tables := tables c1;
                        executed := executed c1
                          ++ [CREATE_TABLE_IF_NOT_EXISTS (candidate first_table k)] |}
            (candidate first_table k))
    with (find_table (Connection (tables c1) (executed c)) (candidate first_table k)).
  rewrite Htables.
  change (find_table (Connection (tables c) (executed c)) (candidate first_table k))
    with (find_table c (candidate first_table k)).
  rewrite Hexec. cbn [Nat.add].
  destruct (find_table c (candidate first_table k)) as [[key tb0]|] eqn:Hfind.
  - eexists. split; [reflexivity|]. cbn [tables executed].
    repeat split; try done. by rewrite <- app_assoc.
  - rewrite Hfree. eexists. split; [reflexivity|]. cbn [tables executed].
    pose proof (find_table_absent c _ Hfind) as Hnone.
    split; [|split; [|split; [done|by rewrite <- app_assoc]]].
    + intros t tb Ht. rewrite lookup_insert_ne; [done|]. intros <-. congruence.
    + intros t Hne. by rewrite lookup_insert_ne.
Qed.

(** With names sqlite reads and does not keep for itself, [_init_db]
    does not raise. *)
Lemma init_db_returns (fuel : nat) (first_table : string) (c : connection) :
  verbatim first_table = true ->
  (forall j, ordinary_name (candidate first_table j)) ->
  exists bound c', _init_db fuel first_table c = (Ok bound, c').
Proof.
  intros Hverb Hord.
  destruct (first_compatible first_table c 0) as (k & _ & Hgood & Hbad).
  { intros j _. apply Hord. }
  destruct (decide (k < fuel)) as [Hlt|Hge].
  - destruct (init_db_resolves first_table k fuel c Hverb) as (c' & Hinit & _);
      [intros j Hj; apply Hbad; lia | done | apply Hord | done | eauto].
  - destruct (init_loop_runs first_table fuel Hverb 0 c) as (c' & Hloop & _).
    { intros j Hj. apply Hbad. simpl. lia. }
    unfold _init_db, bind. cbn [candidate] in Hloop. rewrite Hloop.
    unfold ret. eauto.
Qed.


Lemma drifted_connection_found (cap i : nat) :
  i <= cap ->
  exists key,
    find_table (drifted_connection cap) (candidate "t" i)
    = Some (key, Table [("msg_id", "integer")] None []).
Proof.
  intros Hi.
  assert (tables (drifted_connection cap) !! candidate "t" i
          = Some (Table [("msg_id", "integer")] None [])) as Hlook.
  { unfold drifted_connection. cbn [tables].
    apply (elem_of_list_to_map_1 _ _ (Table [("msg_id", "integer")] None [])).
    - rewrite <- list_fmap_compose.
      apply (NoDup_fmap_2 (candidate "t")), NoDup_seq.
    - apply list_elem_of_fmap. exists i. split; [done|]. apply elem_of_seq. lia. }
  destruct (find_table_is_Some _ (candidate "t" i) _ _ Hlook (same_name_refl _))
    as [[key tb] Hfind].
  exists key. rewrite Hfind. do 2 f_equal.
  apply find_table_Some in Hfind as [Hkey _].
  unfold drifted_connection in Hkey. cbn [tables] in Hkey.
  apply elem_of_list_to_map_2, list_elem_of_fmap in Hkey as (j & Heq & _).
  by injection Heq as _ ->.
Qed.

Lemma drifted_connection_incompatible (cap i : nat) :
  i <= cap -> compatible (drifted_connection cap) (candidate "t" i) = false.
Proof.
  intros Hi. destruct (drifted_connection_found cap i Hi) as [key Hfind].
  by apply (compatible_found _ _ key _ Hfind).
Qed.


End Schema.

Lemma ordinary_t (j : nat) : @ordinary_name Run.builtins (candidate "t" j).
Proof. destruct j; split; reflexivity. Qed.


(** ** History *)

Lemma bytes_compare_antisym (a : bytes) : forall b,
  bytes_compare b a = CompOpp (bytes_compare a b).
Proof.
  induction a as [|x a IH]; intros [|y b]; simpl; try reflexivity.
  rewrite (N.compare_antisym (Byte.to_N x) (Byte.to_N y)).
  destruct (N.compare (Byte.to_N x) (Byte.to_N y)); simpl; auto.
Qed.

Lemma sqlval_compare_antisym (a b : sqlval) :
  sqlval_compare b a = CompOpp (sqlval_compare a b).
Proof.
  destruct a, b; simpl; try reflexivity.
  - apply Z.compare_antisym.
  - apply String.compare_antisym.
  - apply bytes_compare_antisym.
Qed.

Lemma sqlval_leb_total (a b : sqlval) :
  sqlval_leb a b = true \/ sqlval_leb b a = true.
Proof.
  unfold sqlval_leb. rewrite (sqlval_compare_antisym a b).
  destruct (sqlval_compare a b); simpl; auto.
Qed.

Section Sorting.
Context {A : Type} (leb : A -> A -> bool).
Hypothesis leb_total : forall a b, leb a b = true \/ leb b a = true.

Lemma insert_sorted_HdRel (a x : A) (l : list A) :
  leb a x = true ->
  HdRel (fun a b => leb a b = true) a l ->
  HdRel (fun a b => leb a b = true) a (insert_sorted leb x l).
Proof.
  intros Hax Hl. destruct l as [|y l]; simpl; [by constructor|].
  destruct (leb x y); constructor; [done|]. by inversion Hl.
Qed.

Lemma insert_sorted_Sorted (x : A) (l : list A) :
  Sorted (fun a b => leb a b = true) l ->
  Sorted (fun a b => leb a b = true) (insert_sorted leb x l).
Proof.
  induction 1 as [|y l Hl IH Hy]; simpl; [by repeat constructor|].
  destruct (leb x y) eqn:Hxy.
  - repeat constructor; done.
  - constructor; [done|]. apply insert_sorted_HdRel; [|done].
    destruct (leb_total x y); congruence.
Qed.

(** [sorted] sorts. *)
Lemma sorted_Sorted (l : list A) :
  Sorted (fun a b => leb a b = true) (sorted leb l).
Proof.
  unfold sorted. induction l as [|x l IH]; simpl; [constructor|].
  by apply insert_sorted_Sorted.
Qed.

End Sorting.

Lemma convert_text (v : sqlval) `{Pickle, Json, Dates} :
  convert_column "text" v = Ok (plain v).
Proof. destruct v; reflexivity. Qed.

Section History.
Context `{Pickle, Json, Dates, SqlExpr}.

(** What [get_history] answers on the store's table: the identifiers of
    all its rows, in ascending order of the stored [submitted] values. *)
Lemma get_history_sorted (table : string) (c : connection) (tb : sql_table) :
  tables c !! table = Some tb ->
  columns tb = created_columns ->
  get_history table c
  = (Ok (map (fun row => plain (cell 0 row)) (sorted by_submitted (rows tb))),
     logged c (SELECT_msg_id_ORDER_BY_submitted table))
  /\ Sorted (fun a b => by_submitted a b = true) (sorted by_submitted (rows tb))
  /\ sorted by_submitted (rows tb) ≡ₚ rows tb.
Proof.
  intros Htb Hcols. split; [|split].
  - unfold get_history, execute_SELECT_msg_id_ORDER_BY_submitted, bind, record,
      get_table, lift, raise, logged.
    cbn [tables]. rewrite Htb, Hcols.
    change (index_of "submitted" (map fst created_columns)) with (Some 5).
    unfold result_columns. rewrite Hcols. cbn [map_result].
    change (index_of "msg_id" (map fst created_columns)) with (Some 0).
    cbn -[sorted sqlval_leb cell].
    fold by_submitted.
    induction (sorted by_submitted (rows tb)) as [|row rws IH]; [reflexivity|].
    cbn [map_result map]. unfold fetch_row at 1. cbn [map_result fst snd].
    rewrite convert_text. cbn [rbind].
    destruct (map_result (fetch_row [(0, "text")]) rws) as [tups|e];
      cbn [rbind] in *; [|discriminate IH].
    cbn [map_result].
    destruct (map_result _ tups) as [ids|e]; cbn [rbind] in *; [|discriminate IH].
    by injection IH as ->.
  - apply sorted_Sorted. intros a b. apply sqlval_leb_total.
  - apply sorted_perm.
Qed.

End History.

(** ** The filter translator, further *)

Lemma count_char_append (c : ascii) (s1 s2 : string) :
  count_char c (s1 ++ s2) = count_char c s1 + count_char c s2.
Proof. induction s1 as [|a s1 IH]; simpl; [done|]. rewrite IH. lia. Qed.

Lemma count_char_join (c : ascii) (sep : string) (l : list string) :
  count_char c sep = 0 ->
  count_char c (join sep l) = count_all c l.
Proof.
  intros Hsep. unfold join.
  induction l as [|x [|y l] IH]; simpl in *; [done | lia |].
  rewrite !count_char_append, Hsep, IH. lia.
Qed.

Lemma count_all_app (c : ascii) (l1 l2 : list string) :
  count_all c (l1 ++ l2)%list = count_all c l1 + count_all c l2.
Proof. induction l1 as [|x l1 IH]; simpl; [done|]. rewrite IH. lia. Qed.

Lemma count_all_repeat (c : ascii) (s : string) (n : nat) :
  count_all c (repeat s n) = n * count_char c s.
Proof. induction n as [|n IH]; simpl; [done|]. rewrite IH. lia. Qed.

(** No [?] in the strings of [operators] and [null_operators]. *)
Lemma operators_clean (test : string) (o : operator) :
  lookup_str test operators = Some o ->
  match o with
  | OpStr op => count_char "?" op = 0
  | OpTuple op jn => count_char "?" op = 0 /\ count_char "?" jn = 0
  end.
Proof.
  unfold operators. cbn [lookup_str].
  repeat (destruct (String.eqb _ test); [intros [= <-]; by vm_compute|]).
  discriminate.
Qed.

Lemma null_operators_clean (op word : string) :
  lookup_str op null_operators = Some word -> count_char "?" word = 0.
Proof.
  unfold null_operators. cbn [lookup_str].
  repeat (destruct (String.eqb _ op); [intros [= <-]; by vm_compute|]).
  discriminate.
Qed.

Lemma render_test_balanced (name : string) (st st' : render_state)
    (test : string) (value : pyval) :
  count_char "?" name = 0 -> balanced st ->
  render_test name st test value = Ok st' -> balanced st'.
Proof.
  intros Hname [Hsum Hjoin]. unfold render_test.
  destruct (lookup_str test operators) as [o|] eqn:Ho; [|discriminate].
  apply operators_clean in Ho.
  set (oj := match o with
             | OpTuple op jn => (op, Some jn)
             | OpStr op => (op, join_var st)
             end).
  assert (count_char "?" (fst oj) = 0
          /\ forall j, snd oj = Some j -> count_char "?" j = 0) as [Hop Hj].
  { destruct o as [op|op jn]; simpl; [by split|].
    destruct Ho as [Hop Hjn]. split; [done|]. by intros j [= <-]. }
  destruct oj as [op jn]. cbn [fst snd] in Hop, Hj.
  destruct (if is_None value then lookup_str op null_operators else None)
    as [word|] eqn:Hnull.
  - intros [= <-]. split; [|done]. cbn [expressions args].
    destruct (is_None value); [|discriminate].
    apply null_operators_clean in Hnull.
    rewrite count_all_app. simpl.
    rewrite !count_char_append, Hname, Hnull. simpl. lia.
  - destruct (as_sequence value) as [vs|].
    + destruct (in_null_operators op && existsb is_None vs); [discriminate|].
      destruct jn as [j|]; [|discriminate].
      intros [= <-]. split; [|done]. cbn [expressions args].
      rewrite count_all_app, length_app. simpl.
      rewrite !count_char_append, count_char_join by (by apply Hj).
      rewrite count_all_repeat, !count_char_append, Hname, Hop.
      simpl. lia.
    + intros [= <-]. split; [|done]. cbn [expressions args].
      rewrite count_all_app, length_app. simpl.
      rewrite !count_char_append, Hname, Hop. simpl. lia.
Qed.

Lemma render_tests_balanced (name : string) (sub : pydict) :
  forall st st',
  count_char "?" name = 0 -> balanced st ->
  render_tests name st sub = Ok st' -> balanced st'.
Proof.
  induction sub as [|[test value] sub IH]; intros st st' Hname Hst; simpl.
  - by intros [= <-].
  - destruct (render_test name st test value) as [st1|e] eqn:Ht; [|discriminate].
    simpl. apply IH; [done|]. by eapply render_test_balanced.
Qed.

Lemma render_items_balanced (check : pydict) :
  forall st st',
  (forall k, k ∈ dict_keys check -> count_char "?" k = 0) -> balanced st ->
  render_items st check = Ok st' -> balanced st'.
Proof.
  induction check as [|[name sub_check] check IH]; intros st st' Hkeys Hst; simpl.
  - by intros [= <-].
  - assert (count_char "?" name = 0) as Hname
      by (apply Hkeys; simpl; apply elem_of_cons; by left).
    destruct (render_item st name sub_check) as [st1|e] eqn:Hi; [|discriminate].
    simpl. apply IH; [intros k Hk; apply Hkeys; simpl; apply elem_of_cons; by right|].
    destruct Hst as [Hsum Hjoin].
    destruct sub_check; simpl in Hi;
      try (by eapply render_tests_balanced);
      injection Hi as <-; split; try done; cbn [expressions args];
      rewrite count_all_app, ?length_app; simpl;
      rewrite !count_char_append, Hname; simpl; lia.
Qed.

Lemma keys_clean (k : string) : k ∈ _keys -> count_char "?" k = 0.
Proof.
  intros Hin. apply list_elem_of_In in Hin. simpl in Hin.
  repeat (destruct Hin as [<-|Hin]; [reflexivity|]). destruct Hin.
Qed.

(** X1. Whenever a filter is translated, the expression holds exactly
    one [?] for each bound parameter. *)
Theorem render_placeholders (check : pydict) (expr : string) (params : list pyval) :
  _render_expression check = Ok (expr, params) ->
  count_char "?" expr = length params.
Proof.
  unfold _render_expression.
  destruct (decide (illegal_keys check = ∅)) as [Hlegal|]; [|discriminate].
  destruct (render_items (RenderState [] [] None) check) as [st|e] eqn:Hr;
    [|discriminate].
  simpl. intros [= <- <-].
  destruct (render_items_balanced check (RenderState [] [] None) st) as [Hsum _];
    [| by split | done |].
  - intros k Hk. apply keys_clean.
    destruct (decide (k ∈ _keys)) as [|Hnot]; [done|].
    by destruct (illegal_keys_nonempty check k Hk Hnot).
  - by rewrite count_char_join.
Qed.

Lemma render_items_literals (check : pydict) : forall st,
  Forall (fun item => is_dict (snd item) = false) check ->
  render_items st check
  = Ok (RenderState
          (expressions st ++ map literal_expr check)
          (args st ++ List.filter (fun v => negb (is_None v)) (map snd check))
          (join_var st)).
Proof.
  induction check as [|[name v] check IH]; intros st Hlit.
  - simpl. rewrite !app_nil_r. by destruct st.
  - apply Forall_cons in Hlit as [Hv Hlit]. cbn [render_items].
    assert (render_item st name v
            = Ok (RenderState
                    (expressions st ++ [literal_expr (name, v)])
                    (args st ++ (if is_None v then [] else [v]))
                    (join_var st))) as ->.
    { destruct v; try discriminate Hv; simpl; by rewrite ?app_nil_r. }
    cbn [rbind]. rewrite IH by done. cbn [expressions args join_var map].
    rewrite <- !app_assoc. cbn [app List.filter fst snd].
    by destruct (is_None v).
Qed.

(** X2. A filter that compares fields of the catalog with literals and
    [None] only is translated field by field, in the filter's order, the
    predicates joined by [ AND ]: [name IS NULL] for [None], and
    [name = ?] with the literal bound for anything else. *)
Theorem render_literals (check : pydict) :
  (forall k, k ∈ dict_keys check -> k ∈ _keys) ->
  Forall (fun item => is_dict (snd item) = false) check ->
  _render_expression check
  = Ok (join " AND " (map literal_expr check),
        List.filter (fun v => negb (is_None v)) (map snd check)).
Proof.
  intros Hkeys Hlit. rewrite render_expression_legal by done.
  by rewrite render_items_literals.
Qed.

(** X3. For a field of the catalog and a value that is neither [None]
    nor a list or tuple, each of the six comparison operators is
    translated to [f op ?] with the value as the one bound parameter. *)
Theorem render_comparison (f test op : string) (v : pyval) :
  f ∈ _keys ->
  (test, op) ∈ [("$lt", "<"); ("$gt", ">"); ("$eq", "="); ("$ne", "!=");
                ("$lte", "<="); ("$gte", ">=")] ->
  is_None v = false ->
  as_sequence v = None ->
  _render_expression [(f, VDict [(test, v)])] = Ok (f ++ " " ++ op ++ " ?", [v]).
Proof.
  intros Hf Hop Hv Hseq. rewrite render_expression_legal.
  2:{ intros k Hk. unfold dict_keys in Hk. simpl in Hk.
      apply list_elem_of_singleton in Hk. by subst. }
  apply list_elem_of_In in Hop. simpl in Hop.
  repeat (destruct Hop as [[= <- <-]|Hop];
          [cbn -[is_None as_sequence]; by rewrite Hv, Hseq|]).
  destruct Hop.
Qed.

(** X4. [None] under an operator.  Under [$eq] and [$in] it is the test
    [f IS NULL], under [$ne] and [$nin] the test [f IS NOT NULL], with no
    parameter; under the four ordering operators it is not a null test:
    [None] is bound as the parameter of [f op ?]. *)
Theorem render_None_tests (f : string) :
  f ∈ _keys ->
  (forall test, test ∈ ["$eq"; "$in"] ->
     _render_expression [(f, VDict [(test, VNone)])] = Ok (f ++ " IS NULL", []))
  /\ (forall test, test ∈ ["$ne"; "$nin"] ->
        _render_expression [(f, VDict [(test, VNone)])]
        = Ok (f ++ " IS NOT NULL", []))
  /\ (forall test op,
        (test, op) ∈ [("$lt", "<"); ("$gt", ">"); ("$lte", "<="); ("$gte", ">=")] ->
        _render_expression [(f, VDict [(test, VNone)])]
        = Ok (f ++ " " ++ op ++ " ?", [VNone])).
Proof.
  intros Hf.
  assert (forall sub, forall k, k ∈ dict_keys [(f, sub)] -> k ∈ _keys) as Hk.
  { intros sub k Hin. unfold dict_keys in Hin. simpl in Hin.
    apply list_elem_of_singleton in Hin. by subst. }
  repeat split.
  - intros test Ht. rewrite render_expression_legal by apply Hk.
    apply list_elem_of_In in Ht. simpl in Ht.
    repeat (destruct Ht as [<-|Ht]; [reflexivity|]). destruct Ht.
  - intros test Ht. rewrite render_expression_legal by apply Hk.
    apply list_elem_of_In in Ht. simpl in Ht.
    repeat (destruct Ht as [<-|Ht]; [reflexivity|]). destruct Ht.
  - intros test op Ht. rewrite render_expression_legal by apply Hk.
    apply list_elem_of_In in Ht. simpl in Ht.
    repeat (destruct Ht as [[= <- <-]|Ht]; [reflexivity|]). destruct Ht.
Qed.

(** X5. A filter with names outside the catalog raises the [KeyError]
    that carries exactly those names, whatever else is wrong with it:
    the name check comes before any operator is looked at. *)
Theorem render_illegal_keys (check : pydict) (k : string) :
  k ∈ dict_keys check -> k ∉ _keys ->
  exists skeys,
    _render_expression check = Raise (KeyError_illegal_testing_keys skeys)
    /\ forall k', k' ∈ skeys <-> k' ∈ dict_keys check /\ k' ∉ _keys.
Proof.
  intros Hin Hnot. exists (illegal_keys check).
  split; [by apply (render_expression_illegal check k)|].
  intros k'. apply illegal_keys_elem.
Qed.

Lemma render_test_extends (pre_e : list string) (pre_a : list pyval)
    (name test : string) (value : pyval) (s s' t : render_state) :
  extends pre_e pre_a s t ->
  render_test name s test value = Ok s' ->
  exists t', render_test name t test value = Ok t' /\ extends pre_e pre_a s' t'.
Proof.
  intros (He & Ha & Hj). unfold render_test.
  destruct (lookup_str test operators) as [o|]; [|discriminate].
  destruct o as [op|op jn].
  - destruct (if is_None value then lookup_str op null_operators else None)
      as [word|].
    + intros [= <-]. eexists. split; [reflexivity|].
      repeat split; cbn [expressions args join_var];
        rewrite ?He, ?Ha, <- ?app_assoc; done.
    + destruct (as_sequence value) as [vs|].
      * destruct (in_null_operators op && existsb is_None vs); [discriminate|].
        destruct (join_var s) as [j|] eqn:Hjs; [|discriminate].
        rewrite (Hj j eq_refl). intros [= <-]. eexists. split; [reflexivity|].
        repeat split; cbn [expressions args join_var];
          rewrite ?He, ?Ha, <- ?app_assoc; try done.
      * intros [= <-]. eexists. split; [reflexivity|].
        repeat split; cbn [expressions args join_var];
          rewrite ?He, ?Ha, <- ?app_assoc; done.
  - destruct (if is_None value then lookup_str op null_operators else None)
      as [word|].
    + intros [= <-]. eexists. split; [reflexivity|].
      repeat split; cbn [expressions args join_var];
        rewrite ?He, ?Ha, <- ?app_assoc; done.
    + destruct (as_sequence value) as [vs|].
      * destruct (in_null_operators op && existsb is_None vs); [discriminate|].
        intros [= <-]. eexists. split; [reflexivity|].
        repeat split; cbn [expressions args join_var];
          rewrite ?He, ?Ha, <- ?app_assoc; done.
      * intros [= <-]. eexists. split; [reflexivity|].
        repeat split; cbn [expressions args join_var];
          rewrite ?He, ?Ha, <- ?app_assoc; done.
Qed.

Lemma render_tests_extends (pre_e : list string) (pre_a : list pyval)
    (name : string) (sub : pydict) : forall s s' t,
  extends pre_e pre_a s t ->
  render_tests name s sub = Ok s' ->
  exists t', render_tests name t sub = Ok t' /\ extends pre_e pre_a s' t'.
Proof.
  induction sub as [|[test value] sub IH]; intros s s' t Hext; simpl.
  - intros [= <-]. eauto.
  - destruct (render_test name s test value) as [s1|e] eqn:Hs; [|discriminate].
    destruct (render_test_extends _ _ _ _ _ _ _ _ Hext Hs) as (t1 & -> & Hext1).
    simpl. by apply IH.
Qed.

Lemma render_items_extends (pre_e : list string) (pre_a : list pyval)
    (check : pydict) : forall s s' t,
  extends pre_e pre_a s t ->
  render_items s check = Ok s' ->
  exists t', render_items t check = Ok t' /\ extends pre_e pre_a s' t'.
Proof.
  induction check as [|[name sub_check] check IH]; intros s s' t Hext; simpl.
  - intros [= <-]. eauto.
  - destruct (render_item s name sub_check) as [s1|e] eqn:Hs; [|discriminate].
    assert (exists t1, render_item t name sub_check = Ok t1
                       /\ extends pre_e pre_a s1 t1) as (t1 & -> & Hext1).
    { destruct Hext as (He & Ha & Hj).
      destruct sub_check; simpl in Hs |- *;
        try (by eapply render_tests_extends);
        injection Hs as <-; eexists; (split; [reflexivity|]);
        repeat split; cbn [expressions args join_var];
        rewrite ?He, ?Ha, <- ?app_assoc; done. }
    simpl. by apply IH.
Qed.

Lemma render_items_app (check1 check2 : pydict) : forall st,
  render_items st (check1 ++ check2)%list
  = rbind (render_items st check1) (fun st' => render_items st' check2).
Proof.
  induction check1 as [|[name sub_check] check1 IH]; intros st; simpl; [done|].
  destruct (render_item st name sub_check); simpl; [apply IH | done].
Qed.

Lemma append_assoc_local (a b c : string) : (a ++ b) ++ c = a ++ b ++ c.
Proof.
  induction a as [|x a IH]; [reflexivity|].
  change (String x ((a ++ b) ++ c) = String x (a ++ b ++ c)). by rewrite IH.
Qed.

Lemma join_cons (sep x : string) (l : list string) :
  l <> [] -> join sep (x :: l) = x ++ sep ++ join sep l.
Proof. intros Hl. destruct l; [done | reflexivity]. Qed.

Lemma join_app (sep : string) (l1 l2 : list string) :
  l1 <> [] -> l2 <> [] ->
  join sep (l1 ++ l2)%list = join sep l1 ++ sep ++ join sep l2.
Proof.
  intros H1 H2. induction l1 as [|x l1 IH]; [done|].
  destruct l1 as [|y l1].
  - cbn [app]. by rewrite join_cons.
  - change ((x :: y :: l1) ++ l2)%list with (x :: ((y :: l1) ++ l2))%list.
    rewrite join_cons by done. rewrite IH by done.
    rewrite (join_cons sep x (y :: l1)) by done.
    by rewrite !append_assoc_local.
Qed.

(** X6. Filters compose by [ AND ]: when two filters are translated,
    each to a non-empty expression, the filter that lists the fields of
    the first and then those of the second is translated to the two
    expressions joined by [ AND ], with the parameters of the first
    followed by those of the second. *)
Theorem render_conjunction (check1 check2 : pydict) (expr1 expr2 : string)
    (params1 params2 : list pyval) :
  _render_expression check1 = Ok (expr1, params1) ->
  _render_expression check2 = Ok (expr2, params2) ->
  expr1 <> "" -> expr2 <> "" ->
  _render_expression (check1 ++ check2)%list
  = Ok (expr1 ++ " AND " ++ expr2, (params1 ++ params2)%list).
Proof.
  intros H1 H2 Hne1 Hne2.
  assert (forall k, k ∈ dict_keys (check1 ++ check2)%list -> k ∈ _keys) as Hkeys.
  { intros k Hk. unfold dict_keys in Hk. rewrite map_app in Hk.
    destruct (decide (k ∈ _keys)) as [|Hnot]; [done|exfalso].
    apply elem_of_app in Hk as [Hk|Hk].
    - by rewrite (render_expression_illegal check1 k Hk Hnot) in H1.
    - by rewrite (render_expression_illegal check2 k Hk Hnot) in H2. }
  rewrite render_expression_legal by done. rewrite render_items_app.
  unfold _render_expression in H1, H2.
  destruct (decide (illegal_keys check1 = ∅)); [|discriminate].
  destruct (decide (illegal_keys check2 = ∅)); [|discriminate].
  destruct (render_items (RenderState [] [] None) check1) as [st1|] eqn:Hr1;
    [|discriminate].
  destruct (render_items (RenderState [] [] None) check2) as [st2|] eqn:Hr2;
    [|discriminate].
  simpl in H1, H2. injection H1 as <- <-. injection H2 as <- <-. cbn [rbind].
  destruct (render_items_extends (expressions st1) (args st1) check2
              (RenderState [] [] None) st2 st1) as (t & -> & He & Ha & _);
    [|done|].
  { unfold extends. cbn [expressions args join_var].
    rewrite !app_nil_r. by repeat split. }
  cbn [rbind]. rewrite He, Ha. f_equal. f_equal.
  apply join_app.
  - intros Hnil. rewrite Hnil in Hne1. by destruct Hne1.
  - intros Hnil. rewrite Hnil in Hne2. by destruct Hne2.
Qed.

(** ** The schema check and [_init_db], further *)

Lemma has_char_replace (c old new : ascii) (s : string) :
  c <> new -> has_char c s = false ->
  has_char c (replace_char old new s) = false.
Proof.
  intros Hnew. induction s as [|a s IH]; [done|]. cbn [has_char replace_char].
  intros [Ha Hs]%orb_false_elim. rewrite (IH Hs), orb_false_r.
  destruct (Ascii.eqb a old); [|done].
  destruct (Ascii.eqb_spec new c); [congruence | done].
Qed.

Section SchemaFurther.
Context `{SqlBuiltins}.

(** X7. On a name sqlite reads as written, [_check_table] does not raise
    (the lookups [types[key]] cannot miss), executes its [PRAGMA] and
    nothing else, and answers [True] exactly when nothing is reported
    under the name or the reported columns are the expected names and
    types in order.  It answers [False] on every table of the database,
    the one [_init_db] creates included: sqlite reports [TEXT] where
    [text] was declared, and [text] is what the check expects. *)
Theorem check_table_decides (t : string) (c : connection) :
  verbatim t = true ->
  exists ok,
    _check_table t c
    = (Ok ok, Connection (tables c) (executed c ++ [PRAGMA_table_info t]))
    /\ (ok = true <->
        table_columns c t = [] \/ table_columns c t = expected_columns)
    /\ (forall key tb,
          find_table c t = Some (key, tb) -> columns tb <> [] -> ok = false).
Proof.
  intros Hverb. exists (compatible c t).
  split; [by apply check_table_compatible|]. split; [apply compatible_true|].
  intros key tb Hfind Hcols. by apply (compatible_found c t key tb).
Qed.





End SchemaFurther.

(** ** Reading does not write *)

Lemma read_only_ret {A} (a : A) : read_only (ret a).
Proof. by intros c. Qed.

Lemma read_only_raise {A} (e : exn) : read_only (@raise A e).
Proof. by intros c. Qed.

Lemma read_only_lift {A} (r : result A) : read_only (lift r).
Proof. by intros c. Qed.

Lemma read_only_record (s : statement) : read_only (record s).
Proof. by intros c. Qed.

Lemma read_only_get_table (t : string) : read_only (get_table t).
Proof. intros c. unfold get_table. by destruct (tables c !! t). Qed.

Lemma read_only_bind {A B} (m : M A) (k : A -> M B) :
  read_only m -> (forall a, read_only (k a)) -> read_only (bind m k).
Proof.
  intros Hm Hk c. unfold bind. specialize (Hm c).
  destruct (m c) as [[a|e] c1]; simpl in Hm; [|done].
  by rewrite Hk.
Qed.

Ltac read_only_step :=
  first
    [ apply read_only_ret | apply read_only_raise | apply read_only_lift
    | apply read_only_record | apply read_only_get_table
    | apply read_only_bind; [|intros ?]
    | match goal with
      | |- read_only (match ?x with _ => _ end) => destruct x
      | |- read_only (let _ := _ in _) => cbv zeta
      end ].

Section ReadOnly.
Context `{Pickle, Json, Dates, SqlExpr, SqlBuiltins}.

Lemma read_only_table_info (t : string) : read_only (execute_PRAGMA_table_info t).
Proof.
  unfold execute_PRAGMA_table_info. apply read_only_bind; [apply read_only_record|].
  intros _. apply read_only_bind; [apply read_only_lift|].
  intros name c. by destruct (find_table c name) as [[? ?]|].
Qed.

(** X11. The queries never write: [find_records], [get_record],
    [get_history] and [_check_table] leave every table as it was, whatever
    they are given and whether they return or raise. *)
Theorem queries_read_only (table : string) (c : connection) :
  (forall check keys, tables (snd (find_records table check keys c)) = tables c)
  /\ (forall msg_id, tables (snd (get_record table msg_id c)) = tables c)
  /\ tables (snd (get_history table c)) = tables c
  /\ tables (snd (_check_table table c)) = tables c.
Proof.
  repeat split.
  - intros check keys. revert c. change (read_only (find_records table check keys)).
    unfold find_records, execute_SELECT_WHERE. repeat read_only_step.
  - intros msg_id. revert c. change (read_only (get_record table msg_id)).
    unfold get_record, execute_SELECT_WHERE_fetchone. repeat read_only_step.
  - revert c. change (read_only (get_history table)).
    unfold get_history, execute_SELECT_msg_id_ORDER_BY_submitted.
    repeat read_only_step.
  - revert c. change (read_only (_check_table table)).
    unfold _check_table. apply read_only_bind; [apply read_only_table_info|].
    intros lines. repeat read_only_step.
Qed.

End ReadOnly.

(** ** Adding, looking up and dropping records *)

Lemma map_result_Forall2 {A B} (f : A -> result B) (l : list A) (l' : list B) :
  map_result f l = Ok l' -> Forall2 (fun x y => f x = Ok y) l l'.
Proof.
  revert l'. induction l as [|x l IH]; intros l'; simpl.
  - intros [= <-]. constructor.
  - destruct (f x) as [y|e] eqn:Hx; [|discriminate]. simpl.
    destruct (map_result f l) as [ys|e]; [|discriminate]. simpl.
    intros [= <-]. constructor; [done | by apply IH].
Qed.

Lemma existsb_false {A} (p : A -> bool) (l : list A) :
  (forall x, x ∈ l -> p x = false) -> existsb p l = false.
Proof.
  intros Hp. induction l as [|x l IH]; simpl; [done|].
  rewrite (Hp x) by (apply elem_of_cons; by left). simpl.
  apply IH. intros y Hy. apply Hp, elem_of_cons. by right.
Qed.

Lemma sql_eq_true (a b : sqlval) : sql_eq a b = true -> a = b /\ a <> SNull.
Proof.
  unfold sql_eq. destruct a; [discriminate|..];
    intros Heq%bool_decide_eq_true; by split.
Qed.

Lemma sql_eq_refl (a : sqlval) : a <> SNull -> sql_eq a a = true.
Proof.
  intros Hne. unfold sql_eq. destruct a; [done|..]; by apply bool_decide_eq_true.
Qed.

Section Records.
Context `{Pickle, Json, Dates, SqlExpr}.

(** What [add_record] does once its line is bound, on the store's table
    without the identifier: one [INSERT], one more row. *)
Lemma add_record_inserts (table id : string) (rec : pydict) (c : connection)
    (tb : sql_table) (line : list pyval) (row : list sqlval) :
  store_table c table tb ->
  (forall r, r ∈ rows tb -> cell 0 r <> SText id) ->
  _dict_to_list (dict_set (dict_update (_defaults None) rec) "msg_id" (VStr id))
  = Ok (VStr id :: line) ->
  length line = 21 ->
  bind_params line = Ok row ->
  add_record table (VStr id) rec c
  = (Ok tt,
     Connection
       (<[table := Table created_columns (Some "msg_id")
                         (rows tb ++ [SText id :: row])]> (tables c))
       (executed c ++ [INSERT_INTO table 22])).
Proof.
  intros (Htb & Hcols & Hpk) Habsent Hline Hlen Hrow.
  unfold add_record. unfold bind at 1, lift at 1. rewrite Hline.
  unfold execute_INSERT_INTO, bind, record, get_table, lift, raise, put_table.
  cbn [tables executed]. rewrite Htb, Hcols. cbn [length]. rewrite Hlen.
  cbn [Nat.eqb length created_columns negb].
  unfold bind_params in *. cbn [map_result bind_param rbind]. rewrite Hrow.
  cbn [rbind].
  assert (pk_conflict (pk_index tb) (SText id :: row) (rows tb) = false) as ->.
  { unfold pk_index. rewrite Hpk, Hcols. cbn [pk_conflict].
    change (index_of "msg_id" (map fst created_columns)) with (Some 0).
    cbn iota beta. apply existsb_false. intros r Hr.
    destruct (sql_eq _ _) eqn:Heq; [|done].
    apply sql_eq_true in Heq as [Heq _]. cbn in Heq.
    by destruct (Habsent r Hr). }
  by rewrite Hpk.
Qed.

(** X12. Adding a record under an identifier that is not stored, with
    values that can be bound, executes one [INSERT] and appends one row of
    22 values to the store's table, after the rows already there.  The
    row's identifier is the [msg_id] argument, even when the record has a
    [msg_id] entry of its own. *)
Theorem add_record_fresh (table id : string) (rec : pydict) (c : connection)
    (tb : sql_table) :
  store_table c table tb ->
  (forall r, r ∈ rows tb -> cell 0 r <> SText id) ->
  Forall (fun kv => bindable (snd kv)) rec ->
  exists row,
    length row = 22
    /\ cell 0 row = SText id
    /\ add_record table (VStr id) rec c
       = (Ok tt,
          Connection
            (<[table := Table created_columns (Some "msg_id")
                              (rows tb ++ [row])]> (tables c))
            (executed c ++ [INSERT_INTO table 22])).
Proof.
  intros Hstore Habsent Hrec.
  destruct (add_record_line (VStr id) rec) as (line & Hline & Hvals & Hlen).
  destruct (bind_params_bindable line) as [row Hrow].
  { eapply Forall_impl; [exact Hvals|]. intros v [-> | Hv].
    - by exists SNull.
    - apply list_elem_of_fmap in Hv as ([k w] & -> & Hkw).
      rewrite Forall_forall in Hrec. by apply (Hrec (k, w)). }
  exists (SText id :: row). split; [|split; [reflexivity|]].
  - unfold bind_params in Hrow. apply map_result_Forall2 in Hrow.
    apply Forall2_length in Hrow. simpl. lia.
  - by apply (add_record_inserts table id rec c tb line row).
Qed.

(** X13. The identifiers stay unique: on the store's table, whenever
    [add_record] returns, no two rows of the table it leaves share an
    identifier, given that none did before.  This holds for any
    identifier and any record. *)
Theorem add_record_keeps_unique (table : string) (msg_id : pyval) (rec : pydict)
    (c c' : connection) (tb : sql_table) :
  store_table c table tb ->
  unique_ids tb ->
  add_record table msg_id rec c = (Ok tt, c') ->
  exists tb', store_table c' table tb' /\ unique_ids tb'.
Proof.
  intros (Htb & Hcols & Hpk) Huniq. unfold add_record.
  unfold bind at 1, lift at 1.
  destruct (_dict_to_list _) as [line|e]; [|discriminate].
  unfold execute_INSERT_INTO, bind, record, get_table, lift, raise, put_table.
  cbn [tables executed]. rewrite Htb.
  destruct (negb _); [discriminate|].
  destruct (bind_params line) as [row|e]; [|discriminate].
  destruct (pk_conflict _ _ _) eqn:Hconflict; [discriminate|].
  intros [= <-]. eexists. split.
  - split; [cbn [tables]; apply lookup_insert_eq|]. by split.
  - unfold unique_ids, row_ids in *. cbn [rows].
    rewrite map_app, filter_app. cbn [map].
    unfold pk_index in Hconflict. rewrite Hpk, Hcols in Hconflict.
    change (index_of "msg_id" (map fst created_columns)) with (Some 0)
      in Hconflict.
    cbn [pk_conflict] in Hconflict.
    destruct (decide (cell 0 row = SNull)) as [Hnull|Hnn].
    + rewrite filter_cons_False by (by intros []). rewrite filter_nil.
      by rewrite app_nil_r.
    + rewrite filter_cons_True by done. rewrite filter_nil.
      apply NoDup_app. split; [done|]. split; [|apply NoDup_singleton].
      intros v Hv Hv'. apply list_elem_of_singleton in Hv'. subst v.
      apply list_elem_of_filter in Hv as [_ Hv].
      apply list_elem_of_fmap in Hv as (r & Hr & Hin).
      assert (existsb (fun o => sql_eq (cell 0 row) (cell 0 o)) (rows tb) = true)
        as Hex; [|congruence].
      apply existsb_exists. exists r. split; [by apply list_elem_of_In|].
      rewrite <- Hr. by apply sql_eq_refl.
Qed.

End Records.

Lemma fetch_columns `{Pickle, Json, Dates} (cols : list (string * string)) :
  forall (pre row : list sqlval),
  length row = length cols ->
  fetch_row (imap (fun i col => (length pre + i, snd col)) cols) (pre ++ row)%list
  = map_result (fun cs => convert_column (snd (fst cs)) (snd cs))
               (combine cols row).
Proof.
  unfold fetch_row.
  induction cols as [|col cols IH]; intros pre [|s row] Hlen;
    try discriminate Hlen; [reflexivity|].
  cbn [imap combine map_result fst snd].
  assert (cell (length pre + 0) (pre ++ s :: row) = s) as ->.
  { unfold cell. rewrite Nat.add_0_r, lookup_app_r by lia.
    by rewrite Nat.sub_diag. }
  assert (map_result
            (fun col => convert_column (snd col) (cell (fst col) (pre ++ s :: row)))
            (imap ((fun i col => (length pre + i, snd col)) ∘ S) cols)
          = map_result (fun cs => convert_column (snd (fst cs)) (snd cs))
                       (combine cols row)) as ->; [|done].
  rewrite <- (IH (pre ++ [s])%list row) by (simpl in Hlen; lia).
  rewrite <- app_assoc. cbn [app]. f_equal. apply imap_ext.
  intros i c _. simpl. rewrite length_app. simpl. f_equal. lia.
Qed.

Lemma dict_keys_set (d : pydict) (key : string) (value : pyval) :
  key ∈ dict_keys d -> dict_keys (dict_set d key value) = dict_keys d.
Proof.
  induction d as [|[k v] d IH]; simpl; [by intros ?%elem_of_nil|].
  intros Hin. destruct (String.eqb k key) eqn:Hk; [done|]. simpl. f_equal.
  apply IH. apply elem_of_cons in Hin as [->|Hin]; [|done].
  by rewrite String.eqb_refl in Hk.
Qed.

Lemma dict_keys_update (rec : pydict) : forall d,
  (forall k, k ∈ dict_keys rec -> k ∈ dict_keys d) ->
  dict_keys (dict_update d rec) = dict_keys d.
Proof.
  unfold dict_update.
  induction rec as [|[k w] rec IH]; intros d Hsub; cbn [fold_left]; [done|].
  cbn [fst snd].
  assert (dict_keys (dict_set d k w) = dict_keys d) as Hset
    by (apply dict_keys_set, Hsub; simpl; apply elem_of_cons; by left).
  rewrite IH; [done|]. intros k' Hk'. rewrite Hset. apply Hsub. simpl.
  apply elem_of_cons. by right.
Qed.

Lemma dict_get_set_elem (d : pydict) (key key' : string) (value v : pyval) :
  dict_get (dict_set d key value) key' = Some v ->
  (key = key' /\ v = value) \/ dict_get d key' = Some v.
Proof.
  destruct (decide (key = key')) as [<-|Hne].
  - rewrite dict_get_set_eq. intros [= <-]. by left.
  - rewrite dict_get_set_ne by done. by right.
Qed.

Lemma dict_get_update_elem (rec : pydict) : forall (d : pydict) (key : string)
    (v : pyval),
  dict_get (dict_update d rec) key = Some v ->
  (key, v) ∈ rec \/ dict_get d key = Some v.
Proof.
  unfold dict_update.
  induction rec as [|[k w] rec IH]; intros d key v; cbn [fold_left]; [by right|].
  intros Hget. apply IH in Hget as [Hin | Hget].
  - left. apply elem_of_cons. by right.
  - cbn [fst snd] in Hget.
    apply dict_get_set_elem in Hget as [[-> ->] | Hget]; [|by right].
    left. apply elem_of_cons. by left.
Qed.

Lemma list_dict_list (line : list pyval) :
  length line = 22 -> _dict_to_list (_list_to_dict line None) = Ok line.
Proof.
  intros Hlen.
  do 22 (destruct line as [|? line]; [discriminate Hlen|]).
  destruct line; [|discriminate Hlen]. reflexivity.
Qed.

Lemma dict_list_dict (d : pydict) :
  dict_keys d = _keys ->
  _dict_to_list d = Ok (map snd d) /\ _list_to_dict (map snd d) None = d.
Proof.
  intros Hkeys. unfold dict_keys, _keys in Hkeys.
  do 22 (destruct d as [|[? ?] d]; [discriminate Hkeys|]).
  destruct d; [|discriminate Hkeys].
  cbn [map fst] in Hkeys. simplify_eq. split; reflexivity.
Qed.

(** X14. [_dict_to_list] and [_list_to_dict] are inverse on full
    records: a line of 22 values goes to the dict of the 22 keys in
    catalog order and back to the same line, and a dict with exactly the
    catalog's keys, in order, goes to its values and back to itself. *)
Theorem dict_list_inverse :
  (forall line, length line = 22 ->
     _dict_to_list (_list_to_dict line None) = Ok line)
  /\ (forall d, dict_keys d = _keys ->
        _dict_to_list d = Ok (map snd d)
        /\ _list_to_dict (map snd d) None = d).
Proof. split; [exact list_dict_list | exact dict_list_dict]. Qed.

(** X15. [_dict_to_list] raises [KeyError] for the first key of the
    catalog, in catalog order, that the dict does not have. *)
Theorem dict_to_list_missing (d : pydict) (before after : list string)
    (key : string) :
  _keys = (before ++ key :: after)%list ->
  (forall k, k ∈ before -> k ∈ dict_keys d) ->
  key ∉ dict_keys d ->
  _dict_to_list d = Raise (KeyError key).
Proof.
  intros Hsplit Hbefore Hkey. unfold _dict_to_list. rewrite Hsplit.
  clear Hsplit. induction before as [|k before IH]; cbn [app map_result].
  - unfold getitem at 1.
    destruct (dict_get d key) as [v|] eqn:Hget; [|reflexivity].
    apply dict_get_elem in Hget. destruct Hkey.
    apply list_elem_of_fmap. by exists (key, v).
  - destruct (dict_get_keys d k) as [v Hv]; [apply Hbefore, elem_of_cons; by left|].
    unfold getitem at 1. rewrite Hv. cbn [rbind]. rewrite IH; [done|].
    intros k' Hk'. apply Hbefore, elem_of_cons. by right.
Qed.

Section Lookup.
Context `{Pickle, Json, Dates, SqlExpr, !SqlById}.

(** [get_record] on the store's table: the first row with the
    identifier, converted, or the [KeyError]. *)
Lemma get_record_rows (table id : string) (c : connection) (tb : sql_table) :
  tables c !! table = Some tb ->
  columns tb = created_columns ->
  get_record table (VStr id) c
  = (match List.filter (fun r => sql_eq (cell 0 r) (SText id)) (rows tb) with
     | [] => Raise (KeyError ("No such msg: " ++ repr (VStr id)))
     | row :: _ =>
         rbind (fetch_row all_columns row)
               (fun line => Ok (_list_to_dict line None))
     end,
     Connection (tables c)
                (executed c ++ [SELECT_WHERE None table "msg_id==?"])).
Proof.
  intros Htb Hcols.
  unfold get_record, execute_SELECT_WHERE_fetchone, bind, record, get_table,
    lift, raise, ret.
  cbn [tables executed]. rewrite Htb. unfold result_columns. rewrite Hcols.
  cbn [bind_params map_result bind_param rbind].
  rewrite (sql_where_msg_id _ (SText id) 0) by reflexivity.
  destruct (List.filter _ (rows tb)) as [|row rest]; [reflexivity|].
  fold all_columns. by destruct (fetch_row all_columns row).
Qed.

Lemma drop_record_rows (table id : string) (c : connection) (tb : sql_table) :
  tables c !! table = Some tb ->
  columns tb = created_columns ->
  drop_record table (VStr id) c
  = (Ok tt,
     Connection
       (<[table := Table (columns tb) (primary_key tb)
                         (List.filter
                            (fun r => negb (sql_eq (cell 0 r) (SText id)))
                            (rows tb))]> (tables c))
       (executed c ++ [DELETE_WHERE table "msg_id==?"])).
Proof.
  intros Htb Hcols.
  unfold drop_record, execute_DELETE_WHERE, bind, record, get_table, lift,
    put_table.
  cbn [tables executed]. rewrite Htb.
  cbn [bind_params map_result bind_param rbind]. rewrite Hcols.
  by rewrite (sql_where_msg_id _ (SText id) 0) by reflexivity.
Qed.

Lemma filter_none {A} (p : A -> bool) (l : list A) :
  (forall x, x ∈ l -> p x = false) -> List.filter p l = [].
Proof.
  intros Hp. induction l as [|x l IH]; simpl; [done|].
  rewrite (Hp x) by (apply elem_of_cons; by left).
  apply IH. intros y Hy. apply Hp, elem_of_cons. by right.
Qed.

Lemma filter_all {A} (p : A -> bool) (l : list A) :
  (forall x, x ∈ l -> p x = true) -> List.filter p l = l.
Proof.
  intros Hp. induction l as [|x l IH]; simpl; [done|].
  rewrite (Hp x) by (apply elem_of_cons; by left). f_equal.
  apply IH. intros y Hy. apply Hp, elem_of_cons. by right.
Qed.

(** A lookup that selects no row. *)
Lemma get_record_no_row (table id : string) (c : connection) (tb : sql_table) :
  tables c !! table = Some tb ->
  columns tb = created_columns ->
  (forall r, r ∈ rows tb -> cell 0 r <> SText id) ->
  get_record table (VStr id) c
  = (Raise (KeyError ("No such msg: " ++ repr (VStr id))),
     Connection (tables c)
                (executed c ++ [SELECT_WHERE None table "msg_id==?"])).
Proof.
  intros Htb Hcols Habsent. rewrite (get_record_rows table id c tb) by done.
  rewrite filter_none; [done|].
  intros r Hr. by apply sql_eq_false, Habsent.
Qed.

(** X16. Looking up an identifier that is not stored raises [KeyError]
    with the message [No such msg: ] and the identifier's [repr], after
    the one [SELECT]; no table changes.  The identifier is a string of
    ASCII characters. *)
Theorem get_record_absent (table id : string) (c : connection) (tb : sql_table) :
  ascii_text id = true ->
  tables c !! table = Some tb ->
  columns tb = created_columns ->
  (forall r, r ∈ rows tb -> cell 0 r <> SText id) ->
  get_record table (VStr id) c
  = (Raise (KeyError ("No such msg: " ++ repr (VStr id))),
     Connection (tables c)
                (executed c ++ [SELECT_WHERE None table "msg_id==?"])).
Proof. intros _. apply get_record_no_row. Qed.

(** X17. [drop_record] deletes the rows with the identifier and keeps
    the others in their order; it raises nothing, and when the
    identifier is not stored no table changes.  Afterwards the identifier
    is not stored: looking it up raises [KeyError].  The identifier is a
    string of ASCII characters. *)
Theorem drop_record_removes (table id : string) (c : connection)
    (tb : sql_table) :
  ascii_text id = true ->
  tables c !! table = Some tb ->
  columns tb = created_columns ->
  exists c' tb',
    drop_record table (VStr id) c = (Ok tt, c')
    /\ tables c' = <[table := tb']> (tables c)
    /\ columns tb' = columns tb /\ primary_key tb' = primary_key tb
    /\ rows tb' = List.filter (fun r => bool_decide (cell 0 r <> SText id)) (rows tb)
    /\ ((forall r, r ∈ rows tb -> cell 0 r <> SText id) -> tables c' = tables c)
    /\ exists c'',
         get_record table (VStr id) c'
         = (Raise (KeyError ("No such msg: " ++ repr (VStr id))), c'').
Proof.
  intros _ Htb Hcols. rewrite (drop_record_rows table id c tb) by done.
  assert (forall r, negb (sql_eq (cell 0 r) (SText id))
                    = bool_decide (cell 0 r <> SText id)) as Hp.
  { intros r. destruct (decide (cell 0 r = SText id)) as [Heq|Hne].
    - rewrite Heq, sql_eq_refl by done. symmetry.
      apply bool_decide_eq_false. by intros [].
    - rewrite sql_eq_false by done. symmetry. by apply bool_decide_eq_true. }
  eexists _, _. split; [reflexivity|]. cbn [tables columns primary_key rows].
  repeat split.
  - apply filter_ext. intros r. apply Hp.
  - intros Habsent. apply insert_id. rewrite Htb. destruct tb as [cs pk rws].
    cbn [columns primary_key rows] in *. f_equal. symmetry. f_equal.
    apply filter_all.
    intros r Hr. rewrite Hp. apply bool_decide_eq_true. by apply Habsent.
  - eexists. eapply get_record_no_row.
    + cbn [tables]. apply lookup_insert_eq.
    + done.
    + cbn [rows]. intros r Hr. apply list_elem_of_In, filter_In in Hr as [_ Hr].
      rewrite Hp in Hr. by apply bool_decide_eq_true in Hr.
Qed.

Lemma adapt_bufs_bytes (bs : list bytes) :
  bs <> [] ->
  _adapt_bufs (VList (map VBytes bs))
  = Ok (VMemoryview (pickle_dumps (VList (map VBytes bs)))).
Proof.
  destruct bs as [|x bs]; [done|]. intros _. unfold _adapt_bufs.
  change (truthy (VList (map VBytes (x :: bs)))) with true.
  cbn [getitem0 map rbind is_bytes_like iterate].
  change (VBytes x :: map VBytes bs) with (map VBytes (x :: bs)).
  by rewrite map_result_tobytes.
Qed.

(** A storable value of a column is bound, and read back as [read_back]
    of itself. *)
Lemma storable_read_back `{!PickleRoundTrip} (k decl : string) (v : pyval) :
  lookup_str k _types = Some decl ->
  storable k v ->
  exists s, bind_param v = Ok s /\ convert_column decl s = Ok (read_back v).
Proof.
  intros Hdecl [-> | [(s & -> & Ht) | (bs & -> & Ht)]].
  - by exists SNull.
  - exists (SText s). split; [done|]. rewrite Ht in Hdecl.
    by injection Hdecl as <-.
  - rewrite Ht in Hdecl. injection Hdecl as <-.
    destruct bs as [|x bs]; [by exists SNull|].
    eexists. cbn [bind_param].
    rewrite (adapt_bufs_bytes (x :: bs)) by done. cbn [rbind].
    split; [reflexivity|]. cbn -[pickle_loads pickle_dumps map].
    apply pickle_loads_dumps.
Qed.

Lemma bound_read (cols : list (string * string)) (vs : list pyval) :
  Forall2 (fun col v => exists s, bind_param v = Ok s
                                  /\ convert_column (snd col) s = Ok (read_back v))
          cols vs ->
  exists row,
    bind_params vs = Ok row
    /\ map_result (fun cs => convert_column (snd (fst cs)) (snd cs))
                  (combine cols row)
       = Ok (map read_back vs)
    /\ length row = length cols.
Proof.
  induction 1 as [|col v cols vs (s & Hs & Hc) _ (row & Hrow & Hread & Hlen)].
  - by exists [].
  - exists (s :: row). unfold bind_params in *. cbn [map_result combine fst snd map].
    rewrite Hs, Hrow, Hc, Hread. cbn [rbind length]. by rewrite Hlen.
Qed.

Lemma Forall2_join {A B C} (R1 : A -> B -> Prop) (R2 : A -> C -> Prop)
    (P : B -> C -> Prop) (ks : list A) (cs : list B) (vs : list C) :
  Forall2 R1 ks cs -> Forall2 R2 ks vs ->
  (forall k c v, k ∈ ks -> R1 k c -> R2 k v -> P c v) ->
  Forall2 P cs vs.
Proof.
  intros Hcs. revert vs. induction Hcs as [|k c ks cs Hkc _ IH]; intros vs Hvs HP.
  - inversion Hvs. constructor.
  - inversion Hvs as [|? v ? vs' Hkv Hrest]; subst. constructor.
    + apply (HP k); [apply elem_of_cons; by left | done | done].
    + apply IH; [done|]. intros k' c' v' Hk'. apply HP, elem_of_cons. by right.
Qed.

Lemma keys_columns :
  Forall2 (fun key col => lookup_str key _types = Some (snd col))
          _keys created_columns.
Proof. repeat constructor. Qed.

(** X18. A record goes into the store and comes back.  For an identifier
    that is not stored and a record over the catalog's keys holding
    [None], strings in text columns and lists of [bytes] in buffer
    columns, [add_record] then [get_record] returns the full record: the
    22 keys in catalog order, [None] where the record gave nothing, the
    identifier under [msg_id], and each given value as it was, except
    that an empty buffer list comes back as [None]. *)
Theorem add_then_get `{!PickleRoundTrip} (table id : string) (rec : pydict)
    (c : connection) (tb : sql_table) :
  store_table c table tb ->
  (forall r, r ∈ rows tb -> cell 0 r <> SText id) ->
  (forall k v, (k, v) ∈ rec -> k ∈ _keys /\ storable k v) ->
  exists c',
    add_record table (VStr id) rec c = (Ok tt, c')
    /\ fst (get_record table (VStr id) c')
       = Ok (map (fun kv => (fst kv, read_back (snd kv)))
                 (dict_set (dict_update (_defaults None) rec) "msg_id" (VStr id))).
Proof.
  intros Hstore Habsent Hrec.
  set (d := dict_set (dict_update (_defaults None) rec) "msg_id" (VStr id)).
  assert (dict_keys d = _keys) as Hkeys.
  { unfold d. rewrite dict_keys_set, dict_keys_update; [done| |].
    - intros k Hk. apply list_elem_of_fmap in Hk as ([k' v] & -> & Hin).
      by apply (Hrec k' v).
    - rewrite dict_keys_update; [in_list|].
      intros k Hk. apply list_elem_of_fmap in Hk as ([k' v] & -> & Hin).
      by apply (Hrec k' v). }
  destruct (dict_list_dict d Hkeys) as [Hlist _].
  destruct (add_record_line (VStr id) rec) as (line & Hline & _ & Hlen).
  fold d in Hline.
  assert (Forall2 (fun col v => exists s, bind_param v = Ok s
                     /\ convert_column (snd col) s = Ok (read_back v))
                  created_columns (VStr id :: line)) as Hread.
  { apply (Forall2_join
             (fun key col => lookup_str key _types = Some (snd col))
             (fun key v => getitem d key = Ok v) _ _keys);
      [apply keys_columns | |].
    - apply map_result_Forall2 in Hline. exact Hline.
    - intros k col v Hk Hcol Hget. unfold getitem in Hget.
      destruct (dict_get d k) as [v'|] eqn:Hd; [|discriminate].
      injection Hget as ->. apply (storable_read_back k); [done|].
      unfold d in Hd. apply dict_get_set_elem in Hd as [[<- ->] | Hd].
      + right. left. by exists id.
      + apply dict_get_update_elem in Hd as [Hin | Hd].
        * by apply (Hrec k v).
        * rewrite defaults_get in Hd by done. left. congruence. }
  destruct (bound_read _ _ Hread) as (row & Hrow & Hfetch & Hrowlen).
  unfold bind_params in Hrow. cbn [map_result bind_param rbind] in Hrow.
  destruct (map_result bind_param line) as [row'|] eqn:Hrow'; [|discriminate].
  cbn [rbind] in Hrow. injection Hrow as <-.
  eexists. split.
  { by apply (add_record_inserts table id rec c tb line row'). }
  rewrite (get_record_rows table id _
             (Table created_columns (Some "msg_id")
                    (rows tb ++ [SText id :: row']))).
  2:{ cbn [tables]. apply lookup_insert_eq. }
  2:{ done. }
  cbn [fst rows]. rewrite List.filter_app, filter_none.
  2:{ intros r Hr. by apply sql_eq_false, Habsent. }
  cbn [app List.filter cell]. rewrite sql_eq_refl by done.
  rewrite (fetch_columns created_columns [] (SText id :: row')) by done.
  rewrite Hfetch. cbn [rbind]. f_equal.
  rewrite Hline in Hlist. injection Hlist as Hlist. rewrite Hlist.
  rewrite map_map.
  set (d' := map (fun kv => (fst kv, read_back (snd kv))) d).
  replace (map (fun x => read_back (snd x)) d) with (map snd d')
    by (unfold d'; by rewrite map_map).
  apply (dict_list_dict d').
  unfold d', dict_keys. rewrite map_map. exact Hkeys.
Qed.

End Lookup.

(** ** Updating a stored record *)

Lemma index_of_lookup (name : string) (names : list string) (i : nat) :
  index_of name names = Some i -> names !! i = Some name.
Proof.
  revert i. induction names as [|n names IH]; intros i; simpl; [discriminate|].
  destruct (String.eqb n name) eqn:Hn.
  - intros [= <-]. apply String.eqb_eq in Hn. by subst.
  - destruct (index_of name names) as [j|]; [|discriminate].
    intros [= <-]. simpl. by apply IH.
Qed.

Lemma index_of_elem (name : string) (names : list string) :
  name ∈ names -> is_Some (index_of name names).
Proof.
  induction names as [|n names IH]; [by intros ?%elem_of_nil|].
  intros Hin. simpl. destruct (String.eqb n name) eqn:Hn; [eauto|].
  apply elem_of_cons in Hin as [->|Hin].
  - by rewrite String.eqb_refl in Hn.
  - destruct (IH Hin) as [j ->]. simpl. eauto.
Qed.

Section Assign.
Context (names : list string).

Lemma assign_cons (k : string) (keys : list string) (s : sqlval)
    (vals row : list sqlval) :
  assign names (k :: keys) (s :: vals) row
  = assign names keys vals
      (match index_of k names with Some i => <[i := s]> row | None => row end).
Proof. reflexivity. Qed.

Lemma assign_length (keys : list string) : forall vals row,
  length (assign names keys vals row) = length row.
Proof.
  induction keys as [|k keys IH]; intros [|s vals] row; try reflexivity.
  rewrite assign_cons, IH. destruct (index_of k names); [|done].
  apply length_insert.
Qed.

(** A column that no key names keeps its value. *)
Lemma assign_other (i : nat) (keys : list string) : forall vals row,
  (forall k, k ∈ keys -> index_of k names <> Some i) ->
  cell i (assign names keys vals row) = cell i row.
Proof.
  induction keys as [|k keys IH]; intros [|s vals] row Hkeys; try reflexivity.
  rewrite assign_cons, IH.
  - destruct (index_of k names) as [j|] eqn:Hk; [|done].
    unfold cell. rewrite list_lookup_insert_ne; [done|].
    intros ->. by apply (Hkeys k); [apply elem_of_cons; left|].
  - intros k' Hk'. apply Hkeys, elem_of_cons. by right.
Qed.

(** A column that a key names holds the value at the key's position. *)
Lemma assign_key (keys : list string) : forall vals row j k s i,
  NoDup keys ->
  keys !! j = Some k -> vals !! j = Some s ->
  index_of k names = Some i -> i < length row ->
  cell i (assign names keys vals row) = s.
Proof.
  induction keys as [|k0 keys IH]; intros [|s0 vals] row j k s i Hnd Hk Hs Hi Hlen;
    try (by destruct j).
  apply NoDup_cons in Hnd as [Hk0 Hnd]. rewrite assign_cons.
  destruct j as [|j]; simpl in Hk, Hs.
  - injection Hk as ->. injection Hs as ->. rewrite Hi, assign_other.
    + unfold cell. by rewrite list_lookup_insert_eq.
    + intros k' Hk' Hi'. apply index_of_lookup in Hi, Hi'.
      rewrite Hi in Hi'. injection Hi' as ->. done.
  - apply (IH vals _ j k); try done.
    destruct (index_of k0 names); [by rewrite length_insert | done].
Qed.

End Assign.

Lemma update_rows_one (pki : option nat) (matches : list sqlval -> bool)
    (change : list sqlval -> list sqlval) (row : list sqlval)
    (after : list (list sqlval)) (before : list (list sqlval)) :
  forall done,
  (forall r, r ∈ before -> matches r = false) ->
  matches row = true ->
  (forall r, r ∈ after -> matches r = false) ->
  pk_conflict pki (change row) ((done ++ before) ++ after)%list = false ->
  update_rows pki matches change done (before ++ row :: after)%list
  = Ok (done ++ before ++ change row :: after)%list.
Proof.
  induction before as [|r before IH]; intros done Hbefore Hrow Hafter Hpk.
  - cbn [app update_rows]. rewrite Hrow. rewrite app_nil_r in Hpk. rewrite Hpk.
    rewrite update_rows_no_match by done. by rewrite <- app_assoc.
  - cbn [app update_rows]. rewrite (Hbefore r) by (apply elem_of_cons; by left).
    rewrite IH; [by rewrite <- app_assoc | | done | done |].
    + intros r' Hr'. apply Hbefore, elem_of_cons. by right.
    + by rewrite <- (app_assoc done [r] before).
Qed.

Lemma NoDup_sorted {A} (leb : A -> A -> bool) (l : list A) :
  NoDup l -> NoDup (sorted leb l).
Proof. intros Hnd. by rewrite sorted_perm. Qed.

Lemma dict_get_NoDup (d : pydict) (k : string) (v : pyval) :
  NoDup (dict_keys d) -> (k, v) ∈ d -> dict_get d k = Some v.
Proof.
  induction d as [|[k0 v0] d IH]; [by intros _ ?%elem_of_nil|].
  simpl. intros [Hk0 Hnd]%NoDup_cons Hin.
  apply elem_of_cons in Hin as [[= -> ->] | Hin].
  - by rewrite String.eqb_refl.
  - destruct (String.eqb k0 k) eqn:Hk; [|by apply IH].
    apply String.eqb_eq in Hk as ->. destruct Hk0.
    apply list_elem_of_fmap. by exists (k, v).
Qed.

Section Update.
Context `{Pickle, Json, Dates, SqlExpr}.

Lemma storable_bindable (k : string) (v : pyval) : storable k v -> bindable v.
Proof.
  intros [-> | [(s & -> & _) | (bs & -> & _)]].
  - by exists SNull.
  - by exists (SText s).
  - destruct bs as [|x bs]; [by exists SNull|].
    eexists. cbn [bind_param].
    by rewrite (adapt_bufs_bytes (x :: bs)).
Qed.

(** X19. Updating a stored record rewrites the named columns of its row
    and nothing else.  In the store's table, with the identifier on one
    row of 22 values, and a non-empty mapping from columns other than
    [msg_id] to values sqlite stores as they are bound ([None], a string
    for a text column, a list of [bytes] for a buffer column),
    [update_record] executes one
    [UPDATE] whose assignments are the keys in sorted order, and leaves
    the table with the same rows in the same places except that row:
    each named column holds the bound value of the mapping, every other
    column of the row is as it was. *)
Theorem update_record_present (table id : string) (rec : pydict)
    (c : connection) (tb : sql_table) (before after : list (list sqlval))
    (row : list sqlval) :
  store_table c table tb ->
  rows tb = (before ++ row :: after)%list ->
  cell 0 row = SText id ->
  length row = 22 ->
  (forall r, r ∈ (before ++ after)%list -> cell 0 r <> SText id) ->
  rec <> [] ->
  NoDup (dict_keys rec) ->
  (forall k, k ∈ dict_keys rec -> k ∈ _keys /\ k <> "msg_id") ->
  (forall k v, (k, v) ∈ rec -> storable k v) ->
  exists row',
    update_record table (VStr id) rec c
    = (Ok tt,
       Connection
         (<[table := Table (columns tb) (primary_key tb)
                           (before ++ row' :: after)]> (tables c))
         (executed c ++ [UPDATE_SET table (sorted String.leb (dict_keys rec))]))
    /\ length row' = 22
    /\ cell 0 row' = SText id
    /\ (forall k v, (k, v) ∈ rec ->
          exists i, index_of k _keys = Some i
                    /\ bind_param v = Ok (cell i row'))
    /\ (forall i, (forall k, k ∈ dict_keys rec -> index_of k _keys <> Some i) ->
          cell i row' = cell i row).
Proof.
  intros (Htb & Hcols & Hpk) Hrows Hid Hlen Hothers Hne Hnd Hkeys Hstorable.
  assert (Forall (fun kv => bindable (snd kv)) rec) as Hvals.
  { apply Forall_forall. intros [k v] Hkv. by apply (storable_bindable k), Hstorable. }
  set (keys := sorted String.leb (dict_keys rec)).
  assert (forall k, k ∈ keys <-> k ∈ dict_keys rec) as Hsub
    by (intros k; apply elem_of_sorted).
  assert (NoDup keys) as Hndk by (by apply NoDup_sorted).
  destruct (map_result_Forall (getitem rec) bindable keys)
    as (values & Hvalues & Hbindable & Hvlen).
  { intros key Hkey. apply Hsub in Hkey.
    destruct (dict_get_keys rec key Hkey) as [v Hv].
    unfold getitem. rewrite Hv. exists v. split; [done|].
    rewrite Forall_forall in Hvals.
    by apply (Hvals (key, v)), dict_get_elem. }
  destruct (bind_params_bindable values Hbindable) as [bound Hbound].
  assert (bind_params (values ++ [VStr id])%list = Ok (bound ++ [SText id])%list)
    as Hparams by (by apply map_result_app).
  set (names := map fst created_columns).
  set (row' := assign names keys (bound ++ [SText id]) row).
  assert (forall k, k ∈ keys -> index_of k names <> Some 0) as Hnot0.
  { intros k Hk Hi. apply index_of_lookup in Hi. cbn in Hi.
    injection Hi as <-. by destruct (Hkeys "msg_id" (proj1 (Hsub _) Hk)). }
  assert (cell 0 row' = SText id) as Hid'.
  { unfold row'. by rewrite assign_other. }
  exists row'. split; [|split; [|split; [|split]]].
  - unfold update_record. fold keys.
    unfold bind at 1, lift at 1. rewrite Hvalues.
    unfold execute_UPDATE_SET, bind, record, get_table, lift, raise, put_table.
    cbn [tables executed]. rewrite Htb, Hcols. fold names.
    destruct keys as [|k0 ks] eqn:Hk.
    { destruct rec; [by destruct Hne|].
      assert (length keys = length (dict_keys (p :: rec))) as Hl
        by apply length_sorted.
      by rewrite Hk in Hl. }
    assert (forallb (fun key => str_in key names) (k0 :: ks) = true) as ->.
    { apply forallb_forall. intros key Hkey. apply list_elem_of_In in Hkey.
      apply str_in_elem. by apply Hkeys, Hsub. }
    change (index_of "msg_id" names) with (Some 0).
    cbn [negb]. rewrite length_app, Hvlen. cbn [length].
    rewrite Nat.add_1_r, Nat.eqb_refl. cbn [negb].
    rewrite Hparams, last_last, Hrows.
    rewrite (update_rows_one _ _ _ row after before []).
    + reflexivity.
    + intros r Hr. apply sql_eq_false, Hothers, elem_of_app. by left.
    + rewrite Hid. by apply sql_eq_refl.
    + intros r Hr. apply sql_eq_false, Hothers, elem_of_app. by right.
    + unfold pk_index. rewrite Hpk, Hcols. fold names.
      change (index_of "msg_id" names) with (Some 0). cbn [pk_conflict app].
      apply existsb_false. intros r Hr. fold row'. rewrite Hid'.
      destruct (sql_eq (SText id) (cell 0 r)) eqn:Heq; [|done].
      apply sql_eq_true in Heq as [Heq _]. by destruct (Hothers r Hr).
  - unfold row'. by rewrite assign_length.
  - done.
  - intros k v Hin.
    assert (k ∈ dict_keys rec) as Hk
      by (apply list_elem_of_fmap; by exists (k, v)).
    destruct (index_of_elem k _keys) as [i Hi]; [by apply Hkeys|].
    exists i. split; [done|].
    destruct (proj1 (list_elem_of_lookup keys k) (proj2 (Hsub k) Hk)) as [j Hj].
    apply map_result_Forall2 in Hvalues.
    destruct (Forall2_lookup_l _ _ _ _ _ Hvalues Hj) as (v' & Hv' & Hget).
    unfold getitem in Hget. rewrite (dict_get_NoDup rec k v Hnd Hin) in Hget.
    injection Hget as <-.
    unfold bind_params in Hbound. apply map_result_Forall2 in Hbound.
    destruct (Forall2_lookup_l _ _ _ _ _ Hbound Hv') as (s & Hs & Hbind).
    rewrite Hbind. f_equal. symmetry. unfold row'.
    apply (assign_key names keys _ _ j k); try done.
    + by rewrite lookup_app_l by (by apply lookup_lt_Some in Hs).
    + apply index_of_lookup, lookup_lt_Some in Hi. simpl in Hi. lia.
  - intros i Hi. unfold row'. apply assign_other.
    intros k Hk. apply Hi. by apply Hsub.
Qed.

End Update.

(** ** Failing writes, and deleting by filter *)

Lemma filter_sublist {A} (p : A -> bool) (l : list A) :
  sublist (List.filter p l) l.
Proof.
  induction l as [|x l IH]; simpl; [constructor|].
  destruct (p x); by constructor.
Qed.

Lemma filter_filter_negb {A} (p : A -> bool) (l : list A) :
  List.filter p (List.filter (fun x => negb (p x)) l) = [].
Proof.
  induction l as [|x l IH]; simpl; [done|].
  destruct (p x) eqn:Hp; simpl; [done|]. by rewrite Hp.
Qed.

Section Writes.
Context `{Pickle, Json, Dates, SqlExpr}.

(** X20. A write that raises has written nothing: whenever
    [add_record], [update_record], [drop_record] or
    [drop_matching_records] raises, whatever the exception, every table
    is as it was before the call. *)
Theorem failed_write_keeps_tables (table : string) (c c' : connection)
    (e : exn) :
  (forall msg_id rec,
     add_record table msg_id rec c = (Raise e, c') -> tables c' = tables c)
  /\ (forall msg_id rec,
        update_record table msg_id rec c = (Raise e, c') -> tables c' = tables c)
  /\ (forall msg_id,
        drop_record table msg_id c = (Raise e, c') -> tables c' = tables c)
  /\ (forall check,
        drop_matching_records table check c = (Raise e, c') ->
        tables c' = tables c).
Proof.
  repeat split.
  - intros msg_id rec. unfold add_record, execute_INSERT_INTO, bind, lift, record,
      get_table, raise, put_table. cbn [tables].
    repeat case_match; intros [= <-]; subst; try done; simplify_eq; done.
  - intros msg_id rec. unfold update_record, execute_UPDATE_SET, bind, lift,
      record, get_table, raise, put_table. cbn [tables].
    repeat case_match; intros [= <-]; subst; try done; simplify_eq; done.
  - intros msg_id. unfold drop_record, execute_DELETE_WHERE, bind, lift, record,
      get_table, raise, put_table. cbn [tables].
    repeat case_match; intros [= <-]; subst; try done; simplify_eq; done.
  - intros check. unfold drop_matching_records, execute_DELETE_WHERE, bind, lift,
      record, get_table, raise, put_table. cbn [tables].
    repeat case_match; intros [= <-]; subst; try done; simplify_eq; done.
Qed.

(** X21. [drop_matching_records] only removes rows, and removes every
    row its filter selects: when it returns, the table it was given keeps
    its columns and a sub-list of its rows, in order, and [find_records]
    with the same filter then finds nothing. *)
Theorem drop_matching_then_find (table : string) (check : pydict)
    (c c' : connection) :
  drop_matching_records table check c = (Ok tt, c') ->
  (exists tb tb',
     tables c !! table = Some tb
     /\ tables c' = <[table := tb']> (tables c)
     /\ columns tb' = columns tb
     /\ primary_key tb' = primary_key tb
     /\ sublist (rows tb') (rows tb))
  /\ fst (find_records table check None c') = Ok [].
Proof.
  unfold drop_matching_records, bind at 1, lift at 1.
  destruct (_render_expression check) as [[expr params]|] eqn:Hrender;
    [|discriminate].
  cbn [fst snd]. unfold execute_DELETE_WHERE, bind, record, get_table, lift,
    put_table. cbn [tables executed].
  destruct (tables c !! table) as [tb|] eqn:Htb; [|discriminate].
  destruct (bind_params params) as [bound|] eqn:Hbound; [|discriminate].
  destruct (sql_where expr (map fst (columns tb)) bound) as [p|] eqn:Hp;
    [|discriminate].
  intros [= <-]. split.
  - eexists tb, _. split; [done|]. cbn [tables]. split; [reflexivity|].
    cbn [columns primary_key rows]. repeat split. apply filter_sublist.
  - unfold find_records, bind, lift, ret. cbn [keys_given].
    rewrite Hrender. cbn [fst snd].
    unfold execute_SELECT_WHERE, bind, record, get_table, lift.
    cbn [tables executed]. rewrite lookup_insert_eq.
    cbn [result_columns columns rows]. rewrite Hbound, Hp.
    by rewrite filter_filter_negb.
Qed.

End Writes.

(** ** The shape of the records found *)

Lemma dict_keys_defaults (keys : list string) : forall d,
  NoDup keys ->
  (forall k, k ∈ keys -> k ∉ dict_keys d) ->
  dict_keys (fold_left (fun d key => dict_set d key VNone) keys d)
  = (dict_keys d ++ keys)%list.
Proof.
  induction keys as [|k keys IH]; intros d Hnd Hfresh; cbn [fold_left].
  - by rewrite app_nil_r.
  - apply NoDup_cons in Hnd as [Hk Hnd].
    assert (dict_keys (dict_set d k VNone) = (dict_keys d ++ [k])%list) as Hset.
    { assert (k ∉ dict_keys d) as Hkd
        by (apply Hfresh, elem_of_cons; by left).
      clear -Hkd. induction d as [|[k0 v0] d IHd]; simpl; [done|].
      simpl in Hkd. apply not_elem_of_cons in Hkd as [Hne Hkd].
      destruct (String.eqb k0 k) eqn:Heq.
      - apply String.eqb_eq in Heq. by subst.
      - simpl. by rewrite IHd. }
    rewrite IH; [by rewrite Hset, <- app_assoc | done |].
    intros k' Hk'. rewrite Hset. intros [Hin|Hin]%elem_of_app.
    + by apply (Hfresh k'); [apply elem_of_cons; right|].
    + apply list_elem_of_singleton in Hin. by subst.
Qed.

Lemma dict_keys_fold_set (items : pydict) : forall d,
  (forall k, k ∈ dict_keys items -> k ∈ dict_keys d) ->
  dict_keys (fold_left (fun d kv => dict_set d (fst kv) (snd kv)) items d)
  = dict_keys d.
Proof. intros d. apply (dict_keys_update items d). Qed.

Lemma combine_keys_subset {A} (keys : list string) (line : list A) (k : string) :
  k ∈ map fst (combine keys line) -> k ∈ keys.
Proof.
  revert line. induction keys as [|k0 keys IH]; intros [|x line]; simpl;
    try (by intros ?%elem_of_nil).
  intros [->|Hin]%elem_of_cons; [apply elem_of_cons; by left|].
  apply elem_of_cons. right. by apply (IH line).
Qed.

Lemma list_to_dict_keys (line : list pyval) (keys : list string) :
  NoDup keys -> dict_keys (_list_to_dict line (Some keys)) = keys.
Proof.
  intros Hnd. unfold _list_to_dict, _defaults.
  rewrite dict_keys_fold_set.
  - by rewrite (dict_keys_defaults keys []) by (done || by intros ? _ ?%elem_of_nil).
  - intros k Hk.
    rewrite (dict_keys_defaults keys []) by (done || by intros ? _ ?%elem_of_nil).
    by apply (combine_keys_subset keys line).
Qed.

Lemma list_remove_NoDup (x : string) (keys : list string) :
  NoDup keys ->
  (if str_in x keys then list_remove x keys else keys)
  = List.filter (fun k => negb (String.eqb k x)) keys.
Proof.
  intros Hnd. induction keys as [|k keys IH]; [done|].
  apply NoDup_cons in Hnd as [Hk Hnd]. cbn [str_in existsb list_remove List.filter].
  rewrite (String.eqb_sym x k).
  destruct (String.eqb k x) eqn:Heq; cbn [orb negb].
  - apply String.eqb_eq in Heq as ->. symmetry. apply filter_all.
    intros k' Hk'. apply negb_true_iff, String.eqb_neq. by intros ->.
  - fold (str_in x keys). rewrite <- (IH Hnd).
    by destruct (str_in x keys).
Qed.

Section Shapes.
Context `{Pickle, Json, Dates, SqlExpr}.

(** X22. The keys of the records found.  Without a projection every
    record [find_records] returns has the 22 keys of the catalog, in
    order.  With a projection of distinct names it has [msg_id] and then
    the other requested names in the order requested.  With the empty
    list as projection every column is selected, yet each record comes
    back as the empty dict. *)
Theorem find_records_keys (table : string) (check : pydict)
    (keys : option (list string)) (c c' : connection) (recs : list pydict) :
  match keys with Some ks => NoDup ks | None => True end ->
  find_records table check keys c = (Ok recs, c') ->
  Forall (fun rec => dict_keys rec = record_keys keys) recs.
Proof.
  intros Hnd Hfind. unfold find_records in Hfind.
  apply bind_Ok in Hfind as (_ & c1 & _ & Hfind).
  apply bind_Ok in Hfind as (ea & c2 & _ & Hfind).
  apply bind_Ok in Hfind as (matches & c3 & _ & Hfind).
  unfold ret in Hfind. injection Hfind as <- _.
  apply Forall_map, Forall_forall. intros line _.
  destruct keys as [[|k0 ks]|]; cbn [keys_given record_keys].
  - reflexivity.
  - cbn [default from_option id].
    rewrite (list_remove_NoDup "msg_id" (k0 :: ks) Hnd).
    apply list_to_dict_keys. apply NoDup_cons. split.
    + intros Hin. apply list_elem_of_In, filter_In in Hin as [_ Hin].
      by rewrite String.eqb_refl in Hin.
    + apply NoDup_ListNoDup, List.NoDup_filter. by apply NoDup_ListNoDup.
  - apply (list_to_dict_keys line _keys NoDup_keys).
Qed.

End Shapes.

(** ** Buffer lists that are not lists of [bytes] *)

Lemma map_result_tobytes_like (l : list pyval) :
  Forall (fun v => is_bytes_like v = true) l ->
  map_result tobytes l = Ok (map block_bytes l).
Proof.
  induction 1 as [|v l Hv _ IH]; [done|].
  cbn [map_result map]. rewrite IH.
  by destruct v.
Qed.

Lemma map_result_tobytes_raises (l : list pyval) :
  Exists (fun v => is_bytes_like v = false) l ->
  map_result tobytes l
  = Raise (TypeError "memoryview: a bytes-like object is required").
Proof.
  induction l as [|v l IH]; intros Hex; [by apply Exists_nil in Hex|].
  cbn [map_result].
  destruct (is_bytes_like v) eqn:Hv.
  - apply Exists_cons in Hex as [Hex|Hex]; [congruence|].
    rewrite (IH Hex). by destruct v.
  - by destruct v.
Qed.

(** X23. Memoryviews come back as [bytes]: a non-empty list of blocks,
    each a [bytes] or a [memoryview], is encoded by [_adapt_bufs] and
    decoded by [_convert_bufs] to the list of the blocks' contents, in
    order, every block now a [bytes]. *)
Theorem bufs_bytes_like `{PickleRoundTrip} (l : list pyval) :
  l <> [] ->
  Forall (fun v => is_bytes_like v = true) l ->
  rbind (_adapt_bufs (VList l)) _convert_bufs
  = Ok (VList (map (fun v => VBytes (block_bytes v)) l)).
Proof.
  intros Hne Hall. destruct l as [|x l]; [done|].
  unfold _adapt_bufs. cbn [truthy getitem0 rbind iterate].
  assert (is_bytes_like x = true) as -> by by apply Forall_cons in Hall as [? _].
  rewrite (map_result_tobytes_like _ Hall). cbn [rbind _convert_bufs to_bytes].
  rewrite pickle_loads_dumps. by rewrite map_map.
Qed.

Section Unbindable.
Context `{Pickle, Json, Dates}.

(** X24. A list that is not a list of blocks is never stored.  When its
    first element is neither [bytes] nor a [memoryview], [_adapt_bufs]
    hands the list back as it is, which sqlite3 cannot bind: binding raises;
    when the first element is a block but a later one is not,
    [_adapt_bufs] itself raises [TypeError], and so does binding. *)
Theorem bufs_not_blocks (x : pyval) (l : list pyval) :
  (is_bytes_like x = false ->
   _adapt_bufs (VList (x :: l)) = Ok (VList (x :: l))
   /\ exists e, bind_param (VList (x :: l)) = Raise e)
  /\ (is_bytes_like x = true ->
      Exists (fun v => is_bytes_like v = false) l ->
      exists msg,
        _adapt_bufs (VList (x :: l)) = Raise (TypeError msg)
        /\ bind_param (VList (x :: l)) = Raise (TypeError msg)).
Proof.
  split.
  - intros Hx. split; [|exists InterfaceError]; unfold bind_param, _adapt_bufs;
      cbn [truthy getitem0 rbind]; by rewrite Hx.
  - intros Hx Hex. eexists. unfold bind_param, _adapt_bufs.
    cbn [truthy getitem0 rbind iterate]. rewrite Hx.
    rewrite (map_result_tobytes_raises (x :: l)); [done|].
    by apply Exists_cons_tl.
Qed.

End Unbindable.

(** ** The history *)

Section HistoryIds.
Context `{Pickle, Json, Dates, SqlExpr}.

(** X26. [get_history] lists every stored record once: on the store's
    table it returns the identifiers of some rearrangement of the rows,
    one per row, in which the stored [submitted] values ascend (a missing
    one before every text); the list is as long as the table and the
    call raises nothing. *)
Theorem get_history_lists_all (table : string) (c : connection)
    (tb : sql_table) :
  store_table c table tb ->
  exists rws,
    fst (get_history table c) = Ok (map (fun row => plain (cell 0 row)) rws)
    /\ rws ≡ₚ rows tb
    /\ Sorted (fun a b => sqlval_leb (cell 5 a) (cell 5 b) = true) rws
    /\ length rws = length (rows tb).
Proof.
  intros (Htb & Hcols & _).
  destruct (get_history_sorted table c tb Htb Hcols) as (Hrun & Hsorted & Hperm).
  exists (sorted by_submitted (rows tb)). rewrite Hrun. repeat split; try done.
  by rewrite Hperm.
Qed.

End HistoryIds.

(** ** Timestamps as text *)

Lemma zero_padded_go_acc (w : nat) : forall n acc,
  zero_padded_go w n acc = zero_padded_go w n "" ++ acc.
Proof.
  induction w as [|w IH]; intros n acc; cbn [zero_padded_go]; [done|].
  rewrite (IH _ (String (digit n) acc)), (IH _ (String (digit n) "")).
  by rewrite append_assoc_local.
Qed.

Lemma zero_padded_S (w : nat) (n : Z) :
  zero_padded (S w) n = zero_padded w (n / 10) ++ String (digit n) "".
Proof. unfold zero_padded. cbn [zero_padded_go]. apply zero_padded_go_acc. Qed.

Lemma digit_compare (a b : Z) :
  Ascii.compare (digit a) (digit b) = (a mod 10 ?= b mod 10)%Z.
Proof.
  unfold digit.
  assert (0 <= a mod 10 < 10)%Z as Ha by (apply Z.mod_pos_bound; lia).
  assert (0 <= b mod 10 < 10)%Z as Hb by (apply Z.mod_pos_bound; lia).
  generalize dependent (a mod 10)%Z. generalize dependent (b mod 10)%Z.
  intros j Hj i Hi.
  assert (i = 0 \/ i = 1 \/ i = 2 \/ i = 3 \/ i = 4 \/ i = 5 \/ i = 6
          \/ i = 7 \/ i = 8 \/ i = 9)%Z as Hi' by lia.
  assert (j = 0 \/ j = 1 \/ j = 2 \/ j = 3 \/ j = 4 \/ j = 5 \/ j = 6
          \/ j = 7 \/ j = 8 \/ j = 9)%Z as Hj' by lia.
  clear Hi Hj.
  repeat (destruct Hi' as [->|Hi']); try subst i;
    repeat (destruct Hj' as [->|Hj']); try subst j; reflexivity.
Qed.

Lemma compare_cons (c : ascii) (s t : string) :
  String.compare (String c s) (String c t) = String.compare s t.
Proof.
  cbn [String.compare]. unfold Ascii.compare. by rewrite N.compare_refl.
Qed.

Lemma compare_same (s : string) : String.compare s s = Eq.
Proof. induction s as [|c s IH]; [done|]. by rewrite compare_cons. Qed.

(** Zero-padded numbers of one width compare as the numbers do. *)
Lemma zero_padded_compare (w : nat) : forall (a b : Z) (s t : string),
  (0 <= a < 10 ^ Z.of_nat w)%Z -> (0 <= b < 10 ^ Z.of_nat w)%Z ->
  String.compare (zero_padded w a ++ s) (zero_padded w b ++ t)
  = match (a ?= b)%Z with Eq => String.compare s t | o => o end.
Proof.
  induction w as [|w IH]; intros a b s t Ha Hb.
  - change (10 ^ Z.of_nat 0)%Z with 1%Z in *.
    assert (a = 0%Z) as -> by lia. assert (b = 0%Z) as -> by lia. done.
  - rewrite !zero_padded_S, !append_assoc_local.
    rewrite Nat2Z.inj_succ, Z.pow_succ_r in Ha, Hb by lia.
    rewrite IH by (Z.to_euclidean_division_equations; lia).
    change (String (digit a) "" ++ s) with (String (digit a) s).
    change (String (digit b) "" ++ t) with (String (digit b) t).
    cbn [String.compare]. rewrite digit_compare.
    destruct (Z.compare_spec (a / 10) (b / 10)) as [Hq|Hq|Hq];
      destruct (Z.compare_spec (a mod 10) (b mod 10)) as [Hr|Hr|Hr];
      destruct (Z.compare_spec a b) as [Hab|Hab|Hab];
      try reflexivity; exfalso; Z.to_euclidean_division_equations; lia.
Qed.

Lemma fraction_compare (ua ub : Z) (off : string) :
  (0 <= ua < 1000000)%Z -> (0 <= ub < 1000000)%Z ->
  off = "" \/ (exists c rest, off = String c rest /\ Ascii.compare c "." = Lt) ->
  String.compare
    ((if (ua =? 0)%Z then "" else "." ++ zero_padded 6 ua) ++ off)
    ((if (ub =? 0)%Z then "" else "." ++ zero_padded 6 ub) ++ off)
  = (ua ?= ub)%Z.
Proof.
  intros Ha Hb Hoff.
  assert (forall s, String.compare off (String "." s) = Lt) as Hlt.
  { intros s. destruct Hoff as [->|(c & rest & -> & Hc)]; [done|].
    cbn [String.compare]. by rewrite Hc. }
  assert (forall s, String.compare (String "." s) off = Gt) as Hgt.
  { intros s. rewrite String.compare_antisym, Hlt. done. }
  destruct (Z.eqb_spec ua 0) as [->|Hua], (Z.eqb_spec ub 0) as [->|Hub].
  - apply compare_same.
  - change ("" ++ off) with off. change (("." ++ ?s) ++ off) with (String "." (s ++ off)).
    rewrite Hlt. symmetry. apply Z.compare_lt_iff. lia.
  - change ("" ++ off) with off. change (("." ++ ?s) ++ off) with (String "." (s ++ off)).
    rewrite Hgt. symmetry. apply Z.compare_gt_iff. lia.
  - change (("." ++ ?s) ++ off) with (String "." (s ++ off)).
    rewrite compare_cons, zero_padded_compare by (cbn; lia).
    rewrite compare_same. by destruct (ua ?= ub)%Z.
Qed.

(** The texts of two datetimes with one UTC offset compare as the
    datetimes do field by field. *)
Lemma isoformat_compare (a b : datetime) :
  valid_datetime a -> valid_datetime b -> tzinfo a = tzinfo b ->
  String.compare (isoformat a) (isoformat b) = calendar_compare a b.
Proof.
  intros (Hy & Hm & Hd & Hh & Hmi & Hs & Hus)
         (Hy' & Hm' & Hd' & Hh' & Hmi' & Hs' & Hus') Htz.
  assert (forall y m, days_in_month y m <= 31)%Z as Hdim.
  { intros y m. unfold days_in_month. repeat case_match; lia. }
  pose proof (Hdim (year a) (month a)). pose proof (Hdim (year b) (month b)).
  unfold isoformat, calendar_compare. rewrite <- Htz.
  set (off := match tzinfo a with None => "" | Some o => _ end).
  assert (off = "" \/ (exists c rest, off = String c rest
                                      /\ Ascii.compare c "." = Lt)) as Hoff.
  { subst off. destruct (tzinfo a) as [o|]; [right|by left].
    destruct (o <? 0)%Z; eexists _, _; (split; [reflexivity|done]). }
  clearbody off.
  rewrite zero_padded_compare by (cbn; lia).
  change ("-" ++ ?s) with (String "-" s). rewrite compare_cons.
  rewrite zero_padded_compare by (cbn; lia).
  change ("-" ++ ?s) with (String "-" s). rewrite compare_cons.
  rewrite zero_padded_compare by (cbn; lia).
  change ("T" ++ ?s) with (String "T" s). rewrite compare_cons.
  rewrite zero_padded_compare by (cbn; lia).
  change (":" ++ ?s) with (String ":" s). rewrite compare_cons.
  rewrite zero_padded_compare by (cbn; lia).
  change (":" ++ ?s) with (String ":" s). rewrite compare_cons.
  rewrite zero_padded_compare by (cbn; lia).
  rewrite fraction_compare by done. reflexivity.
Qed.

(** *** The calendar *)

Lemma year_days_succ (y : Z) :
  (year_days y = year_days (y - 1) + 365 + (if is_leap y then 1 else 0))%Z.
Proof.
  unfold year_days, is_leap.
  destruct (Z.eqb_spec (y mod 4) 0), (Z.eqb_spec (y mod 100) 0),
    (Z.eqb_spec (y mod 400) 0); cbn [andb orb negb];
    Z.to_euclidean_division_equations; lia.
Qed.

Lemma year_days_mono (y y' : Z) :
  (y <= y' -> year_days y + 365 * (y' - y) <= year_days y')%Z.
Proof.
  revert y'.
  apply (Z.le_ind (fun y' => year_days y + 365 * (y' - y) <= year_days y')%Z);
    [solve_proper | lia |].
  intros m Hm IH. rewrite (year_days_succ (Z.succ m)).
  replace (Z.succ m - 1)%Z with m by lia. destruct (is_leap _); lia.
Qed.

Lemma days_from_civil_year_days (y m d : Z) :
  (days_from_civil y m d
   = year_days (if m <=? 2 then y - 1 else y)
     + (153 * (if 2 <? m then m - 3 else m + 9) + 2) / 5 + d - 719469)%Z.
Proof. unfold days_from_civil, year_days. cbv zeta. lia. Qed.

Ltac month_cases m :=
  let Hm := fresh in
  assert (m = 1 \/ m = 2 \/ m = 3 \/ m = 4 \/ m = 5 \/ m = 6 \/ m = 7
          \/ m = 8 \/ m = 9 \/ m = 10 \/ m = 11 \/ m = 12)%Z as Hm by lia;
  repeat (destruct Hm as [->|Hm]); [..|subst m].

Ltac calc_months :=
  repeat match goal with
  | |- context [(?a <=? ?b)%Z] =>
      let v := eval vm_compute in (a <=? b)%Z in
      change (a <=? b)%Z with v; cbv iota
  | |- context [(?a <? ?b)%Z] =>
      let v := eval vm_compute in (a <? b)%Z in
      change (a <? b)%Z with v; cbv iota
  | |- context [(?a =? ?b)%Z] =>
      let v := eval vm_compute in (a =? b)%Z in
      change (a =? b)%Z with v; cbv iota
  | |- context [((153 * ?k + 2) / 5)%Z] =>
      let v := eval vm_compute in ((153 * k + 2) / 5)%Z in
      change ((153 * k + 2) / 5)%Z with v
  | |- context [nth ?i ?l 0%Z] =>
      let v := eval vm_compute in (nth i l 0%Z) in
      change (nth i l 0%Z) with v
  end; cbn [andb orb].

(** [days_from_civil] counts the days before the year, the days before
    the month, and the days of the month. *)
Lemma days_from_civil_split (y m d : Z) :
  (1 <= m <= 12)%Z ->
  (days_from_civil y m d
   = year_days (y - 1) + days_before_month y m + d - 719163)%Z.
Proof.
  intros Hm. rewrite days_from_civil_year_days. unfold days_before_month.
  pose proof (year_days_succ y) as Hy.
  month_cases m; clear Hm; calc_months; destruct (is_leap y); lia.
Qed.

(** Within a year the days before a month and the days of a month order
    the dates. *)
Lemma days_before_month_step (y m : Z) :
  (1 <= m <= 12)%Z ->
  (0 <= days_before_month y m
   /\ days_before_month y m + days_in_month y m
      <= (if (m =? 12)%Z then 365 + (if is_leap y then 1 else 0)
          else days_before_month y (m + 1)))%Z.
Proof.
  intros Hm. unfold days_before_month, days_in_month.
  set (leap := is_leap y).
  month_cases m; clear Hm; calc_months; destruct leap; lia.
Qed.

Lemma days_before_month_mono (y m m' : Z) :
  (1 <= m -> m < m' -> m' <= 12 ->
   days_before_month y m + days_in_month y m <= days_before_month y m')%Z.
Proof.
  intros Hm Hlt Hm'. revert m' Hlt Hm'.
  apply (Z.lt_ind (fun m' => m' <= 12 -> days_before_month y m + days_in_month y m
                             <= days_before_month y m')%Z); [solve_proper| |].
  - intros Hle. pose proof (days_before_month_step y m) as [_ Hstep]; [lia|].
    destruct (Z.eqb_spec m 12); [lia|]. by rewrite <- Z.add_1_r.
  - intros k Hk IH Hle.
    pose proof (days_before_month_step y k) as [_ Hstep]; [lia|].
    destruct (Z.eqb_spec k 12); [lia|]. rewrite <- Z.add_1_r.
    assert (1 <= days_in_month y k)%Z
      by (unfold days_in_month; repeat case_match; lia).
    lia.
Qed.

(** The day numbers of two dates compare as the dates do. *)
Lemma days_from_civil_compare (y m d y' m' d' : Z) :
  (1 <= m <= 12 -> 1 <= d <= days_in_month y m ->
   1 <= m' <= 12 -> 1 <= d' <= days_in_month y' m' ->
   (days_from_civil y m d ?= days_from_civil y' m' d')
   = then_compare (y ?= y') (then_compare (m ?= m') (d ?= d')))%Z.
Proof.
  intros Hm Hd Hm' Hd'. rewrite !days_from_civil_split by done.
  assert (forall y m d, 1 <= m <= 12 -> 1 <= d <= days_in_month y m ->
            0 <= days_before_month y m + d - 1
                 < 365 + (if is_leap y then 1 else 0))%Z as Hrange.
  { intros y0 m0 d0 Hm0 Hd0.
    pose proof (days_before_month_step y0 m0 Hm0) as [H0 Hstep].
    destruct (Z.eqb_spec m0 12); [lia|].
    pose proof (days_before_month_step y0 12) as [_ H12]; [lia|].
    change (12 =? 12)%Z with true in H12. cbv iota in H12.
    assert (1 <= days_in_month y0 12)%Z
      by (unfold days_in_month; repeat case_match; lia).
    pose proof (days_before_month_mono y0 m0 12). lia. }
  pose proof (Hrange y m d Hm Hd). pose proof (Hrange y' m' d' Hm' Hd').
  destruct (Z.compare_spec y y') as [->|Hy|Hy]; cbn [then_compare].
  - destruct (Z.compare_spec m m') as [->|Hmm|Hmm]; cbn [then_compare].
    + destruct (Z.compare_spec d d'); [apply Z.compare_eq_iff | apply Z.compare_lt_iff | apply Z.compare_gt_iff]; lia.
    + apply Z.compare_lt_iff.
      pose proof (days_before_month_mono y' m m'). lia.
    + apply Z.compare_gt_iff.
      pose proof (days_before_month_mono y' m' m). lia.
  - apply Z.compare_lt_iff.
    pose proof (year_days_mono y (y' - 1)). pose proof (year_days_succ y).
    lia.
  - apply Z.compare_gt_iff.
    pose proof (year_days_mono y' (y - 1)). pose proof (year_days_succ y').
    lia.
Qed.

(** With one UTC offset the instants compare as the fields do. *)
Lemma calendar_instant (a b : datetime) :
  valid_datetime a -> valid_datetime b -> tzinfo a = tzinfo b ->
  calendar_compare a b = (utc_microseconds a ?= utc_microseconds b)%Z.
Proof.
  intros (Hy & Hm & Hd & Hh & Hmi & Hs & Hus)
         (Hy' & Hm' & Hd' & Hh' & Hmi' & Hs' & Hus') Htz.
  unfold calendar_compare, utc_microseconds. rewrite <- Htz.
  pose proof (days_from_civil_compare (year a) (month a) (day a)
                (year b) (month b) (day b) Hm Hd Hm' Hd') as Hdays.
  generalize dependent (days_from_civil (year a) (month a) (day a)).
  generalize dependent (days_from_civil (year b) (month b) (day b)).
  intros db da Hdays.
  generalize (default 0%Z (tzinfo a)). intros off.
  symmetry.
  destruct (Z.compare_spec (year a) (year b)) as [Hey|Hey|Hey];
    cbn [then_compare] in *;
    [destruct (Z.compare_spec (month a) (month b)) as [Hem|Hem|Hem];
     cbn [then_compare] in *;
     [destruct (Z.compare_spec (day a) (day b)) as [Hed|Hed|Hed];
      cbn [then_compare] in *|..]|..];
    try (rewrite Z.compare_lt_iff in Hdays; apply Z.compare_lt_iff; lia);
    try (rewrite Z.compare_gt_iff in Hdays; apply Z.compare_gt_iff; lia).
  apply Z.compare_eq_iff in Hdays as ->.
  destruct (Z.compare_spec (hour a) (hour b)) as [Heh|Heh|Heh];
    cbn [then_compare];
    [destruct (Z.compare_spec (minute a) (minute b)) as [Hemi|Hemi|Hemi];
     cbn [then_compare];
     [destruct (Z.compare_spec (second a) (second b)) as [Hes|Hes|Hes];
      cbn [then_compare];
      [destruct (Z.compare_spec (microsecond a) (microsecond b))|..]|..]|..];
    (apply Z.compare_eq_iff || apply Z.compare_lt_iff || apply Z.compare_gt_iff);
    lia.
Qed.

(** X27. With one UTC offset the stored order is chronological: for two
    datetimes of the Gregorian calendar that carry the same UTC offset
    once [ensure_timezone] has been applied, the texts [_adapt_timestamp]
    stores compare, as sqlite compares text, exactly as the instants the
    datetimes denote. *)
Theorem same_offset_chronological `{Dates} (a b : datetime) :
  valid_datetime a -> valid_datetime b ->
  tzinfo (ensure_timezone a) = tzinfo (ensure_timezone b) ->
  sqlval_compare (SText (_adapt_timestamp a)) (SText (_adapt_timestamp b))
  = (utc_microseconds (ensure_timezone a)
     ?= utc_microseconds (ensure_timezone b))%Z.
Proof.
  intros Ha Hb Htz. cbn [sqlval_compare]. unfold _adapt_timestamp.
  assert (forall dt, valid_datetime dt -> valid_datetime (ensure_timezone dt))
    as Hvalid.
  { intros dt Hdt. unfold ensure_timezone. by destruct (tzinfo dt). }
  rewrite isoformat_compare by auto.
  apply calendar_instant; auto.
Qed.

(** * Runs on concrete inputs *)

(** ** The runtime's pickle keeps the contract *)

Lemma unframe_block (b : bytes) : forall (cur rest : bytes) (k : list bytes) (fuel : nat),
  (forall fuel', length rest < fuel' -> Run.unframe fuel' rest [] = Some k) ->
  length (Run.frame_block b ++ rest)%list < fuel ->
  Run.unframe fuel (Run.frame_block b ++ rest)%list cur = Some ((rev cur ++ b)%list :: k).
Proof.
  induction b as [|x b IH]; intros cur rest k fuel Hk Hlen.
  - destruct fuel as [|fuel]; [simpl in Hlen; lia|].
    simpl in *. rewrite Hk by lia. by rewrite app_nil_r.
  - destruct fuel as [|fuel]; [simpl in Hlen; lia|].
    cbn [Run.frame_block app Run.unframe].
    rewrite (IH (x :: cur) rest k) by (simpl in *; auto; lia).
    simpl. by rewrite <- app_assoc.
Qed.

Lemma unframe_blocks (bs : list bytes) : forall fuel,
  length (concat (map Run.frame_block bs)) < fuel ->
  Run.unframe fuel (concat (map Run.frame_block bs)) [] = Some bs.
Proof.
  induction bs as [|b bs IH]; intros fuel Hlen.
  - destruct fuel; [simpl in Hlen; lia | reflexivity].
  - simpl. rewrite (unframe_block b [] _ bs); auto.
Qed.

#[global] Instance run_pickle_roundtrip : @PickleRoundTrip Run.pickle.
Proof.
  intros bs. cbn [pickle_loads pickle_dumps Run.pickle].
  unfold Run.loads, Run.dumps. rewrite map_map.
  rewrite (map_ext _ Run.frame_block) by reflexivity.
  rewrite unframe_blocks; [reflexivity | lia].
Qed.

#[local] Existing Instance Run.pickle.
#[local] Existing Instance Run.json.
#[local] Existing Instance Run.dates.
#[local] Existing Instance Run.sql.
#[local] Existing Instance Run.builtins.
Import Fixtures.

(** ** The small store *)

Lemma store1_table :
  tables store1 !! "tasks" = Some (Table created_columns (Some "msg_id") [row_m1]).
Proof. vm_compute. reflexivity. Qed.

Example init_db_fresh :
  fst (_init_db 1 "tasks" empty_connection) = Ok (Some "tasks")
  /\ executed store0
     = [PRAGMA_table_info "tasks"; CREATE_TABLE_IF_NOT_EXISTS "tasks"].
Proof. split; vm_compute; reflexivity. Qed.

Example find_records_run :
  fst (find_records "tasks" [("msg_id", VStr "m1")]
         (Some ["queue"; "msg_id"]) store1)
  = Ok [[("msg_id", VStr "m1"); ("queue", VStr "q")]].
Proof. vm_compute. reflexivity. Qed.

(** The empty projection is no projection for [if keys:], but it is for
    [_list_to_dict]: the records come back empty. *)
Example find_records_empty_projection :
  fst (find_records "tasks" [("msg_id", VStr "m1")] (Some []) store1)
  = Ok [[]].
Proof. vm_compute. reflexivity. Qed.

Example init_db_drifted_run :
  let old := Table [("msg_id", "text"); ("header", "text")] None
                   [[SText "m0"; SText "h"]] in
  let c := Connection {[ "tasks" := old; "tasks_1" := old ]} [] in
  fst (_init_db 5 "tasks" c) = Ok (Some "tasks_2")
  /\ tables (snd (_init_db 5 "tasks" c)) !! "tasks" = Some old.
Proof. split; vm_compute; reflexivity. Qed.

(** ** The theorems at concrete inputs *)

Lemma bufs_roundtrip_witness :
  rbind (_adapt_bufs (VList (map VBytes [[Byte.x61; Byte.x00]; []; [Byte.xff]])))
        _convert_bufs
  = Ok (VList (map VBytes [[Byte.x61; Byte.x00]; []; [Byte.xff]])).
Proof. exact (proj1 (bufs_roundtrip _)). Defined.

Lemma buffer_field_filterable_witness :
  _render_expression [("result_buffers", VStr "x")]
  = Ok ("result_buffers = ?", [VStr "x"]).
Proof.
  apply (proj2 (buffer_field_filterable "result_buffers" ltac:(in_list))).
  reflexivity.
Defined.

Lemma render_membership_witness :
  _render_expression
    [("engine_uuid", VDict [("$in", VList [VStr "a"; VStr "b"; VStr "c"])])]
  = Ok ("( engine_uuid = ? OR engine_uuid = ? OR engine_uuid = ? )",
        [VStr "a"; VStr "b"; VStr "c"]).
Proof.
  apply (proj1 (render_membership "engine_uuid" [VStr "a"; VStr "b"; VStr "c"]
                  ltac:(in_list) eq_refl)).
Defined.

Lemma ordinary_tasks (j : nat) : ordinary_name (candidate "tasks" j).
Proof. destruct j; split; reflexivity. Qed.



(** Six tables of another shape, six renames. *)
Example init_db_six_renames :
  fst (_init_db 10 "t" (drifted_connection 5)) = Ok (Some "t_6")
  /\ fst (_init_db 6 "t" (drifted_connection 5)) = Ok None.
Proof. split; vm_compute; reflexivity. Qed.

(** ** A table named [sqlite] *)


(** A name with a quote in it ends the quoted name early: the first
    [PRAGMA] is a syntax error. *)
Example init_db_quote :
  _init_db 5 "it's" empty_connection
  = (Raise (OperationalError "syntax error"),
     Connection ∅ [PRAGMA_table_info "it's"]).
Proof. vm_compute. reflexivity. Qed.

(** Opened twice on a fresh database, the store is bound to [tasks] and
    then to [tasks_1]: sqlite reports [TEXT] for the [text] that was
    declared, and the check expects [text]. *)
Example init_db_twice :
  fst (_init_db 5 "tasks" store1) = Ok (Some "tasks_1")
  /\ head (table_columns store1 "tasks") = Some ("msg_id", "TEXT")
  /\ head expected_columns = Some ("msg_id", "text")
  /\ fst (get_history "tasks_1" (snd (_init_db 5 "tasks" store1))) = Ok [].
Proof. repeat split; vm_compute; reflexivity. Qed.

Lemma validation_before_engine_witness :
  let check := [("queue", VDict [("$in", VList [VStr "a"; VNone])]);
                ("error", VDict [("$regex", VStr "x")])] in
  exists e e',
    drop_matching_records "tasks" check store1 = (Raise e, store1)
    /\ find_records "tasks" check (Some ["queue"]) store1 = (Raise e', store1)
    /\ (~ list_comparison check ->
        raised_by_validation e /\ raised_by_validation e').
Proof.
  cbv zeta.
  apply (proj2 (proj2 (validation_before_engine "tasks" _ (Some ["queue"]) store1))).
  exists "error", [("$regex", VStr "x")], "$regex", (VStr "x").
  split; [in_list|]. split; [in_list|]. by left.
Defined.

(** ** Filters that are not rejected *)

(** C5, as stated, fails.  [None] as the value of [$in] is a null value
    combined with member-of, and it is not rejected: the translator makes
    [queue IS NULL] of it, and [find_records] executes the [SELECT].  And
    with a list under a comparison operator the translator reads its
    unbound [join]: what is raised, before the unknown operator is looked
    at, is [UnboundLocalError]. *)
Lemma null_membership_executed :
  let check := [("queue", VDict [("$in", VNone)])] in
  _render_expression check = Ok ("queue IS NULL", [])
  /\ (exists recs, fst (find_records "tasks" check None store1) = Ok recs)
  /\ executed (snd (find_records "tasks" check None store1))
     = (executed store1 ++ [SELECT_WHERE None "tasks" "queue IS NULL"])%list
  /\ executed (snd (drop_matching_records "tasks" check store1))
     = (executed store1 ++ [DELETE_WHERE "tasks" "queue IS NULL"])%list
  /\ _render_expression
       [("queue", VDict [("$lt", VList [VInt 1]); ("$bogus", VInt 1)])]
     = Raise (UnboundLocalError "join").
Proof.
  cbv zeta. split; [vm_compute; reflexivity|].
  split; [eexists; vm_compute; reflexivity|].
  repeat split; vm_compute; reflexivity.
Qed.

Lemma find_records_projection_witness :
  Forall (fun rec => exists v rest, rec = ("msg_id", v) :: rest)
         [[("msg_id", VStr "m1"); ("queue", VStr "q")]].
Proof.
  apply (proj1 (find_records_projection "tasks" [("msg_id", VStr "m1")]
                  ["queue"; "msg_id"] store1 ltac:(discriminate))
           _ (snd (find_records "tasks" [("msg_id", VStr "m1")]
                     (Some ["queue"; "msg_id"]) store1))).
  vm_compute. reflexivity.
Defined.

Lemma add_record_duplicate_witness :
  exists e c',
    add_record "tasks" (VStr "m1") [("queue", VStr "other")] store1
    = (Raise e, c')
    /\ tables c' = tables store1
    /\ (Forall (fun kv => bindable (snd kv)) [("queue", VStr "other")] ->
        e = IntegrityError).
Proof.
  apply (add_record_duplicate "tasks" "m1" [("queue", VStr "other")] store1
           (Table created_columns (Some "msg_id") [row_m1])).
  - split; [exact store1_table | split; reflexivity].
  - exists row_m1. split; [|reflexivity]. apply list_elem_of_singleton. reflexivity.
Defined.

Lemma update_record_absent_witness :
  exists c',
    update_record "tasks" (VStr "m2") [("queue", VStr "x"); ("error", VNone)] store1
    = (Ok tt, c')
    /\ tables c' = tables store1.
Proof.
  apply (update_record_absent "tasks" "m2" [("queue", VStr "x"); ("error", VNone)]
           store1 (Table created_columns (Some "msg_id") [row_m1])).
  - exact store1_table.
  - reflexivity.
  - intros row Hrow. apply list_elem_of_singleton in Hrow. subst row. discriminate.
  - discriminate.
  - intros k Hk. apply list_elem_of_In in Hk. simpl in Hk.
    destruct Hk as [<-|[<-|[]]]; in_list.
  - repeat constructor; eexists; reflexivity.
Defined.

(** ** Updates with nothing to set *)

(** C10, as stated, fails for the empty mapping: [update_record(id, {})]
    on a store without [id] sends [UPDATE ... SET  WHERE msg_id == ?],
    which sqlite refuses. *)
Lemma update_record_empty_raises :
  let c := snd (_init_db 1 "tasks" (Connection ∅ [])) in
  (exists tb, tables c !! "tasks" = Some tb /\ rows tb = [])
  /\ (forall k, k ∈ dict_keys [] -> k ∈ _keys)
  /\ fst (update_record "tasks" (VStr "m1") [] c)
     = Raise (OperationalError "syntax error").
Proof.
  cbv zeta. repeat split.
  - eexists. split; vm_compute; reflexivity.
  - by intros k ?%elem_of_nil.
Qed.

(** ** History with two UTC offsets *)

(** C8 fails on the code. [submitted] is stored as the text of
    [isoformat()], and [ORDER by submitted ASC] compares that text.
    Record [a] was submitted before record [b], but its timestamp carries
    another UTC offset and its text sorts after the text of [b]:
    [get_history] answers [b, a], in whichever order the two were added. *)
Theorem history_not_chronological :
  (utc_microseconds submitted_a < utc_microseconds submitted_b)%Z
  /\ _adapt_timestamp submitted_a = "2024-01-01T10:00:00+05:00"
  /\ _adapt_timestamp submitted_b = "2024-01-01T08:00:00+00:00"
  /\ fst (get_history "tasks" (snd (add_b (snd (add_a store0)))))
     = Ok [VStr "b"; VStr "a"]
  /\ fst (get_history "tasks" (snd (add_a (snd (add_b store0)))))
     = Ok [VStr "b"; VStr "a"].
Proof. repeat split; vm_compute; reflexivity. Qed.

(** With one UTC offset throughout, the text order is the order of the
    instants: three records added out of order come back in order. *)
Example history_same_offset :
  let t1 := Datetime 2024 1 1 8 0 0 0 (Some 0%Z) in
  let t2 := Datetime 2024 1 1 8 0 0 500000 (Some 0%Z) in
  let t3 := Datetime 2024 1 2 7 30 0 0 (Some 0%Z) in
  let add id t := add_record "tasks" (VStr id) [("submitted", VDatetime t)] in
  let c := snd (add "b" t2 (snd (add "c" t3 (snd (add "a" t1 store0))))) in
  fst (get_history "tasks" c) = Ok [VStr "a"; VStr "b"; VStr "c"].
Proof. vm_compute. reflexivity. Qed.

(** ** The runtime's [msg_id==?] keeps the contract *)

#[global] Instance run_by_id : @SqlById RunById.sql.
Proof.
  intros names v idx Hidx. cbn [sql_where RunById.sql].
  change (String.eqb "msg_id==?" "msg_id==?") with true. cbv iota.
  by rewrite Hidx.
Qed.

Lemma store0_table :
  tables store0 !! "tasks" = Some (Table created_columns (Some "msg_id") []).
Proof. vm_compute. reflexivity. Qed.

Lemma store3_table : tables store3 !! "tasks" = Some table3.
Proof. vm_compute. reflexivity. Qed.

(** The rows are in the order the records were added; the history is in
    the order they were submitted. *)
Example store3_history :
  map (cell 0) (rows table3) = [SText "a"; SText "c"; SText "b"]
  /\ fst (get_history "tasks" store3) = Ok [VStr "a"; VStr "b"; VStr "c"].
Proof. split; vm_compute; reflexivity. Qed.

(** [repr] of identifiers: quotes and backslashes. *)
Example repr_run :
  repr (VStr "m1") = "'m1'"
  /\ repr (VStr "it's")
     = String (ascii_of_nat 34) ("it's" ++ String (ascii_of_nat 34) "")
  /\ repr (VStr "a\b") = "'a\\b'"
  /\ repr (VStr (String (ascii_of_nat 10) "")) = "'\n'"
  /\ repr (VStr (String (ascii_of_nat 127) "")) = "'\x7f'".
Proof. repeat split; vm_compute; reflexivity. Qed.

(** ** The further theorems at concrete inputs *)

Lemma render_placeholders_witness :
  count_char "?"
    "( engine_uuid = ? OR engine_uuid = ? ) AND queue IS NULL AND started > ?"
  = length [VStr "a"; VStr "b"; VInt 3].
Proof.
  apply (render_placeholders
           [("engine_uuid", VDict [("$in", VList [VStr "a"; VStr "b"])]);
            ("queue", VNone); ("started", VDict [("$gt", VInt 3)])]).
  vm_compute. reflexivity.
Defined.

Lemma render_literals_witness :
  _render_expression [("queue", VStr "q"); ("error", VNone)]
  = Ok (join " AND " (map literal_expr [("queue", VStr "q"); ("error", VNone)]),
        List.filter (fun v => negb (is_None v))
                    (map snd [("queue", VStr "q"); ("error", VNone)])).
Proof.
  apply render_literals.
  - intros k Hk. apply list_elem_of_In in Hk. simpl in Hk.
    destruct Hk as [<-|[<-|[]]]; in_list.
  - repeat constructor.
Defined.

Lemma render_comparison_witness :
  _render_expression [("started", VDict [("$gte", VInt 5)])]
  = Ok ("started" ++ " " ++ ">=" ++ " ?", [VInt 5]).
Proof.
  apply render_comparison; [in_list | in_list | reflexivity | reflexivity].
Defined.

Lemma render_None_tests_witness :
  (forall test, test ∈ ["$eq"; "$in"] ->
     _render_expression [("completed", VDict [(test, VNone)])]
     = Ok ("completed" ++ " IS NULL", []))
  /\ (forall test, test ∈ ["$ne"; "$nin"] ->
        _render_expression [("completed", VDict [(test, VNone)])]
        = Ok ("completed" ++ " IS NOT NULL", []))
  /\ (forall test op,
        (test, op) ∈ [("$lt", "<"); ("$gt", ">"); ("$lte", "<="); ("$gte", ">=")] ->
        _render_expression [("completed", VDict [(test, VNone)])]
        = Ok ("completed" ++ " " ++ op ++ " ?", [VNone])).
Proof. apply render_None_tests. in_list. Defined.

Lemma render_illegal_keys_witness :
  exists skeys,
    _render_expression [("bogus", VInt 1); ("queue", VStr "q")]
    = Raise (KeyError_illegal_testing_keys skeys)
    /\ forall k', k' ∈ skeys <->
                  k' ∈ dict_keys [("bogus", VInt 1); ("queue", VStr "q")]
                  /\ k' ∉ _keys.
Proof.
  apply (render_illegal_keys _ "bogus"); [in_list|].
  intros Hin. apply list_elem_of_In in Hin. simpl in Hin.
  repeat (destruct Hin as [Hin|Hin]; [discriminate Hin|]). destruct Hin.
Defined.

Lemma render_conjunction_witness :
  _render_expression
    ([("queue", VStr "q")] ++ [("started", VDict [("$lt", VInt 9)])])%list
  = Ok ("queue = ?" ++ " AND " ++ "started < ?", ([VStr "q"] ++ [VInt 9])%list).
Proof.
  apply render_conjunction;
    [vm_compute; reflexivity | vm_compute; reflexivity
     | discriminate | discriminate].
Defined.

Lemma check_table_decides_witness :
  exists ok,
    _check_table "TASKS" store1
    = (Ok ok, Connection (tables store1)
                (executed store1 ++ [PRAGMA_table_info "TASKS"]))
    /\ (ok = true <->
        table_columns store1 "TASKS" = []
        \/ table_columns store1 "TASKS" = expected_columns)
    /\ (forall key tb,
          find_table store1 "TASKS" = Some (key, tb) -> columns tb <> [] ->
          ok = false).
Proof. apply check_table_decides. reflexivity. Defined.





(** The session's table on the small store. *)
Example init_session_table_run :
  init_table "" "3f2a-77c1-9e" = "_3f2a_77c1_9e"
  /\ fst (_init_db 1 (init_table "" "3f2a-77c1-9e") store1)
     = Ok (Some "_3f2a_77c1_9e").
Proof. split; vm_compute; reflexivity. Qed.

Lemma add_record_fresh_witness :
  exists row,
    length row = 22
    /\ cell 0 row = SText "m2"
    /\ add_record "tasks" (VStr "m2") [("queue", VStr "x")] store1
       = (Ok tt,
          Connection
            (<["tasks" := Table created_columns (Some "msg_id")
                 (rows (Table created_columns (Some "msg_id") [row_m1])
                  ++ [row])]> (tables store1))
            (executed store1 ++ [INSERT_INTO "tasks" 22])).
Proof.
  apply (add_record_fresh "tasks" "m2" [("queue", VStr "x")] store1
           (Table created_columns (Some "msg_id") [row_m1])).
  - split; [exact store1_table | split; reflexivity].
  - intros r Hr. apply list_elem_of_singleton in Hr. subst r. discriminate.
  - repeat constructor; eexists; reflexivity.
Defined.

Lemma add_record_keeps_unique_witness :
  exists tb',
    store_table (snd (add_record "tasks" (VStr "d") [("queue", VStr "q")] store3))
                "tasks" tb'
    /\ unique_ids tb'.
Proof.
  apply (add_record_keeps_unique "tasks" (VStr "d") [("queue", VStr "q")]
           store3 _ table3).
  - split; [exact store3_table | split; reflexivity].
  - unfold unique_ids. apply (bool_decide_unpack _). vm_compute. exact I.
  - vm_compute. reflexivity.
Defined.

Lemma dict_to_list_missing_witness :
  _dict_to_list [("msg_id", VStr "m")] = Raise (KeyError "header").
Proof.
  apply (dict_to_list_missing [("msg_id", VStr "m")] ["msg_id"] (drop 2 _keys)).
  - reflexivity.
  - intros k Hk. apply list_elem_of_singleton in Hk. subst k. in_list.
  - intros Hin. apply list_elem_of_singleton in Hin. discriminate.
Defined.

Lemma get_record_absent_witness :
  @get_record Run.pickle Run.json Run.dates RunById.sql "tasks" (VStr "it's") store3
  = (Raise (KeyError ("No such msg: " ++ repr (VStr "it's"))),
     Connection (tables store3)
                (executed store3 ++ [SELECT_WHERE None "tasks" "msg_id==?"])).
Proof.
  apply (@get_record_absent _ _ _ RunById.sql run_by_id "tasks" "it's" store3
           table3).
  - reflexivity.
  - exact store3_table.
  - reflexivity.
  - intros r Hr. apply list_elem_of_In in Hr. vm_compute in Hr.
    destruct Hr as [<-|[<-|[<-|[]]]]; discriminate.
Defined.

(** The middle one of the three records is dropped. *)
Lemma drop_record_removes_witness :
  exists c' tb',
    @drop_record Run.pickle Run.json Run.dates RunById.sql "tasks" (VStr "c") store3
    = (Ok tt, c')
    /\ tables c' = <["tasks" := tb']> (tables store3)
    /\ columns tb' = columns table3 /\ primary_key tb' = primary_key table3
    /\ rows tb' = List.filter (fun r => bool_decide (cell 0 r <> SText "c"))
                              (rows table3)
    /\ ((forall r, r ∈ rows table3 -> cell 0 r <> SText "c") ->
        tables c' = tables store3)
    /\ exists c'',
         @get_record Run.pickle Run.json Run.dates RunById.sql "tasks" (VStr "c") c'
         = (Raise (KeyError ("No such msg: " ++ repr (VStr "c"))), c'').
Proof.
  apply (@drop_record_removes _ _ _ RunById.sql run_by_id "tasks" "c" store3
           table3).
  - reflexivity.
  - exact store3_table.
  - reflexivity.
Defined.

Example drop_record_run :
  List.filter (fun r => bool_decide (cell 0 r <> SText "c")) (rows table3)
  = [row_of "a" submitted_1; row_of "b" submitted_2].
Proof. vm_compute. reflexivity. Qed.

Lemma add_then_get_witness :
  let rec := [("queue", VStr "x");
              ("buffers", VList (map VBytes [[Byte.x61]; [Byte.x00; Byte.xff]]));
              ("result_buffers", VList (map VBytes []))] in
  exists c',
    add_record "tasks" (VStr "m2") rec store1 = (Ok tt, c')
    /\ fst (@get_record Run.pickle Run.json Run.dates RunById.sql
              "tasks" (VStr "m2") c')
       = Ok (map (fun kv => (fst kv, read_back (snd kv)))
                 (dict_set (dict_update (_defaults None) rec) "msg_id"
                           (VStr "m2"))).
Proof.
  cbv zeta.
  apply (@add_then_get _ _ _ RunById.sql run_by_id run_pickle_roundtrip
           "tasks" "m2" _ store1
           (Table created_columns (Some "msg_id") [row_m1])).
  - split; [exact store1_table | split; reflexivity].
  - intros r Hr. apply list_elem_of_singleton in Hr. subst r. discriminate.
  - intros k v Hkv. apply list_elem_of_In in Hkv. simpl in Hkv.
    destruct Hkv as [[= <- <-]|[[= <- <-]|[[= <- <-]|[]]]];
      (split; [in_list|]).
    + right. left. eexists. split; reflexivity.
    + right. right. exists [[Byte.x61]; [Byte.x00; Byte.xff]].
      split; reflexivity.
    + right. right. exists []. split; reflexivity.
Defined.

(** The middle one of the three records is updated. *)
Lemma update_record_present_witness :
  let rec := [("queue", VStr "z"); ("engine_uuid", VStr "e1");
              ("result_buffers", VList (map VBytes [[Byte.x61]]))] in
  let before := [row_of "a" submitted_1] in
  let after := [row_of "b" submitted_2] in
  exists row',
    update_record "tasks" (VStr "c") rec store3
    = (Ok tt,
       Connection
         (<["tasks" := Table (columns table3) (primary_key table3)
                             (before ++ row' :: after)]> (tables store3))
         (executed store3
          ++ [UPDATE_SET "tasks" (sorted String.leb (dict_keys rec))]))
    /\ length row' = 22
    /\ cell 0 row' = SText "c"
    /\ (forall k v, (k, v) ∈ rec ->
          exists i, index_of k _keys = Some i
                    /\ bind_param v = Ok (cell i row'))
    /\ (forall i, (forall k, k ∈ dict_keys rec -> index_of k _keys <> Some i) ->
          cell i row' = cell i (row_of "c" submitted_3)).
Proof.
  cbv zeta.
  apply (update_record_present "tasks" "c" _ store3 table3
           [row_of "a" submitted_1] [row_of "b" submitted_2]
           (row_of "c" submitted_3)).
  - split; [exact store3_table | split; reflexivity].
  - reflexivity.
  - reflexivity.
  - reflexivity.
  - intros r Hr. apply list_elem_of_In in Hr. vm_compute in Hr.
    destruct Hr as [<-|[<-|[]]]; discriminate.
  - discriminate.
  - apply (bool_decide_unpack _). vm_compute. exact I.
  - intros k Hk. apply list_elem_of_In in Hk. simpl in Hk.
    destruct Hk as [<-|[<-|[<-|[]]]]; (split; [in_list | discriminate]).
  - intros k v Hkv. apply list_elem_of_In in Hkv. simpl in Hkv.
    destruct Hkv as [[= <- <-]|[[= <- <-]|[[= <- <-]|[]]]].
    + right. left. eexists. split; reflexivity.
    + right. left. eexists. split; reflexivity.
    + right. right. exists [[Byte.x61]]. split; reflexivity.
Defined.

Lemma drop_matching_then_find_witness :
  let check := [("queue", VStr "q")] in
  let c' := snd (drop_matching_records "tasks" check store1) in
  (exists tb tb',
     tables store1 !! "tasks" = Some tb
     /\ tables c' = <["tasks" := tb']> (tables store1)
     /\ columns tb' = columns tb
     /\ primary_key tb' = primary_key tb
     /\ sublist (rows tb') (rows tb))
  /\ fst (find_records "tasks" check None c') = Ok [].
Proof.
  cbv zeta. apply drop_matching_then_find. vm_compute. reflexivity.
Defined.

Lemma find_records_keys_witness :
  Forall (fun rec => dict_keys rec = record_keys (Some ["queue"; "msg_id"; "started"]))
         [[("msg_id", VStr "m1"); ("queue", VStr "q"); ("started", VNone)]].
Proof.
  apply (find_records_keys "tasks" [("msg_id", VStr "m1")]
           (Some ["queue"; "msg_id"; "started"]) store1
           (snd (find_records "tasks" [("msg_id", VStr "m1")]
                   (Some ["queue"; "msg_id"; "started"]) store1))).
  - apply (bool_decide_unpack _). vm_compute. reflexivity.
  - vm_compute. reflexivity.
Defined.

Lemma bufs_bytes_like_witness :
  rbind (_adapt_bufs (VList [VBytes [Byte.x61]; VMemoryview [Byte.x62; Byte.x00]]))
        _convert_bufs
  = Ok (VList (map (fun v => VBytes (block_bytes v))
                   [VBytes [Byte.x61]; VMemoryview [Byte.x62; Byte.x00]])).
Proof. apply bufs_bytes_like; [discriminate | repeat constructor]. Defined.

Lemma get_history_lists_all_witness :
  exists rws,
    fst (get_history "tasks" store3)
    = Ok (map (fun row => plain (cell 0 row)) rws)
    /\ rws ≡ₚ rows table3
    /\ Sorted (fun a b => sqlval_leb (cell 5 a) (cell 5 b) = true) rws
    /\ length rws = length (rows table3).
Proof.
  apply (get_history_lists_all "tasks" store3 table3).
  split; [exact store3_table | split; reflexivity].
Defined.

(** The last microsecond of a leap day and the first of March, both at
    UTC+01:00. *)
Lemma same_offset_chronological_witness :
  let a := Datetime 2024 2 29 23 59 59 999999 (Some 60%Z) in
  let b := Datetime 2024 3 1 0 0 0 0 (Some 60%Z) in
  sqlval_compare (SText (_adapt_timestamp a)) (SText (_adapt_timestamp b))
  = (utc_microseconds (ensure_timezone a)
     ?= utc_microseconds (ensure_timezone b))%Z.
Proof.
  cbv zeta. apply same_offset_chronological.
  - repeat split; vm_compute; (reflexivity || discriminate).
  - repeat split; vm_compute; (reflexivity || discriminate).
  - reflexivity.
Defined.
